(** * learning-Go-ch14: contexts, middleware and the cancellation coordinator

    A shallow embedding of the exercises of the repository:

    - [GoContext]   : the part of Go's [context] package the programs call
                      ([Background], [WithValue], [WithTimeout], [Value],
                      [WithCancelCause], [Cause]);
    - [Exercises]   : [LogLevelFromContext] / [ContextWithLogLevel],
                      [ExtractLogLevelMiddleware] and [Timeout];
    - [Tracker]     : [contextWithGUID] / [guidFromContext];
    - [Identity]    : [ContextWithUser] / [UserFromContext];
    - [Coordinator] : the second [main]: two worker goroutines, the shared
                      cancel-cause context, the unbuffered channel and the
                      collector loop, as an interleaving transition system. *)

From Stdlib Require Import List String Ascii ZArith Bool Lia PeanoNat.
Import ListNotations.
Open Scope string_scope.

(* ------------------------------------------------------------------------- *)
(** ** Go errors *)

(** The [error] values the programs build.  [Canceled] is [context.Canceled],
    [DeadlineExceeded] is [context.DeadlineExceeded], [ErrorsNew] is
    [errors.New(msg)], [Errorf prefix e] is [fmt.Errorf(prefix + "%w", e)] and
    [Transport] stands for whatever [http.NewRequestWithContext] or
    [http.Client.Do] returns.  A nil [error] is [None : option error]. *)
Inductive error : Type :=
| Canceled
| DeadlineExceeded
| ErrorsNew (msg : string)
| Transport (msg : string)
| Errorf (prefix : string) (wrapped : error).

Fixpoint Error (e : error) : string :=
  match e with
  | Canceled => "context canceled"
  | DeadlineExceeded => "context deadline exceeded"
  | ErrorsNew msg => msg
  | Transport msg => msg
  | Errorf prefix wrapped => prefix ++ Error wrapped
  end.

(** [fmt.Println] of an [error] interface value: [<nil>] for nil. *)
Definition show_error (c : option error) : string :=
  match c with
  | None => "<nil>"
  | Some e => Error e
  end.

(* ------------------------------------------------------------------------- *)
(** ** The context package *)

Module GoContext.

(** A context key is an interface value: two keys are equal when they have
    the same dynamic type and the same value.  All key types of the
    repository are integer types ([keyType], [guidKey], [userKey]) or the
    empty struct [userKeyStruct] (value 0 here). *)
Record key : Type := mkKey { key_type : string; key_val : Z }.

Definition key_eqb (a b : key) : bool :=
  String.eqb (key_type a) (key_type b) && Z.eqb (key_val a) (key_val b).

(** Values stored in a context, with their dynamic type.  [Level] is the
    named string type of the logging exercise. *)
Inductive Level : Type := MkLevel (s : string).

Inductive any : Type :=
| AnyLevel (l : Level)
| AnyString (s : string)
| AnyInt (n : Z).

(** The (non-nil) contexts the programs can build.  [WithValue] panics on a
    nil parent, so a parent is always one of these.  [WithDeadline] is the
    context with a deadline of its own that [context.WithTimeout] and
    [context.WithDeadline] return; [WithCancel] is a cancel(-cause)
    context. *)
Inductive Context : Type :=
| Background
| WithValue (parent : Context) (k : key) (v : any)
| WithCancel (parent : Context) (id : nat)
| WithDeadline (parent : Context) (id : nat) (deadline : Z).

(** [ctx.Value(k)]: the innermost binding of [k]; cancel and deadline
    contexts delegate to their parent.  [None] is the nil interface. *)
Fixpoint Value (ctx : Context) (k : key) : option any :=
  match ctx with
  | Background => None
  | WithValue parent k' v => if key_eqb k' k then Some v else Value parent k
  | WithCancel parent _ => Value parent k
  | WithDeadline parent _ _ => Value parent k
  end.

(** [ctx.Deadline()]: the earliest deadline on the chain. *)
Fixpoint Deadline (ctx : Context) : option Z :=
  match ctx with
  | Background => None
  | WithValue parent _ _ => Deadline parent
  | WithCancel parent _ => Deadline parent
  | WithDeadline parent _ d =>
      match Deadline parent with
      | Some d' => Some (Z.min d' d)
      | None => Some d
      end
  end.

(** The state of a cancel-cause context: [err] is nil while the context is
    active and [context.Canceled] afterwards (the Done channel is closed
    exactly when [err] is set); [cause] is what [context.Cause] returns. *)
Record cancelCtx : Type := mkCancelCtx { err : option error; cause : option error }.

(** [context.WithCancelCause(context.Background())]. *)
Definition newCancelCtx : cancelCtx := {| err := None; cause := None |}.

Definition is_cancelled (c : cancelCtx) : bool :=
  match err c with Some _ => true | None => false end.

(** The [CancelCauseFunc]: the first call sets [err] to [Canceled] and
    records the cause ([Canceled] when the cause passed is nil); a call on
    a context that is already cancelled returns without writing. *)
Definition cancel (c : option error) (t : cancelCtx) : cancelCtx :=
  match err t with
  | Some _ => t
  | None =>
      {| err := Some Canceled;
         cause := Some (match c with Some e => e | None => Canceled end) |}
  end.

(** [context.Cause(ctx)]. *)
Definition Cause (t : cancelCtx) : option error := cause t.

(** The successive states of the token under a sequence of cancel calls,
    and the number of active-to-cancelled transitions among them. *)
Fixpoint history (calls : list (option error)) (t : cancelCtx) : list cancelCtx :=
  t :: match calls with
       | [] => []
       | c :: rest => history rest (cancel c t)
       end.

Fixpoint flips (h : list cancelCtx) : nat :=
  match h with
  | a :: ((b :: _) as tl) =>
      (if negb (is_cancelled a) && is_cancelled b then 1 else 0) + flips tl
  | _ => 0
  end.

Definition cancel_all (calls : list (option error)) (t : cancelCtx) : cancelCtx :=
  fold_left (fun t c => cancel c t) calls t.

End GoContext.

(* ------------------------------------------------------------------------- *)
(** ** Requests, handlers and the world a handler acts on *)

Module Http.
Import GoContext.

(** [*http.Request], reduced to what the handlers read: its context and the
    query parameters of its URL. *)
Record Request : Type := mkRequest {
  r_ctx : Context;
  r_query : list (string * string)
}.

(** [r.Context()] and [r.WithContext(ctx)]. *)
Definition Context_of (r : Request) : Context := r_ctx r.

Definition WithContext (r : Request) (ctx : Context) : Request :=
  {| r_ctx := ctx; r_query := r_query r |}.

(** [r.URL.Query().Get(name)]: the first value, or the empty string. *)
Fixpoint Query_Get (q : list (string * string)) (name : string) : string :=
  match q with
  | [] => ""
  | (k, v) :: rest => if String.eqb k name then v else Query_Get rest name
  end.

(** One call of [context.WithTimeout]: the id of the context it returned,
    the deadline it asked for and whether the cancel function it returned
    has been called. *)
Record timer : Type := mkTimer { t_id : nat; t_deadline : Z; t_stopped : bool }.

(** What serving a request can touch: the bytes written to the
    [http.ResponseWriter], the messages of the [slog] records and, record by
    record, their attributes, the clock (nanoseconds) and the contexts made
    by [context.WithTimeout] so far. *)
Record World : Type := mkWorld {
  w_resp : list string;
  w_log : list string;
  w_attrs : list (list (string * string));
  w_now : Z;
  w_timers : list timer
}.

(** [http.Handler]: [ServeHTTP(w, r)] as a world transformer. *)
Definition Handler : Type := Request -> World -> World.

(** [slog.Info(msg, args...)] and [slog.Warn(msg, args...)]: one record with
    the message and the attributes built from [args]. *)
Definition slog_attrs (msg : string) (attrs : list (string * string)) (w : World)
  : World :=
  {| w_resp := w_resp w; w_log := w_log w ++ [msg];
     w_attrs := w_attrs w ++ [attrs];
     w_now := w_now w; w_timers := w_timers w |}.

Definition slog (msg : string) (w : World) : World := slog_attrs msg [] w.

(** The key [slog] gives to an argument that has no value after it. *)
Definition badKey : string := "!BADKEY".

(** Two's-complement wrap-around to 64 bits: the value of an [int64]
    expression whose exact value is [z]. *)
Definition int64 (z : Z) : Z := ((z + 2 ^ 63) mod 2 ^ 64 - 2 ^ 63)%Z.

(** [time.Millisecond], in nanoseconds, the unit of [time.Duration]. *)
Definition Millisecond : Z := 1000000.

(** [context.WithTimeout(parent, timeout)], called when the clock reads
    [w_now]: the deadline is [time.Now().Add(timeout)]; when the parent's
    deadline is sooner the result is a plain cancel context, else a context
    with that deadline.  Returns the derived context, the id its cancel
    function acts on, and the world with the call registered. *)
Definition WithTimeout (parent : Context) (timeout : Z) (w : World)
  : Context * nat * World :=
  let id := List.length (w_timers w) in
  let d := (w_now w + timeout)%Z in
  let ctx :=
    match Deadline parent with
    | Some cur => if (cur <? d)%Z then WithCancel parent id
                  else WithDeadline parent id d
    | None => WithDeadline parent id d
    end in
  (ctx, id,
   {| w_resp := w_resp w; w_log := w_log w; w_attrs := w_attrs w;
      w_now := w_now w;
      w_timers := w_timers w ++ [mkTimer id d false] |}).

(** The cancel function returned by [WithTimeout]. *)
Definition stop_timer (id : nat) (w : World) : World :=
  {| w_resp := w_resp w; w_log := w_log w; w_attrs := w_attrs w;
     w_now := w_now w;
     w_timers :=
       map (fun t => if Nat.eqb (t_id t) id
                     then mkTimer (t_id t) (t_deadline t) true else t)
           (w_timers w) |}.

End Http.

(* ------------------------------------------------------------------------- *)
(** ** The logging and timeout exercises (first [main] package) *)

Module Exercises.
Import GoContext Http.

(** [type keyType int], with [key] the second constant of the iota block. *)
Definition key : GoContext.key := mkKey "main.keyType" 1.

Definition Debug : Level := MkLevel "debug".
Definition Info : Level := MkLevel "info".

Definition Level_eqb (a b : Level) : bool :=
  match a, b with MkLevel x, MkLevel y => String.eqb x y end.

(** [v, ok := ctx.Value(key).(Level)]: the zero Level and false when the
    value is absent or of another dynamic type. *)
Definition LogLevelFromContext (ctx : Context) : Level * bool :=
  match Value ctx key with
  | Some (AnyLevel l) => (l, true)
  | _ => (MkLevel "", false)
  end.

Definition ContextWithLogLevel (ctx : Context) (l : Level) : Context :=
  WithValue ctx key (AnyLevel l).

Definition Log (ctx : Context) (level : Level) (msg : string) (w : World) : World :=
  let '(inLevel, ok) := LogLevelFromContext ctx in
  let w1 := if negb ok then slog "no log level available" w else w in
  let w2 := if Level_eqb level Debug && Level_eqb inLevel Debug
            then slog msg w1 else w1 in
  if Level_eqb level Info && (Level_eqb inLevel Debug || Level_eqb inLevel Info)
  then slog msg w2 else w2.

Definition ExtractLogLevelMiddleware (h : Handler) : Handler :=
  fun r w =>
    let param := Query_Get (r_query r) "log_level" in
    let '(logLevel, w1) :=
      if String.eqb param "debug" then (Debug, w)
      else if String.eqb param "info" then (Info, w)
      else (MkLevel "",
            slog_attrs "invalid param value:" [(badKey, param)] w) in
    let r1 :=
      if negb (Level_eqb logLevel (MkLevel ""))
      then WithContext r (ContextWithLogLevel (Context_of r) logLevel)
      else r in
    h r1 w1.

(** [Timeout(ms)]: the duration is [time.Duration(ms) * time.Millisecond],
    an [int64] product; the derived context is bound to [ctx] and its cancel
    function deferred; [h.ServeHTTP(w, r)] is called with [r]. *)
Definition Timeout (ms : Z) : Handler -> Handler :=
  fun h r w =>
    let ctx := Context_of r in
    let '(ctx, cancelFunc, w1) := WithTimeout ctx (int64 (ms * Millisecond)) w in
    let w2 := h r w1 in
    stop_timer cancelFunc w2.

End Exercises.

(* ------------------------------------------------------------------------- *)
(** ** The tracker package *)

Module Tracker.
Import GoContext.

(** [const key guidKey = 1]. *)
Definition key : GoContext.key := mkKey "tracker.guidKey" 1.

Definition contextWithGUID (ctx : Context) (guid : string) : Context :=
  WithValue ctx key (AnyString guid).

Definition guidFromContext (ctx : Context) : string * bool :=
  match Value ctx key with
  | Some (AnyString g) => (g, true)
  | _ => ("", false)
  end.

End Tracker.

(* ------------------------------------------------------------------------- *)
(** ** The identity package *)

Module Identity.
Import GoContext.

(** [type userKey int], with [key] the second constant of the iota block. *)
Definition key : GoContext.key := mkKey "identity.userKey" 1.

Definition ContextWithUser (ctx : Context) (user : string) : Context :=
  WithValue ctx key (AnyString user).

Definition UserFromContext (ctx : Context) : string * bool :=
  match Value ctx key with
  | Some (AnyString user) => (user, true)
  | _ => ("", false)
  end.

End Identity.

(* ------------------------------------------------------------------------- *)
(** ** The cancellation coordinator (second [main] package) *)

Module Coordinator.
Import GoContext.

(** What the program reads of an [*http.Response]: [resp.StatusCode] and
    [resp.Header.Get("date")]. *)
Inductive response : Type := Resp (StatusCode : Z) (date : string).

Inductive result : Type :=
| Ok (resp : response)
| Err (e : error).

Definition StatusInternalServerError : Z := 500.

(** [makeRequest]: [newRequest] is the error of
    [http.NewRequestWithContext] (nil when the request was built) and [do]
    what [http.DefaultClient.Do] returns. *)
Definition makeRequest (newRequest : option error) (do : result) : result :=
  match newRequest with
  | Some e => Err e
  | None => do
  end.

Definition is_err (r : result) : bool :=
  match r with Err _ => true | Ok _ => false end.

(** The two goroutines started by [main]. *)
Inductive worker : Type := Status | Delay.

Definition worker_eqb (a b : worker) : bool :=
  match a, b with
  | Status, Status | Delay, Delay => true
  | _, _ => false
  end.

(** Where a worker goroutine stands.
    - [WCall]: at the top of the [for], about to call [makeRequest];
    - [WInFlight doomed]: inside [makeRequest]; [doomed] records that the
      context was already cancelled when the call began;
    - [WCancel c]: about to run [cancelFunc(c)];
    - [WReturn]: about to [return] (which runs the deferred [wg.Done()]);
    - [WSelect msg]: about to execute the [select] that publishes [msg];
    - [WParked]: blocked in that [select], queued on the channel with its
      message;
    - [WSleep]: in [time.Sleep(1 * time.Second)] (status goroutine only);
    - [WStopped]: the goroutine has returned. *)
Inductive wpc : Type :=
| WCall
| WInFlight (doomed : bool)
| WCancel (c : error)
| WReturn
| WSelect (msg : string)
| WParked
| WSleep
| WStopped.

(** Where [main] stands: executing or blocked in the [select] of the loop,
    printing a received result, printing the cause after [ctx.Done()], in
    [wg.Wait()], at the final print, at the deferred [cancelFunc(nil)], or
    returned. *)
Inductive mpc : Type :=
| MSelect
| MParked
| MGot (s : string)
| MDone
| MWait
| MFinal
| MDefer
| MExit.

(** The lines the program prints. *)
Inductive line : Type :=
| InMain (s : string)
| InMainCancelled (c : option error)
| InDelayGoroutine (e : error)
| ContextCause (c : option error).

Definition render (l : line) : string :=
  match l with
  | InMain s => "in main: " ++ s
  | InMainCancelled c => "in main: cancelled! " ++ show_error c
  | InDelayGoroutine e => "in delay goroutine: " ++ Error e
  | ContextCause c => "context cause: " ++ show_error c
  end.

(** The shared state: the token [ctx], the program points, the goroutines
    queued as senders on the unbuffered channel [ch] with the message each
    one offers (oldest first), the [sync.WaitGroup] counter and standard
    output.  [calls] is a history
    variable: the causes passed to [cancelFunc], in the order of the calls. *)
Record state : Type := mkState {
  tok : cancelCtx;
  status_pc : wpc;
  delay_pc : wpc;
  main_pc : mpc;
  sendq : list (worker * string);
  wg : Z;
  out : list line;
  calls : list (option error)
}.

(** [ctx, cancelFunc := context.WithCancelCause(context.Background())],
    [ch := make(chan string)], [wg.Add(2)], both goroutines started and
    [main] entering its loop. *)
Definition init : state :=
  {| tok := newCancelCtx; status_pc := WCall; delay_pc := WCall;
     main_pc := MSelect; sendq := []; wg := 2; out := []; calls := [] |}.

Definition pc_of (w : worker) (s : state) : wpc :=
  match w with Status => status_pc s | Delay => delay_pc s end.

Definition set_pc (w : worker) (p : wpc) (s : state) : state :=
  match w with
  | Status =>
      mkState (tok s) p (delay_pc s) (main_pc s) (sendq s) (wg s) (out s) (calls s)
  | Delay =>
      mkState (tok s) (status_pc s) p (main_pc s) (sendq s) (wg s) (out s) (calls s)
  end.

Definition set_main (p : mpc) (s : state) : state :=
  mkState (tok s) (status_pc s) (delay_pc s) p (sendq s) (wg s) (out s) (calls s).

Definition set_sendq (q : list (worker * string)) (s : state) : state :=
  mkState (tok s) (status_pc s) (delay_pc s) (main_pc s) q (wg s) (out s) (calls s).

Definition println (ls : list line) (s : state) : state :=
  mkState (tok s) (status_pc s) (delay_pc s) (main_pc s) (sendq s) (wg s)
          (out s ++ ls) (calls s).

Definition wg_Done (s : state) : state :=
  mkState (tok s) (status_pc s) (delay_pc s) (main_pc s) (sendq s) (wg s - 1)
          (out s) (calls s).

(** *** The bodies of the two goroutines *)

(** Status goroutine, from the return of [makeRequest] to the [select]. *)
Definition status_on_result (r : result) : list line * wpc :=
  match r with
  | Err e => ([], WCancel (Errorf "in status goroutine: " e))
  | Ok (Resp code _) =>
      if (code =? StatusInternalServerError)%Z
      then ([], WCancel (ErrorsNew "bad status"))
      else ([], WSelect "success from status")
  end.

(** Delay goroutine, from the return of [makeRequest] to the [select]. *)
Definition delay_on_result (r : result) : list line * wpc :=
  match r with
  | Err e => ([InDelayGoroutine e], WCancel (Errorf "in delay goroutine: " e))
  | Ok (Resp _ date) => ([], WSelect ("success from delay: " ++ date))
  end.

Definition on_result (w : worker) : result -> list line * wpc :=
  match w with
  | Status => status_on_result
  | Delay => delay_on_result
  end.

(** What follows the [select]: the status goroutine sleeps, the delay
    goroutine starts its next iteration at once. *)
Definition after_select (w : worker) : wpc :=
  match w with
  | Status => WSleep
  | Delay => WCall
  end.

(** *** Cancellation *)

(** Closing the Done channel wakes every goroutine blocked in a [select]
    with its [<-ctx.Done()] case: the workers leave the channel's send
    queue and go on after their [select], [main] goes to its Done branch. *)
Definition wake_pc (w : worker) (p : wpc) : wpc :=
  match p with
  | WParked => after_select w
  | _ => p
  end.

Definition close_done (s : state) : state :=
  mkState (tok s)
          (wake_pc Status (status_pc s))
          (wake_pc Delay (delay_pc s))
          (match main_pc s with MParked => MDone | p => p end)
          []
          (wg s) (out s) (calls s).

(** [cancelFunc(c)]: a first call records the cause and closes Done; a later
    call finds the context cancelled and does nothing. *)
Definition cancelFunc (c : option error) (s : state) : state :=
  let s1 := if is_cancelled (tok s) then s else close_done s in
  mkState (cancel c (tok s)) (status_pc s1) (delay_pc s1) (main_pc s1)
          (sendq s1) (wg s1) (out s1) (calls s1 ++ [c]).

(** *** Steps *)

(** One step of one goroutine.  [LFinish] carries what the network answers;
    [pick_done] is the choice of a [select] both of whose cases can proceed. *)
Inductive label : Type :=
| LStart (w : worker)
| LFinish (w : worker) (newRequest : option error) (do : result)
| LCancel (w : worker)
| LReturn (w : worker)
| LSelect (w : worker) (pick_done : bool)
| LWake (w : worker)
| LMain (pick_done : bool).

(** The [select] of a worker at [WSelect msg]: the send can proceed when
    [main] is blocked in its [select], the Done case when the context is
    cancelled; with neither, the worker blocks. *)
Definition worker_select (w : worker) (msg : string) (pick_done : bool)
                         (s : state) : state :=
  let send_ready := match main_pc s with MParked => true | _ => false end in
  let done_ready := is_cancelled (tok s) in
  let send := set_pc w (after_select w) (set_main (MGot msg) s) in
  let done := set_pc w (after_select w) s in
  match send_ready, done_ready with
  | true, true => if pick_done then done else send
  | true, false => send
  | false, true => done
  | false, false => set_pc w WParked (set_sendq (sendq s ++ [(w, msg)]) s)
  end.

(** Receiving from the oldest queued sender, which is blocked in its
    [select] and goes on after it. *)
Definition main_recv (s : state) : option state :=
  match sendq s with
  | [] => None
  | (w, msg) :: q =>
      match pc_of w s with
      | WParked =>
          Some (set_pc w (after_select w) (set_sendq q (set_main (MGot msg) s)))
      | _ => None
      end
  end.

(** The [select] of [main]: the receive can proceed when a sender is queued,
    the Done case when the context is cancelled; with neither, [main]
    blocks. *)
Definition main_select (pick_done : bool) (s : state) : option state :=
  let recv_ready := match sendq s with [] => false | _ => true end in
  let done_ready := is_cancelled (tok s) in
  match recv_ready, done_ready with
  | true, true => if pick_done then Some (set_main MDone s) else main_recv s
  | true, false => main_recv s
  | false, true => Some (set_main MDone s)
  | false, false => Some (set_main MParked s)
  end.

Definition main_step (pick_done : bool) (s : state) : option state :=
  match main_pc s with
  | MSelect => main_select pick_done s
  | MParked => None
  | MGot m => Some (set_main MSelect (println [InMain m] s))
  | MDone => Some (set_main MWait (println [InMainCancelled (Cause (tok s))] s))
  | MWait => if (wg s =? 0)%Z then Some (set_main MFinal s) else None
  | MFinal => Some (set_main MDefer (println [ContextCause (Cause (tok s))] s))
  | MDefer => Some (set_main MExit (cancelFunc None s))
  | MExit => None
  end.

(** [step l s] is [None] when goroutine [l] cannot take that step in [s]:
    it is elsewhere, blocked, or (for [LFinish]) the network cannot answer
    with a response to a request made on a cancelled context. *)
Definition step (l : label) (s : state) : option state :=
  match l with
  | LStart w =>
      match pc_of w s with
      | WCall => Some (set_pc w (WInFlight (is_cancelled (tok s))) s)
      | _ => None
      end
  | LFinish w newRequest do =>
      match pc_of w s with
      | WInFlight doomed =>
          let r := makeRequest newRequest do in
          if doomed && negb (is_err r) then None
          else let '(ls, p) := on_result w r in Some (set_pc w p (println ls s))
      | _ => None
      end
  | LCancel w =>
      match pc_of w s with
      | WCancel c => Some (set_pc w WReturn (cancelFunc (Some c) s))
      | _ => None
      end
  | LReturn w =>
      match pc_of w s with
      | WReturn => Some (set_pc w WStopped (wg_Done s))
      | _ => None
      end
  | LSelect w pick_done =>
      match pc_of w s with
      | WSelect msg => Some (worker_select w msg pick_done s)
      | _ => None
      end
  | LWake w =>
      match pc_of w s with
      | WSleep => Some (set_pc w WCall s)
      | _ => None
      end
  | LMain pick_done => main_step pick_done s
  end.

(** Running a schedule. *)
Fixpoint run (tr : list label) (s : state) : option state :=
  match tr with
  | [] => Some s
  | l :: rest =>
      match step l s with
      | Some s' => run rest s'
      | None => None
      end
  end.

Definition reachable (s : state) : Prop := exists tr, run tr init = Some s.

(** *** Observations on a state *)

Definition parked (p : wpc) : bool :=
  match p with WParked => true | _ => false end.

Definition stopped (p : wpc) : bool :=
  match p with WStopped => true | _ => false end.

Definition returned (p : wpc) : bool :=
  match p with WReturn | WStopped => true | _ => false end.

Definition publishing (p : wpc) : bool :=
  match p with WSelect _ | WParked => true | _ => false end.

Definition in_loop (p : mpc) : bool :=
  match p with MSelect | MParked | MGot _ => true | _ => false end.

Definition after_wait (p : mpc) : bool :=
  match p with MFinal | MDefer | MExit => true | _ => false end.

(** The goroutines that have not yet run [wg.Done()]. *)
Definition live_count (s : state) : Z :=
  (if stopped (status_pc s) then 0 else 1) + (if stopped (delay_pc s) then 0 else 1).

(** No goroutine is blocked in a [select]. *)
Definition nobody_parked (s : state) : bool :=
  match sendq s with [] => true | _ => false end
  && match main_pc s with MParked => false | _ => true end
  && negb (parked (status_pc s)) && negb (parked (delay_pc s)).

(** The results [main] has received so far: those printed and the one it
    holds, if any. *)
Fixpoint printed_results (ls : list line) : list string :=
  match ls with
  | [] => []
  | InMain m :: rest => m :: printed_results rest
  | _ :: rest => printed_results rest
  end.

Definition received (s : state) : list string :=
  printed_results (out s) ++ match main_pc s with MGot m => [m] | _ => [] end.

(** The invariant of the coordinator. *)
Record Inv (s : state) : Prop := mkInv {
  inv_tok : tok s = cancel_all (calls s) newCancelCtx;
  inv_first : match calls s with [] => True | c :: _ => c <> None end;
  inv_park : is_cancelled (tok s) = true -> nobody_parked s = true;
  inv_ret : forall w, returned (pc_of w s) = true -> is_cancelled (tok s) = true;
  inv_doomed : forall w, pc_of w s = WInFlight true -> is_cancelled (tok s) = true;
  inv_loop : in_loop (main_pc s) = false -> is_cancelled (tok s) = true;
  inv_wg : wg s = live_count s;
  inv_final : after_wait (main_pc s) = true -> live_count s = 0%Z;
  inv_out1 : forall c, In (InMainCancelled c) (out s) ->
             is_cancelled (tok s) = true /\ c = Cause (tok s);
  inv_out2 : forall c, In (ContextCause c) (out s) ->
             is_cancelled (tok s) = true /\ c = Cause (tok s) /\ live_count s = 0%Z;
  inv_queue : forall w m, In (w, m) (sendq s) -> pc_of w s = WParked;
  inv_nodup : NoDup (map fst (sendq s))
}.

(** *** Observations on a schedule *)

(** The goroutine a label belongs to ([None] for [main]). *)
Definition label_worker (l : label) : option worker :=
  match l with
  | LStart w | LFinish w _ _ | LCancel w | LReturn w | LSelect w _ | LWake w => Some w
  | LMain _ => None
  end.

Definition is_of (w : worker) (l : label) : bool :=
  match label_worker l with
  | Some w' => worker_eqb w w'
  | None => false
  end.

(** Every outbound call of [w] that completes in the schedule fails. *)
Definition fails_always (w : worker) (tr : list label) : bool :=
  forallb (fun l => match l with
                    | LFinish w' nr d => negb (worker_eqb w w') || is_err (makeRequest nr d)
                    | _ => true
                    end) tr.

(** The number of loop iterations [w] begins in the schedule. *)
Definition starts (w : worker) (tr : list label) : nat :=
  List.length (filter (fun l => match l with
                                | LStart w' => worker_eqb w w'
                                | _ => false
                                end) tr).

(** [w] never calls [cancelFunc] in the schedule. *)
Definition quiet (w : worker) (tr : list label) : bool :=
  forallb (fun l => match l with
                    | LCancel w' => negb (worker_eqb w w')
                    | _ => true
                    end) tr.

(** A worker that has not got past the outbound call of an iteration. *)
Definition first_iteration (p : wpc) : bool :=
  match p with WSelect _ | WParked | WSleep => false | _ => true end.

(** Whether the worker has called [makeRequest] yet. *)
Definition begun (p : wpc) : nat :=
  match p with WCall => 0 | _ => 1 end.

(** *** The worker of the specification *)

(** What distinguishes one worker from the other in the code: the name in
    its cause, whether HTTP 500 is fatal, whether a transport error is
    printed, the message it publishes and whether it sleeps between
    iterations. *)
Record worker_cfg : Type := mkCfg {
  cfg_name : string;
  cfg_fatal_500 : bool;
  cfg_prints_error : bool;
  cfg_message : string -> string;
  cfg_sleeps : bool
}.

Definition status_cfg : worker_cfg :=
  mkCfg "status" true false (fun _ => "success from status") true.

Definition delay_cfg : worker_cfg :=
  mkCfg "delay" false true (fun date => "success from delay: " ++ date) false.

Definition cfg_of (w : worker) : worker_cfg :=
  match w with Status => status_cfg | Delay => delay_cfg end.

(** One loop body for both workers, by configuration. *)
Definition worker_body (c : worker_cfg) (r : result) : list line * wpc :=
  match r with
  | Err e =>
      (if cfg_prints_error c then [InDelayGoroutine e] else [],
       WCancel (Errorf ("in " ++ cfg_name c ++ " goroutine: ") e))
  | Ok (Resp code date) =>
      if cfg_fatal_500 c && (code =? StatusInternalServerError)%Z
      then ([], WCancel (ErrorsNew "bad status"))
      else ([], WSelect (cfg_message c date))
  end.

Definition worker_after_select (c : worker_cfg) : wpc :=
  if cfg_sleeps c then WSleep else WCall.

(** The worker as section 4.2 of the specification words it, with the
    outbound target and the interval as its only parameters: a transport
    failure and the application-level failure status are both fatal, any
    other result is published. *)
Inductive reaction : Type := Fatal | Publish.

Definition spec_reaction (target : string) (interval : nat) (r : result) : reaction :=
  match r with
  | Err _ => Fatal
  | Ok (Resp code _) =>
      if (code =? StatusInternalServerError)%Z then Fatal else Publish
  end.

(** The reaction of the code to a result. *)
Definition reaction_of (x : list line * wpc) : reaction :=
  match snd x with
  | WCancel _ => Fatal
  | _ => Publish
  end.

Definition target (w : worker) : string :=
  match w with
  | Status => "http://httpbin.org/status/200,200,200,500"
  | Delay => "http://httpbin.org/delay/1"
  end.

(** The sleep between iterations, in seconds. *)
Definition interval (w : worker) : nat :=
  match w with Status => 1 | Delay => 0 end.

(** *** Schedules used below *)

(** The status goroutine fails on its first call. *)
Definition status_fails_first : list label :=
  [LStart Status; LFinish Status None (Err (Transport "boom"));
   LCancel Status; LReturn Status].

(** The status goroutine blocks publishing a result, the delay goroutine
    fails and cancels, [main] reports, the status goroutine sleeps, calls
    again, fails and returns, and [main] finishes. *)
Definition delay_fails_while_status_publishes : list label :=
  [LStart Status; LFinish Status None (Ok (Resp 200 "Fri")); LSelect Status false;
   LStart Delay; LFinish Delay None (Err (Transport "boom"));
   LCancel Delay; LReturn Delay;
   LMain false; LMain false;
   LWake Status; LStart Status; LFinish Status None (Err Canceled);
   LCancel Status; LReturn Status;
   LMain false; LMain false; LMain false].

(** The status goroutine obtains a result after the delay goroutine has
    cancelled, and reaches its [select]. *)
Definition status_selects_after_cancel : list label :=
  [LStart Status;
   LStart Delay; LFinish Delay None (Err (Transport "boom")); LCancel Delay;
   LFinish Status None (Ok (Resp 200 "Fri"))].

(** The delay goroutine receives HTTP 500 and hands its message to [main]. *)
Definition delay_receives_500 : list label :=
  [LMain false; LStart Delay; LFinish Delay None (Ok (Resp 500 "Fri"));
   LSelect Delay false; LMain false].

(** [main] receives and prints a result of the delay goroutine; then, while
    a request of the status goroutine is in flight, the delay goroutine
    fails and cancels. *)
Definition delay_cancels_after_a_result : list label :=
  [LMain false; LStart Delay; LFinish Delay None (Ok (Resp 200 "Fri"));
   LSelect Delay false; LMain false;
   LStart Status;
   LStart Delay; LFinish Delay None (Err (Transport "boom")); LCancel Delay].

(** What can follow: the request of the status goroutine succeeds, the
    goroutine runs its [select] while [main] is at its own, [main] runs its
    [select] and reports. *)
Definition publish_after_cancel : list label :=
  [LFinish Status None (Ok (Resp 200 "Fri")); LSelect Status false;
   LMain false; LMain false].

(** The state a schedule leads to from [init] ([init] if it cannot run). *)
Definition final_of (tr : list label) : state :=
  match run tr init with
  | Some s => s
  | None => init
  end.

Definition after_status_fails_first : state :=
  Eval vm_compute in final_of status_fails_first.

Definition after_shutdown : state :=
  Eval vm_compute in final_of delay_fails_while_status_publishes.

Definition at_select_after_cancel : state :=
  Eval vm_compute in final_of status_selects_after_cancel.

Definition cancelled_after_a_result : state :=
  Eval vm_compute in final_of delay_cancels_after_a_result.

Definition publishing_after_cancel : state :=
  Eval vm_compute in
    final_of (delay_cancels_after_a_result ++ firstn 1 publish_after_cancel).

Definition status_in_flight : state :=
  Eval vm_compute in final_of [LStart Status].

Definition main_holds_message : state :=
  Eval vm_compute in final_of (firstn 4 delay_receives_500).

(** *** Claims of the specification that the code does not meet as worded *)

(** A failure in the sense of the specification: the outbound call could
    not be built or completed, or it completed with HTTP 500. *)
Definition is_failure (r : result) : bool :=
  match r with
  | Err _ => true
  | Ok (Resp code _) => (code =? StatusInternalServerError)%Z
  end.

(** "Every worker whose outbound call fails, or completes with HTTP 500,
    goes on to cancel the token." *)
Definition every_worker_cancels_on_failure : Prop :=
  forall (tr : list label) (s s1 : state) (w : worker)
         (nr : option error) (d : result),
    run tr init = Some s ->
    step (LFinish w nr d) s = Some s1 ->
    is_failure (makeRequest nr d) = true ->
    exists c, pc_of w s1 = WCancel c.

(** "A worker whose publish loses the race against cancellation drops its
    result and reaches Stopped without error", that is, without going
    through [cancelFunc] with an error of its own. *)
Definition dropped_publish_stops_without_error : Prop :=
  forall (tr : list label) (s s1 : state) (w : worker) (m : string) (b : bool),
    run tr init = Some s ->
    pc_of w s = WSelect m ->
    is_cancelled (tok s) = true ->
    step (LSelect w b) s = Some s1 ->
    received s1 = received s /\
    exists tr' s2,
      quiet w tr' = true /\ run tr' s1 = Some s2 /\ pc_of w s2 = WStopped.

(** "The two loops react alike to every answer of the network, as the
    worker of the specification does." *)
Definition loops_equal_up_to_target_and_interval : Prop :=
  forall (w : worker) (r : result),
    reaction_of (on_result w r) = spec_reaction (target w) (interval w) r.

(** A worker that is about to call [cancelFunc(c)], or has called it and is
    returning or has returned. *)
Definition stopping (w : worker) (c : error) (s : state) : Prop :=
  pc_of w s = WCancel c \/
  returned (pc_of w s) = true /\ In (Some c) (calls s) /\
  is_cancelled (tok s) = true.

(** A worker that will not publish again: it is past its [select] (or has
    not reached one) and, if its outbound call is in flight, that call was
    made on the cancelled context. *)
Definition winding_down (p : wpc) : bool :=
  match p with
  | WSelect _ | WParked | WInFlight false => false
  | _ => true
  end.

End Coordinator.

(* ------------------------------------------------------------------------- *)
(** ** The [/log] route of the first [main] *)

Module ExercisesApp.
Import GoContext Http Exercises.

(** The handler registered under [/log]. *)
Definition log_handler : Handler :=
  fun r w =>
    Log (Context_of r) Debug "the log level is set and everything works properly" w.

Definition log_route : Handler := ExtractLogLevelMiddleware log_handler.

End ExercisesApp.

(* ------------------------------------------------------------------------- *)
(** ** Deriving contexts layer by layer *)

Module Layers.
Import GoContext.

(** One derivation step: [context.WithValue], [context.WithCancel] (or
    [WithCancelCause]) and [context.WithTimeout] / [WithDeadline]. *)
Inductive layer : Type :=
| LValue (k : key) (v : any)
| LCancel (id : nat)
| LDeadline (id : nat) (deadline : Z).

Definition wrap_layer (ctx : Context) (l : layer) : Context :=
  match l with
  | LValue k v => WithValue ctx k v
  | LCancel id => WithCancel ctx id
  | LDeadline id d => WithDeadline ctx id d
  end.

(** The context obtained from [ctx] by the layers, first to last. *)
Definition derive (ctx : Context) (ls : list layer) : Context :=
  fold_left wrap_layer ls ctx.

Definition binds (k : key) (l : layer) : bool :=
  match l with
  | LValue k' _ => key_eqb k' k
  | _ => false
  end.

(** No layer stores under [k]. *)
Definition free_of (k : key) (ls : list layer) : bool :=
  forallb (fun l => negb (binds k l)) ls.

End Layers.

(* ------------------------------------------------------------------------- *)
(** ** Requests with headers and cookies, response writers *)

Module Web.
Import GoContext.

(** [http.Cookie], the fields the programs set. *)
Record Cookie : Type := mkCookie {
  c_Name : string;
  c_Value : string;
  c_Path : string;
  c_MaxAge : Z
}.

(** [*http.Request]: its context, its URL as text, [r.URL.Query()], its
    header fields in the order they were added (keys in canonical form) and
    the cookies of its Cookie header, in order. *)
Record Request : Type := mkRequest {
  q_ctx : Context;
  q_url : string;
  q_query : list (string * string);
  q_header : list (string * string);
  q_cookies : list (string * string)
}.

(** [r.WithContext(ctx)]. *)
Definition WithContext (r : Request) (ctx : Context) : Request :=
  mkRequest ctx (q_url r) (q_query r) (q_header r) (q_cookies r).

(** The canonical form [Header.Get] and [Header.Add] give the key
    [X-GUID]. *)
Definition X_GUID : string := "X-Guid".

(** [h.Get(key)]: the first value of the key, or the empty string. *)
Fixpoint Header_Get (h : list (string * string)) (key : string) : string :=
  match h with
  | [] => ""
  | (k, v) :: rest => if String.eqb k key then v else Header_Get rest key
  end.

(** [h.Add(key, value)]: appended after the values the key already has. *)
Definition Header_Add (h : list (string * string)) (key value : string)
  : list (string * string) :=
  (h ++ [(key, value)])%list.

(** [req.Header.Add(key, value)], which writes into the request. *)
Definition Request_Header_Add (r : Request) (key value : string) : Request :=
  mkRequest (q_ctx r) (q_url r) (q_query r) (Header_Add (q_header r) key value)
            (q_cookies r).

(** [http.ErrNoCookie]. *)
Definition ErrNoCookie : error := ErrorsNew "http: named cookie not present".

(** [r.Cookie(name)]: the value of the first cookie of that name. *)
Fixpoint Request_Cookie (cs : list (string * string)) (name : string)
  : string + error :=
  match cs with
  | [] => inr ErrNoCookie
  | (n, v) :: rest => if String.eqb n name then inl v else Request_Cookie rest name
  end.

(** An [http.ResponseWriter]: the Set-Cookie entries of [w.Header()], the
    status once the header has been written, the Set-Cookie entries that
    went out with it, and the body written so far. *)
Record ResponseWriter : Type := mkRW {
  rw_header : list Cookie;
  rw_status : option Z;
  rw_sent : list Cookie;
  rw_body : string
}.

Definition new_rw : ResponseWriter := mkRW [] None [] "".

(** [w.WriteHeader(code)]: the first call sends the status and the header as
    it stands; a later call is ignored. *)
Definition rw_WriteHeader (code : Z) (w : ResponseWriter) : ResponseWriter :=
  match rw_status w with
  | Some _ => w
  | None => mkRW (rw_header w) (Some code) (rw_header w) (rw_body w)
  end.

(** [w.Write(b)]: writes the header with status 200 if it has not been
    written, then the bytes. *)
Definition rw_Write (b : string) (w : ResponseWriter) : ResponseWriter :=
  let w1 := rw_WriteHeader 200 w in
  mkRW (rw_header w1) (rw_status w1) (rw_sent w1) (rw_body w1 ++ b).

(** The bytes [Cookie.String()] keeps in a value: printable ASCII other than
    the double quote, the semicolon and the backslash; and in a path:
    printable ASCII other than the semicolon. *)
Definition validCookieValueByte (b : ascii) : bool :=
  let n := nat_of_ascii b in
  (32 <=? n)%nat && (n <? 127)%nat
  && negb (n =? 34)%nat && negb (n =? 59)%nat && negb (n =? 92)%nat.

Definition validCookiePathByte (b : ascii) : bool :=
  let n := nat_of_ascii b in
  (32 <=? n)%nat && (n <? 127)%nat && negb (n =? 59)%nat.

(** The bytes of a token, of which a cookie name is made: letters, digits
    and the characters [!#$%&'*+-.^_`|~]. *)
Definition isTokenByte (b : ascii) : bool :=
  let n := nat_of_ascii b in
  ((48 <=? n)%nat && (n <=? 57)%nat)
  || ((65 <=? n)%nat && (n <=? 90)%nat)
  || ((97 <=? n)%nat && (n <=? 122)%nat)
  || existsb (Nat.eqb n) [33; 35; 36; 37; 38; 39; 42; 43; 45; 46; 94; 95; 96; 124; 126]%nat.

Fixpoint all_bytes (valid : ascii -> bool) (v : string) : bool :=
  match v with
  | EmptyString => true
  | String b rest => valid b && all_bytes valid rest
  end.

(** [sanitizeOrWarn]: the string without its invalid bytes. *)
Fixpoint sanitize (valid : ascii -> bool) (v : string) : string :=
  match v with
  | EmptyString => EmptyString
  | String b rest =>
      if valid b then String b (sanitize valid rest) else sanitize valid rest
  end.

Definition isCookieNameValid (raw : string) : bool :=
  negb (String.eqb raw "") && all_bytes isTokenByte raw.

(** [http.SetCookie(w, c)]: when [c.String()] is not empty, that is when the
    name of the cookie is valid, adds it to [w.Header()] as a Set-Cookie
    entry.  The entry is kept as the cookie a reader of the header finds
    there: the value and the path without their invalid bytes.  (In the text
    of the header a value with a space or a comma stands between double
    quotes and a negative MaxAge reads [Max-Age=0].) *)
Definition rw_SetCookie (c : Cookie) (w : ResponseWriter) : ResponseWriter :=
  if isCookieNameValid (c_Name c)
  then mkRW (rw_header w
             ++ [mkCookie (c_Name c) (sanitize validCookieValueByte (c_Value c))
                          (sanitize validCookiePathByte (c_Path c)) (c_MaxAge c)])%list
            (rw_status w) (rw_sent w) (rw_body w)
  else w.

(** What serving a request acts on: the response writer and standard
    output. *)
Record World : Type := mkWorld { rw : ResponseWriter; stdout : list string }.

Definition on_rw (f : ResponseWriter -> ResponseWriter) (w : World) : World :=
  mkWorld (f (rw w)) (stdout w).

Definition WriteHeader (code : Z) : World -> World := on_rw (rw_WriteHeader code).
Definition Write (b : string) : World -> World := on_rw (rw_Write b).
Definition SetCookie (c : Cookie) : World -> World := on_rw (rw_SetCookie c).

(** [fmt.Println(s)]. *)
Definition Println (s : string) (w : World) : World :=
  mkWorld (rw w) (stdout w ++ [s])%list.

Definition Handler : Type := Request -> World -> World.

Definition StatusBadRequest : Z := 400.
Definition StatusUnauthorized : Z := 401.
Definition StatusInternalServerError : Z := 500.
Definition StatusOK : Z := 200.

End Web.

(* ------------------------------------------------------------------------- *)
(** ** The identity package, continued, and the user-management service *)

Module IdentityApp.
Import GoContext Web.

(** The only value of [userKeyStruct]. *)
Definition userKeyStruct : GoContext.key := mkKey "identity.userKeyStruct" 0.

Definition ContextWithUserStruct (ctx : Context) (user : string) : Context :=
  WithValue ctx userKeyStruct (AnyString user).

Definition UserFromContextStruct (ctx : Context) : string * bool :=
  match Value ctx userKeyStruct with
  | Some (AnyString user) => (user, true)
  | _ => ("", false)
  end.

Definition extractUser (req : Request) : string * option error :=
  match Request_Cookie (q_cookies req) "identity" with
  | inr err => ("", Some err)
  | inl v => (v, None)
  end.

Definition Middleware (h : Handler) : Handler :=
  fun req w =>
    match extractUser req with
    | (_, Some _) => Write "unauthorized" (WriteHeader StatusUnauthorized w)
    | (user, None) =>
        let ctx := q_ctx req in
        let ctx := Identity.ContextWithUser ctx user in
        let req := WithContext req ctx in
        h req w
    end.

Definition SetUser (user : string) (w : World) : World :=
  SetCookie (mkCookie "identity" user "" 0) w.

Definition DeleteUser (w : World) : World :=
  SetCookie (mkCookie "identity" "" "/" (-1)) w.

(** The [Logic] interface of the user-management service. *)
Definition Logic : Type := Context -> string -> string -> string * option error.

(** [LogicImpl.BusinessLogic]. *)
Definition BusinessLogic : Logic :=
  fun ctx user data =>
    ("Hello " ++ user ++ ", thank you for sending me " ++ data, None).

Section Controller.

(** [strings.TrimSpace]. *)
Variable TrimSpace : string -> string.
Variable logic : Logic.

Definition Login : Handler :=
  fun req w =>
    let userName := Http.Query_Get (q_query req) "user" in
    if Nat.eqb (String.length (TrimSpace userName)) 0
    then Write "No user specified" (WriteHeader StatusBadRequest w)
    else Write "user logged in" (WriteHeader StatusOK (SetUser userName w)).

Definition DoLogic : Handler :=
  fun req w =>
    let ctx := q_ctx req in
    let '(user, ok) := Identity.UserFromContext ctx in
    if negb ok then WriteHeader StatusInternalServerError w
    else
      let data := Http.Query_Get (q_query req) "data" in
      match logic ctx user data with
      | (_, Some err) => Write (Error err) (WriteHeader StatusInternalServerError w)
      | (result, None) => Write result w
      end.

Definition Logout : Handler :=
  fun r w =>
    let ctx := q_ctx r in
    let '(_, ok) := Identity.UserFromContext ctx in
    if negb ok then WriteHeader StatusInternalServerError w
    else Write "user logged out" (WriteHeader StatusOK (DeleteUser w)).

End Controller.

End IdentityApp.

(* ------------------------------------------------------------------------- *)
(** ** The tracker package, continued, and the application-management
       service *)

Module TrackerApp.
Import GoContext Web.

(** [Middleware]; [fresh] is what [uuid.New().String()] returns. *)
Definition Middleware (fresh : string) (h : Handler) : Handler :=
  fun req w =>
    let ctx := q_ctx req in
    let guid := Header_Get (q_header req) X_GUID in
    let ctx := if negb (String.eqb guid "")
               then Tracker.contextWithGUID ctx guid
               else Tracker.contextWithGUID ctx fresh in
    let req := WithContext req ctx in
    h req w.

(** [Logger.Log]. *)
Definition Log (ctx : Context) (message : string) (w : World) : World :=
  let '(guid, ok) := Tracker.guidFromContext ctx in
  let message := if ok then "GUID: " ++ guid ++ " - " ++ message else message in
  Println message w.

(** [Request], the decorator of outgoing requests. *)
Definition Request (req : Web.Request) : Web.Request :=
  let ctx := q_ctx req in
  let '(guid, ok) := Tracker.guidFromContext ctx in
  if ok then Request_Header_Add req X_GUID guid else req.

(** What [http.DefaultClient.Do] returns: an error, or a response whose
    body is nil or gives [io.ReadAll] a text and possibly an error. *)
Inductive do_result : Type :=
| DoErr (e : error)
| DoResp (body : option (string * option error)).

(** The outside of the service: whether [http.NewRequestWithContext]
    accepts a URL, how it parses its query, and the remote end. *)
Record Network : Type := mkNetwork {
  NewRequest : string -> option error;
  ParseQuery : string -> list (string * string);
  Do : Web.Request -> do_result
}.

Record LogicImpl : Type := mkLogicImpl {
  RequestDecorator : Web.Request -> Web.Request;
  Logger : Context -> string -> World -> World;
  Remote : string
}.

Definition Process (net : Network) (l : LogicImpl) (ctx : Context)
                   (data : string) (w : World)
  : (string * option error) * World :=
  let w1 := Logger l ctx ("starting Process with " ++ data) w in
  let url := Remote l ++ "/second?query=" ++ data in
  match NewRequest net url with
  | Some err =>
      (("", Some err),
       Logger l ctx ("error building remote request:" ++ Error err) w1)
  | None =>
      let req := mkRequest ctx url (ParseQuery net url) [] [] in
      let req := RequestDecorator l req in
      match Do net req with
      | DoErr err =>
          (("", Some err),
           Logger l ctx ("error building remote request:" ++ Error err) w1)
      | DoResp None =>
          (("", None), Logger l ctx "empty response from second" w1)
      | DoResp (Some (out, err)) => ((out, err), w1)
      end
  end.

(** [Controller.First] over a [Logic]. *)
Definition First
  (logic : Context -> string -> World -> (string * option error) * World)
  : Handler :=
  fun req w =>
    let ctx := q_ctx req in
    let data := Http.Query_Get (q_query req) "data" in
    let '((result, err), w1) := logic ctx data w in
    match err with
    | Some e => Write (Error e) (WriteHeader StatusInternalServerError w1)
    | None => Write result w1
    end.

(** The wiring of [main]: the tracker's decorator and logger, behind the
    tracker's middleware. *)
Definition wired : LogicImpl := mkLogicImpl Request Log "http://localhost:4000".

Definition first_route (fresh : string) (net : Network) : Handler :=
  Middleware fresh (First (Process net wired)).

(** The GUID the middleware settles on for a request, the URL [Process]
    calls and the request it hands to the network, under [first_route]. *)
Definition guid_of (fresh : string) (req : Web.Request) : string :=
  let incoming := Header_Get (q_header req) X_GUID in
  if String.eqb incoming "" then fresh else incoming.

Definition second_url (req : Web.Request) : string :=
  "http://localhost:4000/second?query=" ++ Http.Query_Get (q_query req) "data".

Definition outgoing (fresh : string) (net : Network) (req : Web.Request)
  : Web.Request :=
  mkRequest (Tracker.contextWithGUID (q_ctx req) (guid_of fresh req))
            (second_url req) (ParseQuery net (second_url req))
            [(X_GUID, guid_of fresh req)] [].

End TrackerApp.

(* ------------------------------------------------------------------------- *)
(** ** The random-sum exercise of the first [main] *)

Module RandomSum.

(** Go's [int] on a 64-bit platform: addition wraps. *)
Definition wrap (z : Z) : Z := ((z + 2 ^ 63) mod 2 ^ 64 - 2 ^ 63)%Z.

Record outcome : Type := mkOutcome { reason : string; i : Z; sum : Z }.

(** The loop, one entry of [env] per iteration: whether [context.Cause(ctx)]
    is non-nil when tested, and what [rand.IntN(100_000_000)] then returns.
    [None] when the entries run out with the loop still going. *)
Fixpoint loop (env : list (bool * Z)) (i sum v : Z) : option outcome :=
  if (v =? 1234)%Z then Some (mkOutcome "number reached" i sum)
  else
    match env with
    | [] => None
    | (timed_out, next) :: rest =>
        let sum := wrap (sum + v) in
        if timed_out then Some (mkOutcome "timeout" i sum)
        else loop rest (wrap (i + 1)) sum next
    end.

Definition exercise2 (env : list (bool * Z)) : option outcome := loop env 0 0 0.

(** The successive values of [v]. *)
Definition values (env : list (bool * Z)) : list Z := (0 :: map snd env)%Z.

Definition total (l : list Z) : Z := fold_right Z.add 0%Z l.

End RandomSum.

(* ------------------------------------------------------------------------- *)
(** ** More observations on the coordinator *)

Module CoordinatorMore.
Import GoContext Coordinator.

(** The channel queue and the blocked goroutines agree: a blocked worker is
    queued, and [main] blocks only on an empty queue. *)
Definition queue_agrees (s : state) : Prop :=
  (forall w, pc_of w s = WParked -> exists m, In (w, m) (sendq s)) /\
  (main_pc s = MParked -> sendq s = []).

(** A cause built by one of the workers. *)
Definition names_worker (c : error) : bool :=
  match c with
  | ErrorsNew msg => String.eqb msg "bad status"
  | Errorf prefix _ =>
      String.eqb prefix "in status goroutine: " || String.eqb prefix "in delay goroutine: "
  | _ => false
  end.

(** A message built by worker [w]. *)
Definition message_of (w : worker) (m : string) : Prop :=
  match w with
  | Status => m = "success from status"
  | Delay => exists date, m = "success from delay: " ++ date
  end.

Definition is_result_line (l : line) : bool :=
  match l with InMain _ => true | _ => false end.

Definition is_error_line (l : line) : bool :=
  match l with InDelayGoroutine _ => true | _ => false end.

(** Lines printed while [main] is in its loop: results and the delay
    worker's errors. *)
Definition loop_lines (ls : list line) : bool :=
  forallb (fun l => is_result_line l || is_error_line l) ls.

(** Lines printed between the two reports of the cause: the delay worker's
    errors only. *)
Definition error_lines (ls : list line) : bool := forallb is_error_line ls.

(** The shape of standard output, by where [main] stands. *)
Definition output_shape (s : state) : Prop :=
  match main_pc s with
  | MSelect | MParked | MGot _ | MDone => loop_lines (out s) = true
  | MWait | MFinal =>
      exists before after,
        out s = (before ++ InMainCancelled (Cause (tok s)) :: after)%list /\
        loop_lines before = true /\ error_lines after = true
  | MDefer | MExit =>
      exists before after,
        out s = (before ++ InMainCancelled (Cause (tok s)) :: after
                        ++ [ContextCause (Cause (tok s))])%list /\
        loop_lines before = true /\ error_lines after = true
  end.

(** Everything that carries a message carries one a worker built, and every
    cause about to be passed to [cancelFunc] names its worker. *)
Definition well_formed_payloads (s : state) : Prop :=
  (forall w m, pc_of w s = WSelect m -> message_of w m) /\
  (forall w m, In (w, m) (sendq s) -> message_of w m) /\
  (forall m, main_pc s = MGot m -> exists w, message_of w m) /\
  (forall m, In (InMain m) (out s) -> exists w, message_of w m) /\
  (forall w c, pc_of w s = WCancel c -> names_worker c = true) /\
  (forall c, Cause (tok s) = Some c -> names_worker c = true).

(** A worker that can go on by itself to a failing call and [cancelFunc]:
    it is not blocked, publishing, returning or done. *)
Definition drivable (p : wpc) : bool :=
  match p with
  | WCall | WInFlight _ | WCancel _ | WSleep => true
  | _ => false
  end.

End CoordinatorMore.

(* ------------------------------------------------------------------------- *)
(** * Properties *)

Import GoContext Coordinator.
#[local] Open Scope list_scope.

#[local] Arguments Z.add _ _ : simpl never.
#[local] Arguments Z.sub _ _ : simpl never.

Lemma cancel_cancelled c t : is_cancelled t = true -> cancel c t = t.
Proof. unfold is_cancelled, cancel. destruct (err t); congruence. Qed.

Lemma is_cancelled_cancel c t : is_cancelled (cancel c t) = true.
Proof. unfold is_cancelled, cancel. destruct (err t) eqn:E; simpl; [rewrite E|]; reflexivity. Qed.

Lemma cancel_all_snoc cs c t : cancel_all (cs ++ [c]) t = cancel c (cancel_all cs t).
Proof. unfold cancel_all. rewrite fold_left_app. reflexivity. Qed.

Lemma NoDup_enqueue (q : list (worker * string)) w msg :
  NoDup (map fst q) -> (forall m, ~ In (w, m) q) ->
  NoDup (map fst (q ++ [(w, msg)])).
Proof.
  intros Hnd Hnot. rewrite map_app. apply NoDup_app; auto.
  - simpl. constructor; [intros [] | constructor].
  - intros a Ha Hin. simpl in Hin. destruct Hin as [Hin|[]]. subst a.
    apply in_map_iff in Ha as [[w' m] [Hw Hin]]. simpl in Hw. subst w'.
    exact (Hnot m Hin).
Qed.

Lemma NoDup_dequeue (q : list (worker * string)) w m :
  NoDup (w :: map fst q) -> ~ In (w, m) q.
Proof.
  intros Hnd Hin. apply NoDup_cons_iff in Hnd as [Hnot _].
  apply Hnot. apply in_map_iff. now exists (w, m).
Qed.

Lemma Inv_init : Inv init.
Proof. constructor; simpl; try tauto; try discriminate; try reflexivity.
  - intros [|]; discriminate.
  - intros [|]; discriminate.
  - constructor.
Qed.



Ltac both H :=
  let H1 := fresh H "s" in let H2 := fresh H "d" in
  pose proof (H Status) as H1; pose proof (H Delay) as H2; simpl in H1, H2; clear H.

Ltac prep := unfold live_count, nobody_parked in *; simpl in *.

Ltac fin :=
  repeat match goal with
  | |- forall w : worker, _ => intros [|]
  | |- forall _, _ => intro
  | |- _ /\ _ => split
  | H : In _ (_ ++ _) |- _ => apply in_app_or in H; destruct H
  | H : In _ [_] |- _ => destruct H as [H|[]]
  | H : In _ [] |- _ => destruct H
  | H : In ?x ?o, Ho : forall c, In _ ?o -> _ |- _ => pose proof (Ho _ H); clear H
  | H : ?a = ?a -> _ |- _ => specialize (H eq_refl)
  | H : ?x = ?y, H' : ?x = ?y -> _ |- _ => specialize (H' H)
  | H : _ /\ _ |- _ => destruct H
  end; prep; try congruence; try lia; auto using NoDup_nil.


Lemma cancelFunc_tok c s :
  tok s = cancel_all (calls s) newCancelCtx ->
  tok (cancelFunc c s) = cancel_all (calls (cancelFunc c s)) newCancelCtx.
Proof.
  intros H. unfold cancelFunc. simpl.
  destruct (is_cancelled (tok s)); simpl; rewrite cancel_all_snoc, <- H; reflexivity.
Qed.


Ltac cancel_case t cs Htok Ec :=
  unfold cancelFunc; simpl;
  destruct (is_cancelled t) eqn:Ec; simpl;
  [ rewrite (cancel_cancelled _ _ Ec);
    constructor; prep; fin;
    try solve [rewrite cancel_all_snoc, <- Htok; now rewrite cancel_cancelled];
    try solve [destruct cs; simpl; auto; congruence]
  | let Et := fresh "Et" in
    match goal with
    | |- context[cancel ?c t] =>
        assert (Et : cancel c t =
                     mkCancelCtx (Some Canceled)
                       (Some (match c with Some e => e | None => Canceled end)))
          by (unfold cancel, is_cancelled in *; destruct (err t); congruence)
    end;
    constructor; prep; fin;
    try solve [rewrite cancel_all_snoc, <- Htok; reflexivity];
    try solve [destruct cs; simpl; auto; congruence];
    try solve [rewrite Et; reflexivity] ].

Lemma step_Inv l s s' : Inv s -> step l s = Some s' -> Inv s'.
Proof.
  intros [Htok Hfirst Hpark Hret Hdoom Hloop Hwg Hfinal Ho1 Ho2 Hq Hnd] Hs.
  destruct s as [t sp dp mp q n o cs].
  both Hret; both Hdoom; both Hq.
  destruct l as [w|w nr d|w|w|w b|w|b]; simpl in *.
  - destruct w; simpl in *.
    + destruct sp; try discriminate. injection Hs as <-. constructor; prep; fin.
      all: try (destruct (is_cancelled t); fin).
    + destruct dp; try discriminate. injection Hs as <-. constructor; prep; fin.
      all: try (destruct (is_cancelled t); fin).
  - destruct w; simpl in *.
    + destruct sp as [|dm| | | | | |]; try discriminate.
      destruct (makeRequest nr d) as [[code date]|e]; simpl in *;
        [destruct (code =? StatusInternalServerError)%Z|];
        destruct dm; simpl in *; try discriminate;
        injection Hs as <-; constructor; prep; fin.
    + destruct dp as [|dm| | | | | |]; try discriminate.
      destruct (makeRequest nr d) as [[code date]|e]; simpl in *;
        destruct dm; simpl in *; try discriminate;
        injection Hs as <-; constructor; prep; fin.
  - destruct w; simpl in *.
    + destruct sp; try discriminate. injection Hs as <-.
      cancel_case t cs Htok Ec.
      all: try solve [destruct dp; prep; fin].
      all: try solve [destruct dp, mp; prep; fin].
    + destruct dp; try discriminate. injection Hs as <-.
      cancel_case t cs Htok Ec.
      all: try solve [destruct sp; prep; fin].
      all: try solve [destruct sp, mp; prep; fin].
  - destruct w; simpl in *.
    + destruct sp; try discriminate. injection Hs as <-. constructor; prep; fin.
      all: try solve [destruct (stopped dp); prep; fin]. 
    + destruct dp; try discriminate. injection Hs as <-. constructor; prep; fin.
      all: try solve [destruct (stopped sp); prep; fin]. 
  - destruct w; simpl in *.
    + destruct sp; try discriminate. injection Hs as <-.
      unfold worker_select; simpl.
      destruct (is_cancelled t) eqn:Ec; destruct mp; try destruct b; simpl;
        constructor; prep; fin.
      all: try solve [destruct q, dp; prep; fin].
      all: try solve [apply NoDup_enqueue; auto; intros m Hm;
                      match goal with H : forall m, In _ _ -> _ |- _ =>
                        specialize (H _ Hm); discriminate end].
    + destruct dp; try discriminate. injection Hs as <-.
      unfold worker_select; simpl.
      destruct (is_cancelled t) eqn:Ec; destruct mp; try destruct b; simpl;
        constructor; prep; fin.
      all: try solve [destruct q, sp; prep; fin].
      all: try solve [apply NoDup_enqueue; auto; intros m Hm;
                      match goal with H : forall m, In _ _ -> _ |- _ =>
                        specialize (H _ Hm); discriminate end].
  - destruct w; simpl in *.
    + destruct sp; try discriminate. injection Hs as <-. constructor; prep; fin.
      all: try solve [destruct q, dp, mp; prep; fin].
    + destruct dp; try discriminate. injection Hs as <-. constructor; prep; fin.
      all: try solve [destruct q, sp, mp; prep; fin].
  - unfold main_step in Hs; simpl in Hs. destruct mp; try discriminate.
    + unfold main_select, main_recv in Hs; simpl in Hs.
      destruct (is_cancelled t) eqn:Ec; destruct q as [|[w m0] q']; try destruct b;
        try destruct w; simpl in Hs;
        repeat match type of Hs with
        | match ?p with _ => _ end = _ => destruct p; try discriminate
        end;
        injection Hs as <-; constructor; prep; fin.
      all: try solve [exfalso; eapply NoDup_dequeue; [exact Hnd | eassumption]].
      all: try solve [eauto].
      all: try solve [apply NoDup_cons_iff in Hnd; tauto].
    + injection Hs as <-; constructor; prep; fin.
    + injection Hs as <-; constructor; prep; fin.
    + destruct (n =? 0)%Z eqn:En; try discriminate. apply Z.eqb_eq in En.
      injection Hs as <-; constructor; prep; fin.
    + injection Hs as <-; constructor; prep; fin.
    + injection Hs as <-.
      assert (Hc : is_cancelled t = true) by auto.
      assert (Hcs : cs <> []).
      { intros ->. rewrite Htok in Hc. discriminate. }
      cancel_case t cs Htok Ec.
Qed.

Lemma run_Inv tr : forall s s', Inv s -> run tr s = Some s' -> Inv s'.
Proof.
  induction tr as [|l tr IH]; simpl; intros s s' HI Hr.
  - now injection Hr as <-.
  - destruct (step l s) as [s1|] eqn:Es; try discriminate.
    eapply IH; [eapply step_Inv; eauto | exact Hr].
Qed.

Lemma reachable_Inv s : reachable s -> Inv s.
Proof. intros [tr Hr]. eapply run_Inv; [apply Inv_init | exact Hr]. Qed.

(** ** Once cancelled, the token is frozen and nothing more is delivered *)

Lemma printed_results_app a b :
  printed_results (a ++ b) = printed_results a ++ printed_results b.
Proof.
  induction a as [|[m|c|e|c] a IH]; simpl; auto. now rewrite IH.
Qed.

Lemma cancelFunc_cancelled c s :
  is_cancelled (tok s) = true ->
  cancelFunc c s =
  mkState (tok s) (status_pc s) (delay_pc s) (main_pc s) (sendq s) (wg s) (out s)
          (calls s ++ [c]).
Proof.
  intros H. unfold cancelFunc. rewrite H, (cancel_cancelled _ _ H). reflexivity.
Qed.

Ltac step_cases Hs :=
  match type of Hs with
  | step ?l ?s = Some _ =>
      destruct s as [t sp dp mp q n o cs];
      destruct l as [w|w nr d|w|w|w b|w|b];
      unfold step, main_step, main_select, main_recv, worker_select in Hs;
      simpl in Hs;
      try (destruct w; simpl in Hs);
      repeat match type of Hs with
      | context[pc_of ?w _] => is_var w; destruct w; simpl in Hs
      | match ?p with _ => _ end = _ => destruct p eqn:?; simpl in Hs; try discriminate
      | (let '(_, _) := ?p in _) = _ => destruct p eqn:?; simpl in Hs
      | (if ?c then _ else _) = _ => destruct c eqn:?; simpl in Hs; try discriminate
      | Some (match ?p with _ => _ end) = _ => destruct p eqn:?; simpl in Hs
      | Some (if ?c then _ else _) = _ => destruct c eqn:?; simpl in Hs
      end;
      injection Hs as <-
  end.

Lemma step_tok_frozen l s s' :
  step l s = Some s' -> is_cancelled (tok s) = true -> tok s' = tok s.
Proof.
  intros Hs Hc. step_cases Hs; simpl in *; try reflexivity; try congruence.
  all: now apply cancel_cancelled.
Qed.

Lemma step_cancelled_mono l s s' :
  step l s = Some s' -> is_cancelled (tok s) = true -> is_cancelled (tok s') = true.
Proof. intros Hs Hc. now rewrite (step_tok_frozen _ _ _ Hs Hc). Qed.

Ltac on_result_cases :=
  repeat match goal with
  | H : status_on_result ?r = _ |- _ =>
      let E := fresh "Er" in
      unfold status_on_result in H; destruct r as [[? ?]|?] eqn:E;
      [ match type of H with context[if ?c then _ else _] => destruct c eqn:? end | ];
      injection H as <- <-
  | H : delay_on_result ?r = _ |- _ =>
      let E := fresh "Er" in
      unfold delay_on_result in H; destruct r as [[? ?]|?] eqn:E; injection H as <- <-
  end.

Lemma step_received_frozen l s s' :
  Inv s -> is_cancelled (tok s) = true -> step l s = Some s' ->
  received s' = received s.
Proof.
  intros HI Hc Hs. pose proof (inv_park _ HI Hc) as Hp. clear HI.
  step_cases Hs; on_result_cases; unfold received, nobody_parked in *; simpl in *;
    rewrite ?Hc; simpl;
    try congruence;
    rewrite ?printed_results_app; simpl; rewrite ?app_nil_r; try reflexivity.
  all: destruct q, mp; simpl in *; discriminate.
Qed.

Lemma run_frozen tr : forall s s',
  Inv s -> is_cancelled (tok s) = true -> run tr s = Some s' ->
  tok s' = tok s /\ received s' = received s.
Proof.
  induction tr as [|l tr IH]; simpl; intros s s' HI Hc Hr.
  - injection Hr as <-. auto.
  - destruct (step l s) as [s1|] eqn:Es; try discriminate.
    pose proof (step_tok_frozen _ _ _ Es Hc) as Ht.
    pose proof (step_received_frozen _ _ _ HI Hc Es) as Hrec.
    destruct (IH s1 s') as [H1 H2]; auto.
    + eapply step_Inv; eauto.
    + now rewrite Ht.
    + split; congruence.
Qed.

Lemma run_app tr1 : forall tr2 s,
  run (tr1 ++ tr2) s =
  match run tr1 s with Some s1 => run tr2 s1 | None => None end.
Proof.
  induction tr1 as [|l tr1 IH]; simpl; intros; auto.
  destruct (step l s); auto.
Qed.

(** C5 -- no result after cancellation.  In every execution, from the
    instant the token is cancelled on, the results the collector has
    received (printed or in hand) never change again: a worker whose publish
    begins after the cancellation, or is pending at that instant, is never
    delivered, whatever the scheduler and the [select] choices do, and the
    recorded cause stays what it was. *)
Theorem no_result_after_cancellation
  (tr tr' : list label) (s s' : state)
  (Hreach : run tr init = Some s)
  (Hcancelled : is_cancelled (tok s) = true)
  (Hlater : run tr' s = Some s') :
  received s' = received s /\
  printed_results (out s') = firstn (List.length (printed_results (out s'))) (received s) /\
  Cause (tok s') = Cause (tok s).
Proof.
  assert (HI : Inv s) by (apply reachable_Inv; now exists tr).
  destruct (run_frozen _ _ _ HI Hcancelled Hlater) as [Ht Hrec].
  split; [exact Hrec|]. split; [|now rewrite Ht].
  rewrite <- Hrec. unfold received.
  rewrite firstn_app, Nat.sub_diag, firstn_all. simpl. now rewrite app_nil_r.
Qed.

(** ** The token under a sequence of cancel calls *)

Lemma cancel_all_cancelled cs : forall t,
  is_cancelled t = true -> cancel_all cs t = t.
Proof.
  induction cs as [|c cs IH]; intros t Ht; simpl; auto.
  change (cancel_all cs (cancel c t) = t).
  rewrite (cancel_cancelled _ _ Ht). auto.
Qed.

Lemma history_head cs t : exists tl, history cs t = t :: tl.
Proof. destruct cs; simpl; eauto. Qed.

Lemma flips_cancelled cs : forall t,
  is_cancelled t = true -> flips (history cs t) = 0.
Proof.
  induction cs as [|c cs IH]; intros t Ht; simpl; auto.
  rewrite (cancel_cancelled _ _ Ht).
  specialize (IH t Ht). destruct (history_head cs t) as [tl E].
  rewrite E in *. rewrite Ht. simpl. exact IH.
Qed.

(** A first call with a non-nil cause flips the token once and records that
    cause; nothing a later call passes is recorded. *)
Lemma cancel_first_wins (e : error) (rest : list (option error)) :
  flips (history (Some e :: rest) newCancelCtx) = 1 /\
  cancel_all (Some e :: rest) newCancelCtx = mkCancelCtx (Some Canceled) (Some e).
Proof.
  split.
  - change (flips (newCancelCtx :: history rest (cancel (Some e) newCancelCtx)) = 1).
    assert (Hc : is_cancelled (cancel (Some e) newCancelCtx) = true) by reflexivity.
    pose proof (flips_cancelled rest _ Hc) as Hf.
    destruct (history_head rest (cancel (Some e) newCancelCtx)) as [tl E].
    rewrite E in *.
    change (flips (newCancelCtx :: cancel (Some e) newCancelCtx :: tl))
      with (1 + flips (cancel (Some e) newCancelCtx :: tl)).
    now rewrite Hf.
  - change (cancel_all rest (cancel (Some e) newCancelCtx) = mkCancelCtx (Some Canceled) (Some e)).
    now rewrite cancel_all_cancelled.
Qed.

(** A first call passing nil records [context.Canceled] as the cause. *)
Lemma cancel_nil_first (rest : list (option error)) :
  Cause (cancel_all (None :: rest) newCancelCtx) = Some Canceled.
Proof.
  change (Cause (cancel_all rest (cancel None newCancelCtx)) = Some Canceled).
  now rewrite cancel_all_cancelled.
Qed.

(** C1 -- first cause wins, cancellation is idempotent.  In every execution
    the token is the result of the cancel calls made so far, taken in order.
    With no call it is active and has no cause.  Otherwise the first call
    carries a non-nil cause, the token has gone from active to cancelled
    exactly once, [Cause] returns the cause of that first call, every later
    call among those made left the token as it was, and one more call,
    whatever cause it passes (nil included, as the deferred
    [cancelFunc(nil)] does), changes neither the state nor the cause. *)
Theorem first_cause_wins (tr : list label) (s : state)
  (Hreach : run tr init = Some s) :
  tok s = cancel_all (calls s) newCancelCtx /\
  (calls s = [] ->
     is_cancelled (tok s) = false /\ Cause (tok s) = None /\
     flips (history (calls s) newCancelCtx) = 0) /\
  (forall c rest, calls s = c :: rest ->
     c <> None /\
     is_cancelled (tok s) = true /\
     Cause (tok s) = c /\
     flips (history (calls s) newCancelCtx) = 1 /\
     (forall pre x post, rest = pre ++ x :: post ->
        cancel x (cancel_all (c :: pre) newCancelCtx)
        = cancel_all (c :: pre) newCancelCtx) /\
     (forall x, cancel x (tok s) = tok s /\
                tok (cancelFunc x s) = tok s /\
                flips (history (calls (cancelFunc x s)) newCancelCtx) = 1)).
Proof.
  assert (HI : Inv s) by (apply reachable_Inv; now exists tr).
  pose proof (inv_tok _ HI) as Ht. pose proof (inv_first _ HI) as Hf.
  split; [exact Ht|]. split.
  - intros E. rewrite Ht, E. repeat split; reflexivity.
  - intros c rest E. rewrite E in Hf. destruct c as [e|]; [|congruence].
    destruct (cancel_first_wins e rest) as [Hflip Hall].
    assert (Hc : is_cancelled (tok s) = true) by (now rewrite Ht, E, Hall).
    split; [discriminate|]. split; [exact Hc|].
    split; [now rewrite Ht, E, Hall|]. split; [now rewrite E|]. split.
    + intros pre x post _.
      destruct (cancel_first_wins e pre) as [_ Hpre]. now rewrite Hpre.
    + intros x. rewrite (cancelFunc_cancelled x s Hc). simpl.
      split; [now apply cancel_cancelled|]. split; [reflexivity|].
      rewrite E. simpl app. apply cancel_first_wins.
Qed.

(** C6 -- shutdown ordering.  In every execution, the cause printed by the
    collector when it observed cancellation and the cause printed at the end
    are the same value, which is the cause the token holds; and when the
    final line has been printed both workers have returned. *)
Theorem shutdown_cause_unchanged (tr : list label) (s : state)
  (c1 c2 : option error)
  (Hreach : run tr init = Some s)
  (Hcollector : In (InMainCancelled c1) (out s))
  (Hfinal : In (ContextCause c2) (out s)) :
  c1 = c2 /\ c2 = Cause (tok s) /\
  status_pc s = WStopped /\ delay_pc s = WStopped.
Proof.
  assert (HI : Inv s) by (apply reachable_Inv; now exists tr).
  destruct (inv_out1 _ HI _ Hcollector) as [_ E1].
  destruct (inv_out2 _ HI _ Hfinal) as [_ [E2 Hl]].
  unfold live_count in Hl.
  repeat split; try congruence.
  - destruct (status_pc s); simpl in Hl; try reflexivity;
      destruct (stopped (delay_pc s)); lia.
  - destruct (delay_pc s); simpl in Hl; try reflexivity;
      destruct (stopped (status_pc s)); lia.
Qed.

(** ** A worker whose outbound call always fails *)

Lemma step_first_iteration w l s s' :
  first_iteration (pc_of w s) = true ->
  fails_always w [l] = true ->
  step l s = Some s' ->
  first_iteration (pc_of w s') = true /\
  starts w [l] + begun (pc_of w s) = begun (pc_of w s').
Proof.
  intros Hf Ha Hs. unfold fails_always, starts in *.
  destruct w; step_cases Hs; on_result_cases; simpl in *; subst;
    simpl in *; try discriminate; try (split; reflexivity).
  all: try match goal with
       | E : makeRequest _ _ = _, H : context[makeRequest _ _] |- _ =>
           rewrite E in H; simpl in H; try discriminate
       end.
  all: try (destruct (is_cancelled t); simpl; split; reflexivity).
  all: try (split; [assumption|reflexivity]).
  all: try (destruct (is_cancelled t), sp; simpl in *; try discriminate; split; reflexivity).
  all: try (destruct (is_cancelled t), dp; simpl in *; try discriminate; split; reflexivity).
Qed.

Lemma fails_always_cons w l tr :
  fails_always w (l :: tr) = fails_always w [l] && fails_always w tr.
Proof. unfold fails_always. simpl. now rewrite andb_true_r. Qed.

Lemma starts_cons w l tr : starts w (l :: tr) = starts w [l] + starts w tr.
Proof.
  unfold starts. simpl.
  destruct (match l with LStart w' => worker_eqb w w' | _ => false end); reflexivity.
Qed.

Lemma run_first_iteration w tr : forall s s',
  first_iteration (pc_of w s) = true ->
  fails_always w tr = true ->
  run tr s = Some s' ->
  first_iteration (pc_of w s') = true /\
  starts w tr + begun (pc_of w s) = begun (pc_of w s').
Proof.
  induction tr as [|l tr IH]; intros s s' Hf Ha Hr.
  - injection Hr as <-. auto.
  - simpl in Hr. destruct (step l s) as [s1|] eqn:Es; try discriminate.
    rewrite fails_always_cons in Ha. apply andb_true_iff in Ha as [Ha1 Ha2].
    destruct (step_first_iteration w l s s1 Hf Ha1 Es) as [Hf1 Hb1].
    destruct (IH s1 s' Hf1 Ha2 Hr) as [Hf2 Hb2].
    split; auto. rewrite starts_cons. lia.
Qed.

(** A worker in its first iteration is never blocked: by its own steps, with
    the outbound call failing, it cancels and returns. *)
Lemma first_iteration_finishes w s :
  Inv s ->
  first_iteration (pc_of w s) = true ->
  exists tr' s',
    List.length tr' <= 4 /\ forallb (is_of w) tr' = true /\
    fails_always w tr' = true /\ starts w tr' + begun (pc_of w s) = 1 /\
    run tr' s = Some s' /\ pc_of w s' = WStopped /\
    is_cancelled (tok s') = true.
Proof.
  intros HI Hf. pose proof (inv_ret _ HI w) as Hret. clear HI.
  destruct s as [t sp dp mp q n o cs].
  destruct w; simpl in Hf, Hret |- *.
  - destruct sp as [|dm|c| | | | |]; try discriminate.
    + exists [LStart Status; LFinish Status None (Err (Transport "boom"));
              LCancel Status; LReturn Status].
      eexists. simpl. rewrite andb_false_r. simpl.
      repeat split; try reflexivity; try lia. apply is_cancelled_cancel.
    + exists [LFinish Status None (Err (Transport "boom")); LCancel Status; LReturn Status].
      eexists. simpl. rewrite andb_false_r. simpl.
      repeat split; try reflexivity; try lia. apply is_cancelled_cancel.
    + exists [LCancel Status; LReturn Status].
      eexists. simpl.
      repeat split; try reflexivity; try lia. apply is_cancelled_cancel.
    + exists [LReturn Status]. eexists. simpl.
      repeat split; try reflexivity; try lia. auto.
    + exists []. eexists. simpl.
      repeat split; try reflexivity; try lia. auto.
  - destruct dp as [|dm|c| | | | |]; try discriminate.
    + exists [LStart Delay; LFinish Delay None (Err (Transport "boom"));
              LCancel Delay; LReturn Delay].
      eexists. simpl. rewrite andb_false_r. simpl.
      repeat split; try reflexivity; try lia. apply is_cancelled_cancel.
    + exists [LFinish Delay None (Err (Transport "boom")); LCancel Delay; LReturn Delay].
      eexists. simpl. rewrite andb_false_r. simpl.
      repeat split; try reflexivity; try lia. apply is_cancelled_cancel.
    + exists [LCancel Delay; LReturn Delay].
      eexists. simpl.
      repeat split; try reflexivity; try lia. apply is_cancelled_cancel.
    + exists [LReturn Delay]. eexists. simpl.
      repeat split; try reflexivity; try lia. auto.
    + exists []. eexists. simpl.
      repeat split; try reflexivity; try lia. auto.
Qed.

(** C7 -- liveness on failure.  In every execution in which all the outbound
    calls of a worker that complete have failed, the worker has begun at most
    one iteration and has never reached the publish or the sleep that ends
    an iteration; once it is at its [return] the token is cancelled; and
    from the state reached, the worker alone, in at most four steps of its
    own (call, failing answer, [cancelFunc], [return]) and still within that
    one iteration, ends returned with the token cancelled. *)
Theorem failing_worker_cancels_in_one_iteration
  (w : worker) (tr : list label) (s : state)
  (Hreach : run tr init = Some s)
  (Hfails : fails_always w tr = true) :
  starts w tr <= 1 /\
  first_iteration (pc_of w s) = true /\
  (returned (pc_of w s) = true -> is_cancelled (tok s) = true) /\
  exists tr' s',
    List.length tr' <= 4 /\ forallb (is_of w) tr' = true /\
    fails_always w tr' = true /\ starts w (tr ++ tr') = 1 /\
    run (tr ++ tr') init = Some s' /\
    pc_of w s' = WStopped /\ is_cancelled (tok s') = true.
Proof.
  assert (HI : Inv s) by (apply reachable_Inv; now exists tr).
  assert (H0 : first_iteration (pc_of w init) = true) by (destruct w; reflexivity).
  destruct (run_first_iteration w tr init s H0 Hfails Hreach) as [Hf Hb].
  assert (Hb0 : begun (pc_of w init) = 0) by (destruct w; reflexivity).
  rewrite Hb0, Nat.add_0_r in Hb.
  split; [|split; [exact Hf|split; [apply (inv_ret _ HI)|]]].
  - rewrite Hb. destruct (pc_of w s); simpl; lia.
  - destruct (first_iteration_finishes w s HI Hf)
      as (tr' & s' & Hlen & Hof & Hfa & Hst & Hrun & Hpc & Hc).
    exists tr', s'. repeat split; auto.
    + unfold starts in *. rewrite filter_app, length_app. lia.
    + rewrite run_app, Hreach. exact Hrun.
Qed.

(** ** The collector *)

Lemma step_past_loop l s s' :
  in_loop (main_pc s) = false -> step l s = Some s' ->
  in_loop (main_pc s') = false /\
  printed_results (out s') = printed_results (out s).
Proof.
  intros Hl Hs.
  step_cases Hs; on_result_cases; simpl in *; subst; simpl in *;
    try discriminate; rewrite ?printed_results_app; simpl; rewrite ?app_nil_r;
    auto.
  all: destruct (is_cancelled t); simpl; auto; destruct mp; simpl in *; auto; discriminate.
Qed.

Lemma run_past_loop tr : forall s s',
  in_loop (main_pc s) = false -> run tr s = Some s' ->
  in_loop (main_pc s') = false /\
  printed_results (out s') = printed_results (out s).
Proof.
  induction tr as [|l tr IH]; simpl; intros s s' Hl Hr.
  - injection Hr as <-. auto.
  - destruct (step l s) as [s1|] eqn:Es; try discriminate.
    destruct (step_past_loop _ _ _ Hl Es) as [Hl1 Hp1].
    destruct (IH _ _ Hl1 Hr) as [Hl2 Hp2]. split; congruence.
Qed.

Lemma step_main_parked l s s' :
  main_pc s = MParked -> step l s = Some s' ->
  (main_pc s' = MParked /\ out s' = out s \/ main_pc s' = MParked /\ exists e, out s' = out s ++ [InDelayGoroutine e]) \/
  (exists m, main_pc s' = MGot m /\ out s' = out s) \/
  (main_pc s' = MDone /\ is_cancelled (tok s') = true /\ out s' = out s).
Proof.
  intros Hm Hs.
  step_cases Hs; on_result_cases; simpl in *; subst; simpl in *;
    try discriminate; rewrite ?app_nil_r; eauto 6.
  all: destruct (is_cancelled t) eqn:Ec; simpl; rewrite ?is_cancelled_cancel; eauto 6.
  all: right; right; repeat split; auto; unfold cancel, is_cancelled in *;
       destruct (err t); simpl; congruence.
Qed.

(** C8 -- the collector.  In every execution: at the [select] of its loop
    [main] either blocks (no sender queued, token active), or takes the
    message of the oldest queued sender, or, the token being cancelled, takes
    the Done branch, and prints nothing in doing so; blocked, it can only be
    released with a message or by the cancellation; holding a message it
    prints [in main: m] and is back at the [select]; on the Done branch it
    prints the recorded cause and leaves the loop; and once out of the loop
    it is never in it again and prints no further result. *)
Theorem collector_loop (tr : list label) (s : state) (b : bool)
  (Hreach : run tr init = Some s) :
  (main_pc s = MSelect ->
     exists s', step (LMain b) s = Some s' /\ out s' = out s /\
       (main_pc s' = MParked /\ sendq s = [] /\ is_cancelled (tok s) = false
        \/ (exists w m q, sendq s = (w, m) :: q /\ main_pc s' = MGot m
                          /\ is_cancelled (tok s) = false)
        \/ main_pc s' = MDone /\ is_cancelled (tok s) = true)) /\
  (main_pc s = MParked ->
     step (LMain b) s = None /\
     forall l s', step l s = Some s' ->
       main_pc s' = MParked \/ (exists m, main_pc s' = MGot m)
       \/ main_pc s' = MDone /\ is_cancelled (tok s') = true) /\
  (forall m, main_pc s = MGot m ->
     step (LMain b) s
     = Some (mkState (tok s) (status_pc s) (delay_pc s) MSelect (sendq s) (wg s)
                     (out s ++ [InMain m]) (calls s)) /\
     exists s', step (LMain b) s = Some s' /\
       out s' = out s ++ [InMain m] /\
       map render (out s') = map render (out s) ++ [("in main: " ++ m)%string] /\
       main_pc s' = MSelect /\ in_loop (main_pc s') = true) /\
  (main_pc s = MDone ->
     step (LMain b) s
     = Some (mkState (tok s) (status_pc s) (delay_pc s) MWait (sendq s) (wg s)
                     (out s ++ [InMainCancelled (Cause (tok s))]) (calls s)) /\
     exists s', step (LMain b) s = Some s' /\
       out s' = out s ++ [InMainCancelled (Cause (tok s))] /\
       map render (out s')
       = map render (out s)
         ++ [("in main: cancelled! " ++ show_error (Cause (tok s)))%string] /\
       main_pc s' = MWait /\ in_loop (main_pc s') = false /\
       is_cancelled (tok s) = true /\ Cause (tok s) <> None) /\
  (in_loop (main_pc s) = false ->
     forall tr' s', run tr' s = Some s' ->
       in_loop (main_pc s') = false /\
       printed_results (out s') = printed_results (out s)).
Proof.
  assert (HI : Inv s) by (apply reachable_Inv; now exists tr).
  split; [|split; [|split; [|split]]].
  - intros Hm. pose proof (inv_park _ HI) as Hp. pose proof (inv_queue _ HI) as Hq.
    destruct s as [t sp dp mp q n o cs]. simpl in *. subst mp.
    unfold main_step, main_select, main_recv, nobody_parked in *. simpl in *.
    destruct (is_cancelled t) eqn:Ec.
    + specialize (Hp eq_refl). destruct q; simpl in Hp; try discriminate.
      eexists. split; [reflexivity|]. simpl. auto.
    + destruct q as [|[w m] q'].
      * eexists. split; [reflexivity|]. simpl. auto.
      * rewrite (Hq w m (or_introl eq_refl)).
        eexists. split; [reflexivity|]. split.
        -- destruct w; reflexivity.
        -- right; left. exists w, m, q'. destruct w; auto.
  - intros Hm. split.
    + simpl. unfold main_step. now rewrite Hm.
    + intros l s' Hs.
      destruct (step_main_parked _ _ _ Hm Hs) as [[[H _]|[H _]]|[[m [H _]]|[H [Hc _]]]]; eauto.
  - intros m Hm. simpl. unfold main_step. rewrite Hm.
    split; [reflexivity|]. eexists. split; [reflexivity|]. simpl.
    rewrite map_app. auto.
  - intros Hm. simpl. unfold main_step. rewrite Hm.
    assert (Hc : is_cancelled (tok s) = true).
    { apply (inv_loop _ HI). now rewrite Hm. }
    assert (Hcause : Cause (tok s) <> None).
    { pose proof (inv_tok _ HI) as Ht. pose proof (inv_first _ HI) as Hf.
      destruct (calls s) as [|[e|] rest].
      - rewrite Ht in Hc. discriminate.
      - destruct (cancel_first_wins e rest) as [_ Hall].
        rewrite Ht, Hall. discriminate.
      - congruence. }
    split; [reflexivity|]. eexists. split; [reflexivity|]. simpl.
    rewrite map_app. repeat split; auto.
  - intros Hl tr' s' Hr. exact (run_past_loop _ _ _ Hl Hr).
Qed.

(** ** Failures *)

Lemma step_stopping w c l s s' :
  stopping w c s -> step l s = Some s' ->
  stopping w c s' /\ starts w [l] = 0.
Proof.
  unfold stopping, starts. intros Hst Hs.
  destruct w; step_cases Hs; on_result_cases; simpl in *; subst; simpl in *.
  all: try (destruct (is_cancelled t) eqn:?; simpl in *).
  all: rewrite ?is_cancelled_cancel.
  all: try (destruct Hst as [Hst|[Hr [Hin Hc]]];
            [ try discriminate; try (injection Hst as <-)
            | try discriminate ]).
  all: try solve [split; [left; reflexivity | reflexivity]].
  all: try solve [split; [left; assumption | reflexivity]].
  all: try solve [split; [right; repeat split; auto using in_or_app, in_eq with datatypes
                         | reflexivity]].
  all: subst; simpl; split; [left; reflexivity | reflexivity].
Qed.

Lemma run_stopping w c tr : forall s s',
  stopping w c s -> run tr s = Some s' ->
  stopping w c s' /\ starts w tr = 0.
Proof.
  induction tr as [|l tr IH]; simpl; intros s s' Hst Hr.
  - injection Hr as <-. auto.
  - destruct (step l s) as [s1|] eqn:Es; try discriminate.
    destruct (step_stopping _ _ _ _ _ Hst Es) as [Hst1 H0].
    destruct (IH _ _ Hst1 Hr) as [Hst2 H1].
    split; auto. rewrite starts_cons. lia.
Qed.

(** What each goroutine does with a failure. *)
Lemma on_result_failure w r :
  is_err r = true \/ (w = Status /\ is_failure r = true) ->
  exists c, on_result w r = (if is_err r && cfg_prints_error (cfg_of w)
                             then match r with Err e => [InDelayGoroutine e] | _ => [] end
                             else [], WCancel c) /\
    (match r with
     | Err e => c = Errorf ("in " ++ cfg_name (cfg_of w) ++ " goroutine: ") e
     | Ok _ => c = ErrorsNew "bad status"
     end).
Proof.
  intros [H|[-> H]].
  - destruct r as [[code date]|e]; try discriminate. destruct w; simpl; eauto.
  - destruct r as [[code date]|e]; simpl in *.
    + rewrite H. eauto.
    + eauto.
Qed.


Lemma pc_of_set_pc w p s : pc_of w (set_pc w p s) = p.
Proof. destruct w; reflexivity. Qed.

Lemma step_LFinish_inv w nr d s s1 :
  step (LFinish w nr d) s = Some s1 ->
  exists doomed,
    pc_of w s = WInFlight doomed /\
    doomed && negb (is_err (makeRequest nr d)) = false /\
    s1 = set_pc w (snd (on_result w (makeRequest nr d)))
                (println (fst (on_result w (makeRequest nr d))) s).
Proof.
  simpl. destruct (pc_of w s) as [|dm| | | | | |]; try discriminate.
  destruct (dm && negb (is_err (makeRequest nr d))) eqn:E; try discriminate.
  destruct (on_result w (makeRequest nr d)) as [ls p].
  intros H; injection H as <-. eauto.
Qed.

Lemma only_cancel_from_WCancel w c l s s2 :
  pc_of w s = WCancel c -> is_of w l = true -> step l s = Some s2 ->
  l = LCancel w /\ s2 = set_pc w WReturn (cancelFunc (Some c) s).
Proof.
  intros Hpc Hof Hs. unfold is_of in Hof.
  destruct l as [w'|w' nr d|w'|w'|w' b|w'|b]; simpl in Hof; try discriminate;
    destruct w, w'; simpl in Hof; try discriminate; simpl in Hs, Hpc;
    rewrite Hpc in Hs; try discriminate; injection Hs as <-; auto.
Qed.

(** C3, as the code has it -- a transport failure is fatal for either
    worker, HTTP 500 for the status worker only.  In every execution, when
    the outbound call of a worker returns an error, or that of the status
    worker returns HTTP 500, the worker is next at [cancelFunc(c)] with [c]
    the error wrapped under the worker's own prefix (or [bad status]) and
    the token still untouched; its only possible step is that call, which
    records [c] as the cause when the token was still active, and then the
    [return]; and in every continuation the worker begins no further
    iteration and either still stands at that call or has made it and is
    returning or returned, with [c] among the causes passed to the token. *)
Theorem failure_cancels_then_returns
  (tr : list label) (s s1 : state) (w : worker)
  (nr : option error) (d : result)
  (Hreach : run tr init = Some s)
  (Hstep : step (LFinish w nr d) s = Some s1)
  (Hfail : is_err (makeRequest nr d) = true \/
           (w = Status /\ is_failure (makeRequest nr d) = true)) :
  exists c,
    pc_of w s1 = WCancel c /\
    match makeRequest nr d with
    | Err e => c = Errorf ("in " ++ cfg_name (cfg_of w) ++ " goroutine: ") e
    | Ok _ => c = ErrorsNew "bad status"
    end /\
    tok s1 = tok s /\
    (forall l s2, is_of w l = true -> step l s1 = Some s2 ->
       l = LCancel w /\ s2 = set_pc w WReturn (cancelFunc (Some c) s1)) /\
    (exists s2 s3,
       step (LCancel w) s1 = Some s2 /\ pc_of w s2 = WReturn /\
       In (Some c) (calls s2) /\ is_cancelled (tok s2) = true /\
       (is_cancelled (tok s1) = false -> Cause (tok s2) = Some c) /\
       step (LReturn w) s2 = Some s3 /\ pc_of w s3 = WStopped) /\
    (forall tr' s2, run tr' s1 = Some s2 ->
       starts w tr' = 0 /\ stopping w c s2).
Proof.
  destruct (step_LFinish_inv _ _ _ _ _ Hstep) as (dm & Hpc & Hd & ->).
  destruct (on_result_failure w _ Hfail) as (c & Hon & Hc).
  rewrite Hon. simpl fst. simpl snd.
  exists c. rewrite pc_of_set_pc.
  split; [reflexivity|]. split; [exact Hc|]. split; [destruct w; reflexivity|].
  split; [|split].
  - intros l s2. apply only_cancel_from_WCancel. apply pc_of_set_pc.
  - simpl. rewrite pc_of_set_pc. eexists. eexists.
    split; [reflexivity|]. rewrite !pc_of_set_pc.
    split; [reflexivity|]. split; [|split; [|split; [|split; [reflexivity|reflexivity]]]].
    + destruct w; simpl; destruct (is_cancelled (tok s)); simpl;
        apply in_or_app; right; left; reflexivity.
    + destruct w; simpl; apply is_cancelled_cancel.
    + destruct w; simpl; unfold is_cancelled, cancel, Cause;
        destruct (err (tok s)); simpl; congruence.
  - intros tr' s2 Hr.
    destruct (run_stopping w c tr' _ s2 (or_introl (pc_of_set_pc w _ _)) Hr)
      as [H1 H2]; auto.
Qed.

(** The delay goroutine does not look at the status code: on HTTP 500 it
    goes on to publish. *)
Lemma delay_worker_ignores_500 : ~ every_worker_cancels_on_failure.
Proof.
  intros H.
  destruct (H [LMain false; LStart Delay] _ _ Delay None (Ok (Resp 500 "Fri"))
              eq_refl eq_refl eq_refl) as [c Hc].
  discriminate Hc.
Qed.

(** In the schedule [delay_receives_500] the message built from the 500
    response is printed by [main] and the token stays active. *)
Example delay_receives_500_outcome :
  exists s, run delay_receives_500 init = Some s /\
            map render (out s) = ["in main: success from delay: Fri"%string] /\
            is_cancelled (tok s) = false /\ calls s = [].
Proof. eexists. split; [reflexivity|]. simpl. repeat split; reflexivity. Qed.

(** ** The two loops *)

(** On HTTP 500 the status loop is fatal and the delay loop publishes. *)
Lemma loops_differ_on_500 : ~ loops_equal_up_to_target_and_interval.
Proof.
  intros H. specialize (H Delay (Ok (Resp 500 "Fri"))). discriminate H.
Qed.

(** C4, as the code has it -- the two loops are one loop up to five
    parameters.  Each goroutine's reaction to the answer of its outbound call
    is [worker_body] at its configuration (name in the cause, whether HTTP
    500 is fatal, whether the transport error is printed, the message,
    whether it sleeps), and what follows its [select] is
    [worker_after_select] at that configuration.  Against the worker of the
    specification: both treat a transport failure as fatal and publish any
    answer other than HTTP 500; on HTTP 500 the status loop is fatal and the
    delay loop publishes. *)
Theorem loops_equal_up_to_configuration :
  (forall w r, on_result w r = worker_body (cfg_of w) r) /\
  (forall w, after_select w = worker_after_select (cfg_of w)) /\
  (forall w r,
     reaction_of (on_result w r)
     = if worker_eqb w Delay && negb (is_err r) && is_failure r
       then Publish
       else spec_reaction (target w) (interval w) r).
Proof.
  split; [|split].
  - intros [|] [[code date]|e]; reflexivity.
  - intros [|]; reflexivity.
  - intros [|] [[code date]|e]; simpl; try reflexivity.
    + unfold reaction_of. destruct (code =? StatusInternalServerError)%Z; reflexivity.
    + destruct (code =? StatusInternalServerError)%Z; reflexivity.
Qed.

(** ** A publish that loses the race *)

Lemma quiet_cons w l tr : quiet w (l :: tr) = quiet w [l] && quiet w tr.
Proof. unfold quiet. simpl. now rewrite andb_true_r. Qed.

(** The only way to the [return] is through [cancelFunc]. *)
Lemma step_quiet w l s s' :
  quiet w [l] = true -> returned (pc_of w s) = false ->
  step l s = Some s' -> returned (pc_of w s') = false.
Proof.
  unfold quiet. intros Hq Hr Hs.
  destruct w; step_cases Hs; on_result_cases; simpl in *; subst; simpl in *;
    try discriminate; auto.
  all: try (destruct (is_cancelled t); simpl; auto).
  all: try (destruct sp; simpl in *; auto; discriminate).
  all: try (destruct dp; simpl in *; auto; discriminate).
Qed.

Lemma run_quiet w tr : forall s s',
  quiet w tr = true -> returned (pc_of w s) = false ->
  run tr s = Some s' -> returned (pc_of w s') = false.
Proof.
  induction tr as [|l tr IH]; simpl; intros s s' Hq Hr Hrun.
  - now injection Hrun as <-.
  - destruct (step l s) as [s1|] eqn:Es; try discriminate.
    change (quiet w (l :: tr) = true) in Hq.
    rewrite quiet_cons in Hq. apply andb_true_iff in Hq as [Hq1 Hq2].
    apply (IH s1 s' Hq2); [eapply step_quiet; eauto | exact Hrun].
Qed.

Lemma step_winding_down w l s s' :
  is_cancelled (tok s) = true -> nobody_parked s = true ->
  winding_down (pc_of w s) = true ->
  step l s = Some s' -> winding_down (pc_of w s') = true.
Proof.
  intros Hc Hp Hw Hs. unfold nobody_parked in Hp.
  destruct w; step_cases Hs; on_result_cases; simpl in *; subst; simpl in *;
    try discriminate; auto.
  all: try match goal with
       | E : makeRequest _ _ = _, H : context[makeRequest _ _] |- _ =>
           rewrite E in H; simpl in H; try discriminate
       end.
  all: try (rewrite Hc; simpl; auto).
  all: try (destruct doomed; simpl in *; discriminate).
Qed.

Lemma run_winding_down w tr : forall s s',
  Inv s -> is_cancelled (tok s) = true ->
  winding_down (pc_of w s) = true ->
  run tr s = Some s' -> winding_down (pc_of w s') = true.
Proof.
  induction tr as [|l tr IH]; simpl; intros s s' HI Hc Hw Hr.
  - now injection Hr as <-.
  - destruct (step l s) as [s1|] eqn:Es; try discriminate.
    apply (IH s1 s'); auto.
    + eapply step_Inv; eauto.
    + eapply step_cancelled_mono; eauto.
    + eapply step_winding_down; eauto. apply (inv_park _ HI Hc).
Qed.

(** Past a lost publish the worker, by its own steps, runs into a failing
    outbound call, calls [cancelFunc] and returns; the token is not
    touched. *)
Lemma winding_down_finishes w s :
  is_cancelled (tok s) = true -> winding_down (pc_of w s) = true ->
  exists tr' s',
    List.length tr' <= 5 /\ forallb (is_of w) tr' = true /\
    run tr' s = Some s' /\ pc_of w s' = WStopped /\ tok s' = tok s.
Proof.
  intros Hc Hw. destruct s as [t sp dp mp q n o cs]. simpl in Hc.
  destruct w; simpl in Hw |- *.
  - destruct sp as [|[|]|c| | | | |]; try discriminate.
    + exists [LStart Status; LFinish Status None (Err Canceled); LCancel Status; LReturn Status].
      eexists. simpl. rewrite Hc. simpl. rewrite Hc. simpl.
      repeat split; try reflexivity; try lia. now apply cancel_cancelled.
    + exists [LFinish Status None (Err Canceled); LCancel Status; LReturn Status].
      eexists. simpl. rewrite Hc. simpl.
      repeat split; try reflexivity; try lia. now apply cancel_cancelled.
    + exists [LCancel Status; LReturn Status].
      eexists. simpl. rewrite Hc. simpl.
      repeat split; try reflexivity; try lia. now apply cancel_cancelled.
    + exists [LReturn Status]. eexists. simpl.
      repeat split; try reflexivity; try lia.
    + exists [LWake Status; LStart Status; LFinish Status None (Err Canceled);
              LCancel Status; LReturn Status].
      eexists. simpl. rewrite Hc. simpl. rewrite Hc. simpl.
      repeat split; try reflexivity; try lia. now apply cancel_cancelled.
    + exists []. eexists. simpl. repeat split; try reflexivity; try lia.
  - destruct dp as [|[|]|c| | | | |]; try discriminate.
    + exists [LStart Delay; LFinish Delay None (Err Canceled); LCancel Delay; LReturn Delay].
      eexists. simpl. rewrite Hc. simpl. rewrite Hc. simpl.
      repeat split; try reflexivity; try lia. now apply cancel_cancelled.
    + exists [LFinish Delay None (Err Canceled); LCancel Delay; LReturn Delay].
      eexists. simpl. rewrite Hc. simpl.
      repeat split; try reflexivity; try lia. now apply cancel_cancelled.
    + exists [LCancel Delay; LReturn Delay].
      eexists. simpl. rewrite Hc. simpl.
      repeat split; try reflexivity; try lia. now apply cancel_cancelled.
    + exists [LReturn Delay]. eexists. simpl.
      repeat split; try reflexivity; try lia.
    + exists [LWake Delay; LStart Delay; LFinish Delay None (Err Canceled);
              LCancel Delay; LReturn Delay].
      eexists. simpl. rewrite Hc. simpl. rewrite Hc. simpl.
      repeat split; try reflexivity; try lia. now apply cancel_cancelled.
    + exists []. eexists. simpl. repeat split; try reflexivity; try lia.
Qed.

(** A worker blocked in its [select] when the token gets cancelled is
    released past the [select] by that very step, its message undelivered. *)
Lemma step_releases_parked w l s s' :
  pc_of w s = WParked -> is_cancelled (tok s) = false ->
  step l s = Some s' -> is_cancelled (tok s') = true ->
  pc_of w s' = after_select w /\ received s' = received s /\ sendq s' = [].
Proof.
  intros Hp Hc Hs Hc'. unfold received.
  destruct w; step_cases Hs; on_result_cases; simpl in *; subst; simpl in *;
    try congruence.
  all: rewrite Hc in *; simpl; auto.
  all: destruct mp; simpl; auto.
Qed.

(** After losing the race the worker is not Stopped, and it cannot get
    there without an error of its own. *)
Lemma dropped_publish_goes_on : ~ dropped_publish_stops_without_error.
Proof.
  intros H.
  destruct (H status_selects_after_cancel _ _ Status "success from status"%string
              false eq_refl eq_refl eq_refl eq_refl)
    as [_ (tr' & s2 & Hq & Hr & Hpc)].
  pose proof (fun Hn => run_quiet Status tr' _ s2 Hq Hn Hr) as Hnot.
  specialize (Hnot eq_refl).
  rewrite Hpc in Hnot. discriminate.
Qed.

(** C2, as the code has it -- a publish that loses the race is dropped, and
    the worker stops at its next outbound call.  In every execution, in a
    state where the token is cancelled: no worker is blocked in its
    [select] (one that was blocked when the cancelling step ran was released
    past its [select] by that step, undelivered); a worker at its [select]
    takes the Done branch whatever the choice, which moves it past the
    [select] and changes nothing else, so its result is dropped; from there
    on, in every continuation, it never publishes again, the token and the
    results received stay as they are, and it does not reach its [return]
    unless it calls [cancelFunc] itself; and by at most five steps of its own
    (sleep, call, failing answer, [cancelFunc], [return]) it returns, the
    recorded cause untouched. *)
Theorem dropped_publish_then_failing_call
  (tr : list label) (s : state) (w : worker)
  (Hreach : run tr init = Some s)
  (Hcancelled : is_cancelled (tok s) = true) :
  pc_of w s <> WParked /\
  (forall s0 l, step l s0 = Some s -> pc_of w s0 = WParked ->
     is_cancelled (tok s0) = false ->
     pc_of w s = after_select w /\ received s = received s0) /\
  (forall m b, pc_of w s = WSelect m ->
     step (LSelect w b) s = Some (set_pc w (after_select w) s) /\
     winding_down (after_select w) = true) /\
  (winding_down (pc_of w s) = true ->
     (forall tr' s', run tr' s = Some s' ->
        winding_down (pc_of w s') = true /\
        tok s' = tok s /\ received s' = received s /\
        (returned (pc_of w s) = false -> quiet w tr' = true ->
         returned (pc_of w s') = false)) /\
     exists tr' s',
       List.length tr' <= 5 /\ forallb (is_of w) tr' = true /\
       run tr' s = Some s' /\ pc_of w s' = WStopped /\ tok s' = tok s).
Proof.
  assert (HI : Inv s) by (apply reachable_Inv; now exists tr).
  pose proof (inv_park _ HI Hcancelled) as Hp.
  split; [|split; [|split]].
  - unfold nobody_parked in Hp. intros E.
    destruct w; simpl in E; rewrite E in Hp; simpl in Hp;
      rewrite ?andb_false_r in Hp; discriminate.
  - intros s0 l Hs Hpk Hc0.
    destruct (step_releases_parked w l s0 s Hpk Hc0 Hs Hcancelled) as (H1 & H2 & _).
    auto.
  - intros m b Hm. split; [|destruct w; reflexivity].
    simpl. rewrite Hm. f_equal. unfold worker_select. rewrite Hcancelled.
    unfold nobody_parked in Hp.
    destruct (main_pc s); try reflexivity.
    destruct (sendq s); simpl in Hp; discriminate.
  - intros Hw. split.
    + intros tr' s' Hr.
      destruct (run_frozen _ _ _ HI Hcancelled Hr) as [Ht Hrec].
      repeat split; auto.
      * eapply run_winding_down; eauto.
      * intros Hnr Hq. eapply run_quiet; eauto.
    + apply winding_down_finishes; auto.
Qed.

(* ------------------------------------------------------------------------- *)
(** * Context values and the timeout middleware *)

Lemma key_eqb_refl k : key_eqb k k = true.
Proof. unfold key_eqb. now rewrite String.eqb_refl, Z.eqb_refl. Qed.

(** The innermost binding wins, whatever the parent holds. *)
Lemma Value_WithValue ctx k v : Value (WithValue ctx k v) k = Some v.
Proof. simpl. now rewrite key_eqb_refl. Qed.

(** The keys of the three packages are of different types: a value stored
    by one package is invisible to the lookups of the others. *)
Lemma packages_do_not_collide ctx l g u :
  Exercises.LogLevelFromContext (Identity.ContextWithUser ctx u)
  = Exercises.LogLevelFromContext ctx /\
  Tracker.guidFromContext (Exercises.ContextWithLogLevel ctx l)
  = Tracker.guidFromContext ctx /\
  Identity.UserFromContext (Tracker.contextWithGUID ctx g)
  = Identity.UserFromContext ctx.
Proof. repeat split. Qed.

(** C9 -- extract after store.  For every parent context and every value,
    reading the log level, the GUID or the user back from the context that
    has just been derived to hold it returns that value with [ok = true]. *)
Theorem extract_after_store (ctx : Context) :
  (forall l, Exercises.LogLevelFromContext (Exercises.ContextWithLogLevel ctx l)
             = (l, true)) /\
  (forall g, Tracker.guidFromContext (Tracker.contextWithGUID ctx g) = (g, true)) /\
  (forall u, Identity.UserFromContext (Identity.ContextWithUser ctx u) = (u, true)).
Proof.
  split; [|split]; intros x.
  - unfold Exercises.LogLevelFromContext, Exercises.ContextWithLogLevel.
    now rewrite Value_WithValue.
  - unfold Tracker.guidFromContext, Tracker.contextWithGUID.
    now rewrite Value_WithValue.
  - unfold Identity.UserFromContext, Identity.ContextWithUser.
    now rewrite Value_WithValue.
Qed.

(** By contrast with [Timeout], the log-level middleware does hand the
    wrapped handler a request with a derived context. *)
Example log_level_middleware_attaches (h : Http.Handler) (w : Http.World) :
  let r := Http.mkRequest Background [("log_level", "debug")] in
  Exercises.ExtractLogLevelMiddleware h r w
  = h (Http.WithContext r (Exercises.ContextWithLogLevel Background Exercises.Debug)) w.
Proof. reflexivity. Qed.

(** C10 -- the timeout middleware leaves the request alone.  [Timeout(ms)]
    serves a request in three steps: call
    [context.WithTimeout] on the request's context with the [int64] product
    [time.Duration(ms) * time.Millisecond], run the wrapped handler on the
    incoming request itself, call the cancel function.  The derived context
    is not the request's context, which keeps its deadline and values; the
    world the wrapped handler starts from differs from the incoming one by
    the registered call only, whose deadline is the clock plus the wrapped
    product (the product itself for [ms] up to 9223372036854 in absolute
    value); once the wrapped handler has returned the derived context is
    cancelled, and nothing else of the handler's world changes; and whatever
    a handler observes of its request is what it would observe of the
    incoming request. *)
Theorem timeout_never_attached
  (ms : Z) (h : Http.Handler) (r : Http.Request) (w : Http.World) :
  let timeout := ((ms * 1000000 + 2 ^ 63) mod 2 ^ 64 - 2 ^ 63)%Z in
  let d := (Http.w_now w + timeout)%Z in
  let '(ctx', id, w1) :=
    Http.WithTimeout (Http.Context_of r) (Http.int64 (ms * Http.Millisecond)) w in
  let w' := Exercises.Timeout ms h r w in
  (* the three steps *)
  w' = Http.stop_timer id (h r w1) /\
  (* created *)
  id = List.length (Http.w_timers w) /\
  Http.w_timers w1 = Http.w_timers w ++ [Http.mkTimer id d false] /\
  Http.w_resp w1 = Http.w_resp w /\ Http.w_log w1 = Http.w_log w /\
  Http.w_attrs w1 = Http.w_attrs w /\ Http.w_now w1 = Http.w_now w /\
  (-9223372036854 <= ms <= 9223372036854 -> timeout = ms * 1000000)%Z /\
  (- 2 ^ 63 <= timeout < 2 ^ 63)%Z /\
  (* never attached *)
  ctx' <> Http.Context_of r /\
  Deadline ctx' <> None /\
  (ctx' = WithDeadline (Http.Context_of r) id d \/
   ctx' = WithCancel (Http.Context_of r) id /\
   exists cur, Deadline (Http.Context_of r) = Some cur /\ (cur < d)%Z) /\
  (* cancelled *)
  (forall t, In t (Http.w_timers w') -> Http.t_id t = id ->
             Http.t_stopped t = true) /\
  (Http.w_timers (h r w1) = Http.w_timers w1 ->
   In (Http.mkTimer id d true) (Http.w_timers w') /\
   List.length (Http.w_timers w') = S (List.length (Http.w_timers w))) /\
  Http.w_resp w' = Http.w_resp (h r w1) /\ Http.w_log w' = Http.w_log (h r w1) /\
  Http.w_attrs w' = Http.w_attrs (h r w1) /\ Http.w_now w' = Http.w_now (h r w1) /\
  (* what the wrapped handler observes *)
  forall obs : Http.Request -> string,
    Http.w_log (Exercises.Timeout ms (fun r' w' => Http.slog (obs r') w') r w)
    = Http.w_log w ++ [obs r].
Proof.
  assert (Hsize : forall c id d, WithDeadline c id d <> c).
  { induction c; intros id' d' E'; try discriminate.
    injection E' as E1 E2 E3. eapply IHc; eauto. }
  assert (Hsize' : forall c id, WithCancel c id <> c).
  { induction c; intros id' E'; try discriminate.
    injection E' as E1 E2. eapply IHc; eauto. }
  assert (Hstop : forall id ts t,
            In t (map (fun t => if Nat.eqb (Http.t_id t) id
                                then Http.mkTimer (Http.t_id t) (Http.t_deadline t) true
                                else t) ts) ->
            Http.t_id t = id -> Http.t_stopped t = true).
  { intros id ts t Hin Hid. apply in_map_iff in Hin.
    destruct Hin as [t0 [Et Hin]].
    destruct (Nat.eqb (Http.t_id t0) id) eqn:E.
    - subst t. reflexivity.
    - subst t. apply Nat.eqb_neq in E. contradiction. }
  unfold Exercises.Timeout, Http.WithTimeout, Http.int64, Http.Millisecond.
  cbv zeta.
  set (timeout := ((ms * 1000000 + 2 ^ 63) mod 2 ^ 64 - 2 ^ 63)%Z).
  set (d := (Http.w_now w + timeout)%Z).
  set (id := List.length (Http.w_timers w)).
  match goal with
  | |- context [h r ?w0] => set (w1 := w0)
  end.
  assert (Hrange : (- 2 ^ 63 <= timeout < 2 ^ 63)%Z).
  { unfold timeout.
    pose proof (Z.mod_pos_bound (ms * 1000000 + 2 ^ 63) (2 ^ 64) ltac:(lia)).
    lia. }
  assert (Hexact : (-9223372036854 <= ms <= 9223372036854 ->
                    timeout = ms * 1000000)%Z).
  { intros Hms. unfold timeout.
    rewrite Z.mod_small; [lia|].
    change (2 ^ 63)%Z with 9223372036854775808%Z.
    change (2 ^ 64)%Z with 18446744073709551616%Z. lia. }
  assert (Hctx : forall c : Context,
            c = match Deadline (Http.Context_of r) with
                | Some cur => if (cur <? d)%Z
                              then WithCancel (Http.Context_of r) id
                              else WithDeadline (Http.Context_of r) id d
                | None => WithDeadline (Http.Context_of r) id d
                end ->
            c <> Http.Context_of r /\ Deadline c <> None /\
            (c = WithDeadline (Http.Context_of r) id d \/
             c = WithCancel (Http.Context_of r) id /\
             exists cur, Deadline (Http.Context_of r) = Some cur /\ (cur < d)%Z)).
  { intros c Ec.
    destruct (Deadline (Http.Context_of r)) as [cur|] eqn:Ed.
    - destruct (cur <? d)%Z eqn:El; subst c.
      + apply Z.ltb_lt in El. repeat split.
        * apply Hsize'.
        * simpl. rewrite Ed. discriminate.
        * right. split; [reflexivity|]. exists cur. split; [reflexivity|exact El].
      + repeat split.
        * apply Hsize.
        * simpl. rewrite Ed. discriminate.
        * left. reflexivity.
    - subst c. repeat split.
      + apply Hsize.
      + simpl. rewrite Ed. discriminate.
      + left. reflexivity. }
  destruct (Hctx _ eq_refl) as [Hne [Hdl Hshape]].
  repeat match goal with
         | |- _ /\ _ => split
         end; try reflexivity; try assumption; try tauto.
  - intros t Hin Hid. simpl in Hin. eapply Hstop; eauto.
  - intros Hframe. simpl. rewrite Hframe. unfold w1. simpl. split.
    + rewrite map_app. simpl. rewrite Nat.eqb_refl.
      apply in_or_app. right. left. reflexivity.
    + rewrite length_map, length_app. simpl. fold id. lia.
Qed.

(* ------------------------------------------------------------------------- *)
(** * The theorems at concrete schedules *)

Lemma first_cause_wins_witness :
  run delay_fails_while_status_publishes init = Some after_shutdown /\
  calls after_shutdown
  = [Some (Errorf "in delay goroutine: " (Transport "boom"));
     Some (Errorf "in status goroutine: " Canceled); None] /\
  Cause (tok after_shutdown)
  = Some (Errorf "in delay goroutine: " (Transport "boom")) /\
  flips (history (calls after_shutdown) newCancelCtx) = 1.
Proof.
  split; [reflexivity|]. split; [reflexivity|].
  destruct (first_cause_wins delay_fails_while_status_publishes after_shutdown
              eq_refl) as [_ [_ H]].
  destruct (H _ _ eq_refl) as [_ [_ [Hc [Hf _]]]].
  split; [exact Hc | exact Hf].
Defined.

Lemma dropped_publish_then_failing_call_witness :
  run status_selects_after_cancel init = Some at_select_after_cancel /\
  is_cancelled (tok at_select_after_cancel) = true /\
  pc_of Status at_select_after_cancel = WSelect "success from status" /\
  step (LSelect Status false) at_select_after_cancel
  = Some (set_pc Status WSleep at_select_after_cancel).
Proof.
  split; [reflexivity|]. split; [reflexivity|]. split; [reflexivity|].
  destruct (dropped_publish_then_failing_call status_selects_after_cancel
              at_select_after_cancel Status eq_refl eq_refl) as [_ [_ [H _]]].
  destruct (H "success from status"%string false eq_refl) as [Hs _].
  exact Hs.
Defined.

Lemma failure_cancels_then_returns_witness :
  run [LStart Status] init = Some status_in_flight /\
  is_err (makeRequest None (Err (Transport "boom"))) = true /\
  exists s1 c,
    step (LFinish Status None (Err (Transport "boom"))) status_in_flight = Some s1 /\
    pc_of Status s1 = WCancel c /\
    c = Errorf "in status goroutine: " (Transport "boom").
Proof.
  split; [reflexivity|]. split; [reflexivity|].
  eexists.
  destruct (failure_cancels_then_returns [LStart Status] status_in_flight _
              Status None (Err (Transport "boom")) eq_refl eq_refl
              (or_introl eq_refl)) as [c [Hpc [Hc _]]].
  exists c. split; [reflexivity|]. split; [exact Hpc | exact Hc].
Defined.

Lemma no_result_after_cancellation_witness :
  run delay_cancels_after_a_result init = Some cancelled_after_a_result /\
  is_cancelled (tok cancelled_after_a_result) = true /\
  received cancelled_after_a_result = ["success from delay: Fri"%string] /\
  pc_of Status cancelled_after_a_result = WInFlight false /\
  main_pc cancelled_after_a_result = MSelect /\
  run (firstn 1 publish_after_cancel) cancelled_after_a_result
  = Some publishing_after_cancel /\
  pc_of Status publishing_after_cancel = WSelect "success from status" /\
  main_pc publishing_after_cancel = MSelect /\
  exists s',
    run publish_after_cancel cancelled_after_a_result = Some s' /\
    pc_of Status s' = WSleep /\ main_pc s' = MWait /\
    received s' = received cancelled_after_a_result /\
    printed_results (out s')
    = firstn (List.length (printed_results (out s')))
             (received cancelled_after_a_result) /\
    Cause (tok s') = Cause (tok cancelled_after_a_result).
Proof.
  split; [reflexivity|]. split; [reflexivity|]. split; [reflexivity|].
  split; [reflexivity|]. split; [reflexivity|]. split; [reflexivity|].
  split; [reflexivity|]. split; [reflexivity|].
  eexists. split; [reflexivity|]. split; [reflexivity|]. split; [reflexivity|].
  apply (no_result_after_cancellation delay_cancels_after_a_result
           publish_after_cancel cancelled_after_a_result _
           eq_refl eq_refl eq_refl).
Defined.

Lemma shutdown_cause_unchanged_witness :
  run delay_fails_while_status_publishes init = Some after_shutdown /\
  In (InMainCancelled (Some (Errorf "in delay goroutine: " (Transport "boom"))))
     (out after_shutdown) /\
  In (ContextCause (Some (Errorf "in delay goroutine: " (Transport "boom"))))
     (out after_shutdown) /\
  status_pc after_shutdown = WStopped /\ delay_pc after_shutdown = WStopped.
Proof.
  assert (H1 : In (InMainCancelled
                     (Some (Errorf "in delay goroutine: " (Transport "boom"))))
                  (out after_shutdown)) by (simpl; auto).
  assert (H2 : In (ContextCause
                     (Some (Errorf "in delay goroutine: " (Transport "boom"))))
                  (out after_shutdown)) by (simpl; auto).
  split; [reflexivity|]. split; [exact H1|]. split; [exact H2|].
  destruct (shutdown_cause_unchanged delay_fails_while_status_publishes
              after_shutdown _ _ eq_refl H1 H2) as [_ [_ H]].
  exact H.
Defined.

Lemma failing_worker_cancels_in_one_iteration_witness :
  run status_fails_first init = Some after_status_fails_first /\
  fails_always Status status_fails_first = true /\
  starts Status status_fails_first <= 1 /\
  first_iteration (pc_of Status after_status_fails_first) = true.
Proof.
  split; [reflexivity|]. split; [reflexivity|].
  destruct (failing_worker_cancels_in_one_iteration Status status_fails_first
              after_status_fails_first eq_refl eq_refl) as [H1 [H2 _]].
  split; [exact H1 | exact H2].
Defined.

Lemma collector_loop_witness :
  run (firstn 4 delay_receives_500) init = Some main_holds_message /\
  main_pc main_holds_message = MGot "success from delay: Fri" /\
  out main_holds_message = [] /\
  exists s',
    step (LMain false) main_holds_message = Some s' /\
    out s' = [InMain "success from delay: Fri"] /\
    map render (out s') = ["in main: success from delay: Fri"%string] /\
    main_pc s' = MSelect.
Proof.
  split; [reflexivity|]. split; [reflexivity|]. split; [reflexivity|].
  destruct (collector_loop (firstn 4 delay_receives_500) main_holds_message false
              eq_refl) as [_ [_ [H _]]].
  destruct (H _ eq_refl) as [_ [s' [Hs [Ho [Hr [Hm _]]]]]].
  exists s'. split; [exact Hs|]. split; [exact Ho|]. split; [exact Hr|exact Hm].
Defined.

Lemma timeout_never_attached_witness :
  let ms := 9223372036855%Z in
  let r := Http.mkRequest Background [("log_level", "debug")] in
  let w := Http.mkWorld [] [] [] 1700000000000000000%Z [] in
  let h : Http.Handler := fun r' w' => Http.slog "served" w' in
  Http.w_timers (h r (snd (Http.WithTimeout (Http.Context_of r)
                             (Http.int64 (ms * Http.Millisecond)) w)))
  = Http.w_timers (snd (Http.WithTimeout (Http.Context_of r)
                          (Http.int64 (ms * Http.Millisecond)) w)) /\
  Http.int64 (ms * Http.Millisecond) = (-9223372036854551616)%Z /\
  In (Http.mkTimer 0 (1700000000000000000 - 9223372036854551616)%Z true)
     (Http.w_timers (Exercises.Timeout ms h r w)) /\
  List.length (Http.w_timers (Exercises.Timeout ms h r w)) = 1 /\
  Http.w_log (Exercises.Timeout ms h r w) = ["served"%string].
Proof.
  intros ms r w h.
  pose proof (timeout_never_attached ms h r w) as H.
  cbv zeta in H.
  destruct (Http.WithTimeout (Http.Context_of r)
              (Http.int64 (ms * Http.Millisecond)) w) as [[ctx' id] w1] eqn:E.
  destruct H as [_ [_ [_ [_ [_ [_ [_ [_ [_ [_ [_ [_ [_ [Hstop _]]]]]]]]]]]]]].
  injection E as _ <- <-.
  split; [reflexivity|]. split; [reflexivity|].
  destruct (Hstop eq_refl) as [Hin Hlen].
  split; [exact Hin|]. split; [exact Hlen|]. reflexivity.
Defined.

(* ------------------------------------------------------------------------- *)
(** * Further properties of the packages *)

(** ** Values under further derivation *)

Lemma Value_derive_free (k : key) (ls : list Layers.layer) : forall ctx,
  Layers.free_of k ls = true ->
  Value (Layers.derive ctx ls) k = Value ctx k.
Proof.
  unfold Layers.derive, Layers.free_of.
  induction ls as [|l ls IH]; intros ctx Hfree; simpl in *; auto.
  apply andb_true_iff in Hfree as [Hl Hls].
  rewrite (IH _ Hls). destruct l as [k' v|id|id d]; simpl in *; auto.
  apply negb_true_iff in Hl. now rewrite Hl.
Qed.

(** X1 -- a stored value survives further derivation.  Whatever layers are
    put on top of the context that holds it (cancellation, timeouts, values
    under other keys), the log level, the GUID and the user (under either
    key style) are read back unchanged, as long as no layer stores under the
    same key. *)
Theorem stored_value_survives_derivation
  (ctx : Context) (ls : list Layers.layer) :
  (forall l, Layers.free_of Exercises.key ls = true ->
     Exercises.LogLevelFromContext
       (Layers.derive (Exercises.ContextWithLogLevel ctx l) ls) = (l, true)) /\
  (forall g, Layers.free_of Tracker.key ls = true ->
     Tracker.guidFromContext
       (Layers.derive (Tracker.contextWithGUID ctx g) ls) = (g, true)) /\
  (forall u, Layers.free_of Identity.key ls = true ->
     Identity.UserFromContext
       (Layers.derive (Identity.ContextWithUser ctx u) ls) = (u, true)) /\
  (forall u, Layers.free_of IdentityApp.userKeyStruct ls = true ->
     IdentityApp.UserFromContextStruct
       (Layers.derive (IdentityApp.ContextWithUserStruct ctx u) ls) = (u, true)).
Proof.
  repeat split; intros x Hfree.
  - unfold Exercises.LogLevelFromContext.
    rewrite (Value_derive_free _ _ _ Hfree).
    unfold Exercises.ContextWithLogLevel. now rewrite Value_WithValue.
  - unfold Tracker.guidFromContext.
    rewrite (Value_derive_free _ _ _ Hfree).
    unfold Tracker.contextWithGUID. now rewrite Value_WithValue.
  - unfold Identity.UserFromContext.
    rewrite (Value_derive_free _ _ _ Hfree).
    unfold Identity.ContextWithUser. now rewrite Value_WithValue.
  - unfold IdentityApp.UserFromContextStruct.
    rewrite (Value_derive_free _ _ _ Hfree).
    unfold IdentityApp.ContextWithUserStruct. now rewrite Value_WithValue.
Qed.

Lemma stored_value_survives_derivation_witness :
  Layers.free_of Identity.key
    [Layers.LCancel 0; Layers.LValue Tracker.key (AnyString "g");
     Layers.LDeadline 1 2000] = true /\
  Identity.UserFromContext
    (Layers.derive (Identity.ContextWithUser Background "ann")
       [Layers.LCancel 0; Layers.LValue Tracker.key (AnyString "g");
        Layers.LDeadline 1 2000]) = ("ann"%string, true).
Proof.
  split; [reflexivity|].
  destruct (stored_value_survives_derivation Background
              [Layers.LCancel 0; Layers.LValue Tracker.key (AnyString "g");
               Layers.LDeadline 1 2000]) as [_ [_ [H _]]].
  exact (H "ann"%string eq_refl).
Defined.

(** X2 -- a missing value.  From a context built on [Background] by layers
    none of which stores under the package's key, each extractor returns the
    zero value and [false]. *)
Theorem missing_value_is_not_ok (ls : list Layers.layer) :
  (Layers.free_of Exercises.key ls = true ->
     Exercises.LogLevelFromContext (Layers.derive Background ls)
     = (MkLevel "", false)) /\
  (Layers.free_of Tracker.key ls = true ->
     Tracker.guidFromContext (Layers.derive Background ls) = (""%string, false)) /\
  (Layers.free_of Identity.key ls = true ->
     Identity.UserFromContext (Layers.derive Background ls) = (""%string, false)) /\
  (Layers.free_of IdentityApp.userKeyStruct ls = true ->
     IdentityApp.UserFromContextStruct (Layers.derive Background ls)
     = (""%string, false)).
Proof.
  repeat split; intros Hfree.
  - unfold Exercises.LogLevelFromContext.
    now rewrite (Value_derive_free _ _ _ Hfree).
  - unfold Tracker.guidFromContext.
    now rewrite (Value_derive_free _ _ _ Hfree).
  - unfold Identity.UserFromContext.
    now rewrite (Value_derive_free _ _ _ Hfree).
  - unfold IdentityApp.UserFromContextStruct.
    now rewrite (Value_derive_free _ _ _ Hfree).
Qed.

Lemma missing_value_is_not_ok_witness :
  Layers.free_of Tracker.key
    [Layers.LValue Identity.key (AnyString "ann"); Layers.LCancel 0] = true /\
  Tracker.guidFromContext
    (Layers.derive Background
       [Layers.LValue Identity.key (AnyString "ann"); Layers.LCancel 0])
  = (""%string, false).
Proof.
  split; [reflexivity|].
  destruct (missing_value_is_not_ok
              [Layers.LValue Identity.key (AnyString "ann"); Layers.LCancel 0])
    as [_ [H _]].
  exact (H eq_refl).
Defined.

(** The two key styles of the identity package do not meet.  A user
    stored under the struct key is invisible to the lookup under the integer
    key and the other way round, so each lookup returns what it returned
    before the other store. *)
Lemma key_styles_are_independent (ctx : Context) (u : string) :
  Identity.UserFromContext (IdentityApp.ContextWithUserStruct ctx u)
  = Identity.UserFromContext ctx /\
  IdentityApp.UserFromContextStruct (Identity.ContextWithUser ctx u)
  = IdentityApp.UserFromContextStruct ctx /\
  forall u',
    Identity.UserFromContext
      (IdentityApp.ContextWithUserStruct (Identity.ContextWithUser ctx u') u)
    = (u', true) /\
    IdentityApp.UserFromContextStruct
      (Identity.ContextWithUser (IdentityApp.ContextWithUserStruct ctx u') u)
    = (u', true).
Proof.
  split; [reflexivity|]. split; [reflexivity|].
  intros u'. split.
  - unfold Identity.UserFromContext, IdentityApp.ContextWithUserStruct. simpl.
    reflexivity.
  - unfold IdentityApp.UserFromContextStruct, Identity.ContextWithUser. simpl.
    reflexivity.
Qed.

(** ** The identity middleware and the user-management handlers *)

Lemma Request_Cookie_absent cs name :
  (forall v, ~ In (name, v) cs) -> Web.Request_Cookie cs name = inr Web.ErrNoCookie.
Proof.
  induction cs as [|[n v] cs IH]; intros H; simpl; auto.
  destruct (String.eqb n name) eqn:E.
  - apply String.eqb_eq in E. subst n. exfalso. apply (H v). now left.
  - apply IH. intros v' Hin. apply (H v'). now right.
Qed.

Lemma Request_Cookie_first pre name v post :
  (forall v', ~ In (name, v') pre) ->
  Web.Request_Cookie (pre ++ (name, v) :: post) name = inl v.
Proof.
  induction pre as [|[n v0] pre IH]; intros H; simpl.
  - now rewrite String.eqb_refl.
  - destruct (String.eqb n name) eqn:E.
    + apply String.eqb_eq in E. subst n. exfalso. apply (H v0). now left.
    + apply IH. intros v' Hin. apply (H v'). now right.
Qed.

(** X3 -- no identity cookie, no service.  For a request without a cookie
    named [identity], whatever the wrapped handler is, the middleware does
    not run it: on a writer whose header is still unwritten the response is
    status 401 with [unauthorized] appended to the body, no cookie is set
    and nothing is printed. *)
Theorem middleware_rejects_without_cookie
  (h : Web.Handler) (req : Web.Request) (w : Web.World)
  (Hnone : forall v, ~ In ("identity"%string, v) (Web.q_cookies req))
  (Hfresh : Web.rw_status (Web.rw w) = None) :
  let w' := IdentityApp.Middleware h req w in
  (forall h', IdentityApp.Middleware h' req w = w') /\
  Web.rw_status (Web.rw w') = Some 401%Z /\
  Web.rw_body (Web.rw w') = (Web.rw_body (Web.rw w) ++ "unauthorized")%string /\
  Web.rw_header (Web.rw w') = Web.rw_header (Web.rw w) /\
  Web.stdout w' = Web.stdout w.
Proof.
  unfold IdentityApp.Middleware, IdentityApp.extractUser.
  rewrite (Request_Cookie_absent _ _ Hnone). simpl.
  unfold Web.rw_Write, Web.rw_WriteHeader. simpl. rewrite Hfresh. simpl.
  repeat split; reflexivity.
Qed.

Lemma middleware_rejects_without_cookie_witness :
  let req := Web.mkRequest Background "/business" [] [] [("theme", "dark")] in
  let w := Web.mkWorld Web.new_rw [] in
  let w' := IdentityApp.Middleware (fun _ w => Web.Write "secret" w) req w in
  (forall v, ~ In ("identity"%string, v) (Web.q_cookies req)) /\
  Web.rw_status (Web.rw w) = None /\
  Web.rw_status (Web.rw w') = Some 401%Z /\
  Web.rw_body (Web.rw w') = "unauthorized"%string.
Proof.
  intros req w w'.
  assert (Hnone : forall v, ~ In ("identity"%string, v) (Web.q_cookies req)).
  { intros v [H|[]]. discriminate H. }
  destruct (middleware_rejects_without_cookie
              (fun _ w => Web.Write "secret" w) req w Hnone eq_refl)
    as [_ [Hs [Hb _]]].
  split; [exact Hnone|]. split; [reflexivity|]. split; [exact Hs | exact Hb].
Defined.

Lemma Middleware_with_cookie h req w pre post user :
  Web.q_cookies req = pre ++ ("identity"%string, user) :: post ->
  (forall v, ~ In ("identity"%string, v) pre) ->
  IdentityApp.Middleware h req w
  = h (Web.WithContext req (Identity.ContextWithUser (Web.q_ctx req) user)) w.
Proof.
  intros Hc Hf. unfold IdentityApp.Middleware, IdentityApp.extractUser.
  now rewrite Hc, (Request_Cookie_first _ _ _ _ Hf).
Qed.

(** X4 -- the first identity cookie names the user.  When the request
    carries cookies named [identity], the middleware runs the wrapped handler
    on the same world and on the request with only its context replaced, and
    in that context [UserFromContext] returns the value of the first such
    cookie, whatever user the incoming context held. *)
Theorem middleware_passes_first_cookie
  (h : Web.Handler) (req : Web.Request) (w : Web.World)
  (pre post : list (string * string)) (user : string)
  (Hcookies : Web.q_cookies req = pre ++ ("identity"%string, user) :: post)
  (Hfirst : forall v, ~ In ("identity"%string, v) pre) :
  exists req',
    IdentityApp.Middleware h req w = h req' w /\
    Identity.UserFromContext (Web.q_ctx req') = (user, true) /\
    Web.q_url req' = Web.q_url req /\ Web.q_query req' = Web.q_query req /\
    Web.q_header req' = Web.q_header req /\
    Web.q_cookies req' = Web.q_cookies req /\
    forall k, GoContext.key_eqb Identity.key k = false ->
      Value (Web.q_ctx req') k = Value (Web.q_ctx req) k.
Proof.
  rewrite (Middleware_with_cookie h req w pre post user Hcookies Hfirst).
  eexists. split; [reflexivity|]. simpl.
  repeat split; auto.
  intros k Hk. simpl. now rewrite Hk.
Qed.

Lemma middleware_passes_first_cookie_witness :
  let req := Web.mkRequest (Identity.ContextWithUser Background "eve") "/business"
               [] [] [("theme", "dark"); ("identity", "ann"); ("identity", "bob")] in
  let w := Web.mkWorld Web.new_rw [] in
  Web.q_cookies req = [("theme", "dark")] ++ ("identity", "ann") :: [("identity", "bob")]
  /\ (forall v, ~ In ("identity"%string, v) [("theme"%string, "dark"%string)]) /\
  exists req',
    IdentityApp.Middleware (fun r w => Web.Write (fst (Identity.UserFromContext (Web.q_ctx r))) w) req w
    = Web.Write (fst (Identity.UserFromContext (Web.q_ctx req'))) w /\
    Identity.UserFromContext (Web.q_ctx req') = ("ann"%string, true).
Proof.
  intros req w.
  assert (Hfirst : forall v, ~ In ("identity"%string, v) [("theme"%string, "dark"%string)]).
  { intros v [H|[]]. discriminate H. }
  split; [reflexivity|]. split; [exact Hfirst|].
  destruct (middleware_passes_first_cookie
              (fun r w => Web.Write (fst (Identity.UserFromContext (Web.q_ctx r))) w)
              req w [("theme", "dark")] [("identity", "bob")] "ann"
              eq_refl Hfirst) as [req' [H1 [H2 _]]].
  exists req'. split; [exact H1 | exact H2].
Defined.

(** X5 -- the business route greets the user of the cookie.  Behind the
    identity middleware, with the shipped business logic, a request whose
    first [identity] cookie is [user] gets, on a writer whose header is
    still unwritten, status 200 (implied by the first write) and the
    greeting built from that user and the [data] query parameter; no cookie
    is set. *)
Theorem business_route_greets_cookie_user
  (req : Web.Request) (w : Web.World)
  (pre post : list (string * string)) (user : string)
  (Hcookies : Web.q_cookies req = pre ++ ("identity"%string, user) :: post)
  (Hfirst : forall v, ~ In ("identity"%string, v) pre)
  (Hfresh : Web.rw_status (Web.rw w) = None) :
  let w' := IdentityApp.Middleware (IdentityApp.DoLogic IdentityApp.BusinessLogic) req w in
  Web.rw_status (Web.rw w') = Some 200%Z /\
  Web.rw_body (Web.rw w')
  = (Web.rw_body (Web.rw w) ++ "Hello " ++ user ++ ", thank you for sending me "
       ++ Http.Query_Get (Web.q_query req) "data")%string /\
  Web.rw_sent (Web.rw w') = Web.rw_header (Web.rw w) /\
  Web.rw_header (Web.rw w') = Web.rw_header (Web.rw w).
Proof.
  rewrite (Middleware_with_cookie _ req w pre post user Hcookies Hfirst).
  unfold IdentityApp.DoLogic. simpl.
  unfold Web.rw_Write, Web.rw_WriteHeader. rewrite Hfresh. simpl.
  repeat split; reflexivity.
Qed.

Lemma business_route_greets_cookie_user_witness :
  let req := Web.mkRequest Background "/business?data=tea" [("data", "tea")] []
               [("identity", "ann")] in
  let w := Web.mkWorld Web.new_rw [] in
  Web.q_cookies req = [] ++ ("identity", "ann") :: [] /\
  Web.rw_status (Web.rw w) = None /\
  Web.rw_body (Web.rw (IdentityApp.Middleware
                         (IdentityApp.DoLogic IdentityApp.BusinessLogic) req w))
  = "Hello ann, thank you for sending me tea"%string.
Proof.
  intros req w. split; [reflexivity|]. split; [reflexivity|].
  destruct (business_route_greets_cookie_user req w [] [] "ann" eq_refl
              (fun v (H : In _ []) => H) eq_refl) as [_ [Hb _]].
  exact Hb.
Defined.

(** X6 -- errors of the business handler.  On a writer whose header is
    still unwritten: without a user in the context (the route not behind the
    middleware) [DoLogic] answers status 500 with nothing written to the
    body and never consults the business logic; with a user, a business
    logic that returns an error gives status 500 and the error text as body,
    the result text being discarded. *)
Theorem DoLogic_errors
  (logic : IdentityApp.Logic) (req : Web.Request) (w : Web.World)
  (Hfresh : Web.rw_status (Web.rw w) = None) :
  (snd (Identity.UserFromContext (Web.q_ctx req)) = false ->
     (forall logic', IdentityApp.DoLogic logic' req w = IdentityApp.DoLogic logic req w) /\
     Web.rw_status (Web.rw (IdentityApp.DoLogic logic req w)) = Some 500%Z /\
     Web.rw_body (Web.rw (IdentityApp.DoLogic logic req w)) = Web.rw_body (Web.rw w)) /\
  (forall user result err,
     Identity.UserFromContext (Web.q_ctx req) = (user, true) ->
     logic (Web.q_ctx req) user (Http.Query_Get (Web.q_query req) "data")
     = (result, Some err) ->
     Web.rw_status (Web.rw (IdentityApp.DoLogic logic req w)) = Some 500%Z /\
     Web.rw_body (Web.rw (IdentityApp.DoLogic logic req w))
     = (Web.rw_body (Web.rw w) ++ Error err)%string).
Proof.
  split.
  - intros Hno. unfold IdentityApp.DoLogic.
    destruct (Identity.UserFromContext (Web.q_ctx req)) as [u ok].
    simpl in Hno. subst ok. simpl.
    unfold Web.rw_WriteHeader. rewrite Hfresh. simpl. repeat split; reflexivity.
  - intros user result err Hu Hl. unfold IdentityApp.DoLogic.
    rewrite Hu. simpl. rewrite Hl. simpl.
    unfold Web.rw_Write, Web.rw_WriteHeader. rewrite Hfresh. simpl.
    split; reflexivity.
Qed.

Lemma DoLogic_errors_witness :
  let req := Web.mkRequest Background "/business" [] [] [] in
  let w := Web.mkWorld Web.new_rw [] in
  Web.rw_status (Web.rw w) = None /\
  snd (Identity.UserFromContext (Web.q_ctx req)) = false /\
  Web.rw_status (Web.rw (IdentityApp.DoLogic IdentityApp.BusinessLogic req w))
  = Some 500%Z /\
  Web.rw_body (Web.rw (IdentityApp.DoLogic IdentityApp.BusinessLogic req w))
  = ""%string.
Proof.
  intros req w. split; [reflexivity|]. split; [reflexivity|].
  destruct (DoLogic_errors IdentityApp.BusinessLogic req w eq_refl) as [H _].
  destruct (H eq_refl) as [_ [Hs Hb]].
  split; [exact Hs | exact Hb].
Defined.

Lemma sanitize_valid (valid : ascii -> bool) (v : string) :
  Web.all_bytes valid v = true -> Web.sanitize valid v = v.
Proof.
  induction v as [|b v IH]; simpl; intros H; [reflexivity|].
  apply andb_true_iff in H as [Hb Hv]. rewrite Hb, (IH Hv). reflexivity.
Qed.

Lemma sanitize_all_valid (valid : ascii -> bool) (v : string) :
  Web.all_bytes valid (Web.sanitize valid v) = true.
Proof.
  induction v as [|b v IH]; simpl; [reflexivity|].
  destruct (valid b) eqn:Hb; simpl; [rewrite Hb|]; exact IH.
Qed.

(** X7 -- login.  On a writer whose header is still unwritten: a [user]
    parameter that is absent or trims to nothing gets status 400 with
    [No user specified] and no cookie; any other gets status 200 with
    [user logged in], and the cookie [identity] is among the header fields
    sent, because it is set before the header is written.  The value of the
    cookie is the user name without the bytes a cookie value cannot hold
    (control and non-ASCII bytes, the double quote, the semicolon and the
    backslash): the user name itself exactly when it has no such byte. *)
Theorem Login_sets_cookie_or_rejects
  (TrimSpace : string -> string) (req : Web.Request) (w : Web.World)
  (Hfresh : Web.rw_status (Web.rw w) = None) :
  let user := Http.Query_Get (Web.q_query req) "user" in
  let w' := IdentityApp.Login TrimSpace req w in
  (String.length (TrimSpace user) = 0 ->
     Web.rw_status (Web.rw w') = Some 400%Z /\
     Web.rw_body (Web.rw w') = (Web.rw_body (Web.rw w) ++ "No user specified")%string /\
     Web.rw_sent (Web.rw w') = Web.rw_header (Web.rw w) /\
     Web.rw_header (Web.rw w') = Web.rw_header (Web.rw w)) /\
  (String.length (TrimSpace user) <> 0 ->
     Web.rw_status (Web.rw w') = Some 200%Z /\
     Web.rw_body (Web.rw w') = (Web.rw_body (Web.rw w) ++ "user logged in")%string /\
     Web.rw_sent (Web.rw w')
     = Web.rw_header (Web.rw w)
       ++ [Web.mkCookie "identity" (Web.sanitize Web.validCookieValueByte user) "" 0] /\
     Web.all_bytes Web.validCookieValueByte
       (Web.sanitize Web.validCookieValueByte user) = true /\
     (Web.sanitize Web.validCookieValueByte user = user
      <-> Web.all_bytes Web.validCookieValueByte user = true)).
Proof.
  intros user w'. subst user w'. unfold IdentityApp.Login. split; intros Hlen.
  - rewrite Hlen. simpl.
    unfold Web.rw_Write, Web.rw_WriteHeader. rewrite Hfresh. simpl.
    repeat split; reflexivity.
  - apply Nat.eqb_neq in Hlen. rewrite Hlen. simpl.
    unfold Web.rw_Write, Web.rw_WriteHeader. simpl. rewrite Hfresh. simpl.
    split; [reflexivity|]. split; [reflexivity|]. split; [reflexivity|].
    split; [apply sanitize_all_valid|]. split.
    + intros E. rewrite <- E. apply sanitize_all_valid.
    + apply sanitize_valid.
Qed.

Lemma Login_sets_cookie_or_rejects_witness :
  let req := Web.mkRequest Background "/login?user=a%3Bb" [("user", "a;b")] [] [] in
  let w := Web.mkWorld Web.new_rw [] in
  Web.rw_status (Web.rw w) = None /\
  String.length "a;b" <> 0 /\
  Web.rw_sent (Web.rw (IdentityApp.Login (fun s => s) req w))
  = [] ++ [Web.mkCookie "identity" "ab" "" 0].
Proof.
  intros req w. split; [reflexivity|]. split; [discriminate|].
  destruct (Login_sets_cookie_or_rejects (fun s => s) req w eq_refl) as [_ H].
  assert (Hlen : String.length "a;b" <> 0) by discriminate.
  destruct (H Hlen) as [_ [_ [Hsent _]]]. exact Hsent.
Defined.

(** X8 -- logout.  On a writer whose header is still unwritten: with a user
    in the context [Logout] answers status 200 with [user logged out] and
    sends the cookie [identity] with an empty value, path [/] and a negative
    max-age; without one it answers status 500, writes nothing and sets no
    cookie. *)
Theorem Logout_expires_cookie (r : Web.Request) (w : Web.World)
  (Hfresh : Web.rw_status (Web.rw w) = None) :
  let w' := IdentityApp.Logout r w in
  (snd (Identity.UserFromContext (Web.q_ctx r)) = true ->
     Web.rw_status (Web.rw w') = Some 200%Z /\
     Web.rw_body (Web.rw w') = (Web.rw_body (Web.rw w) ++ "user logged out")%string /\
     Web.rw_sent (Web.rw w')
     = Web.rw_header (Web.rw w) ++ [Web.mkCookie "identity" "" "/" (-1)]) /\
  (snd (Identity.UserFromContext (Web.q_ctx r)) = false ->
     Web.rw_status (Web.rw w') = Some 500%Z /\
     Web.rw_body (Web.rw w') = Web.rw_body (Web.rw w) /\
     Web.rw_sent (Web.rw w') = Web.rw_header (Web.rw w) /\
     Web.rw_header (Web.rw w') = Web.rw_header (Web.rw w)).
Proof.
  intros w'. subst w'. unfold IdentityApp.Logout.
  destruct (Identity.UserFromContext (Web.q_ctx r)) as [u ok]. simpl.
  split; intros ->; simpl; unfold Web.rw_Write, Web.rw_WriteHeader; simpl;
    rewrite Hfresh; simpl; repeat split; reflexivity.
Qed.

Lemma Logout_expires_cookie_witness :
  let r := Web.mkRequest (Identity.ContextWithUser Background "ann")
             "/business/logout" [] [] [("identity", "ann")] in
  let w := Web.mkWorld Web.new_rw [] in
  Web.rw_status (Web.rw w) = None /\
  snd (Identity.UserFromContext (Web.q_ctx r)) = true /\
  Web.rw_sent (Web.rw (IdentityApp.Logout r w))
  = [] ++ [Web.mkCookie "identity" "" "/" (-1)].
Proof.
  intros r w. split; [reflexivity|]. split; [reflexivity|].
  destruct (Logout_expires_cookie r w eq_refl) as [H _].
  destruct (H eq_refl) as [_ [_ Hsent]]. exact Hsent.
Defined.

(** X9 -- the login cookie opens the business route.  For a user name that
    does not trim to nothing, [Login] on a new writer sends exactly one
    cookie, named [identity], and a request that presents the name and value
    of that cookie as its first [identity] cookie is greeted, behind the
    middleware, under the value of the cookie: the user name without the
    bytes a cookie value cannot hold, hence the user who logged in when the
    name has no such byte. *)
Theorem login_cookie_opens_business_route
  (TrimSpace : string -> string) (login req : Web.Request)
  (others : list (string * string))
  (Hname : String.length (TrimSpace (Http.Query_Get (Web.q_query login) "user")) <> 0) :
  let user := Http.Query_Get (Web.q_query login) "user" in
  exists c,
    Web.rw_sent (Web.rw (IdentityApp.Login TrimSpace login (Web.mkWorld Web.new_rw [])))
    = [c] /\
    Web.c_Name c = "identity"%string /\
    Web.c_Value c = Web.sanitize Web.validCookieValueByte user /\
    (Web.all_bytes Web.validCookieValueByte user = true -> Web.c_Value c = user) /\
    forall w,
      Web.q_cookies req = (Web.c_Name c, Web.c_Value c) :: others ->
      Web.rw_status (Web.rw w) = None ->
      Web.rw_body
        (Web.rw (IdentityApp.Middleware
                   (IdentityApp.DoLogic IdentityApp.BusinessLogic) req w))
      = (Web.rw_body (Web.rw w) ++ "Hello " ++ Web.c_Value c
           ++ ", thank you for sending me "
           ++ Http.Query_Get (Web.q_query req) "data")%string.
Proof.
  intros user. subst user.
  exists (Web.mkCookie "identity"
            (Web.sanitize Web.validCookieValueByte
               (Http.Query_Get (Web.q_query login) "user")) "" 0).
  split; [|split; [reflexivity|split; [reflexivity|split]]].
  - unfold IdentityApp.Login. apply Nat.eqb_neq in Hname. rewrite Hname. reflexivity.
  - intros Hv. simpl. now apply sanitize_valid.
  - intros w Hc Hfresh. simpl in Hc.
    rewrite (Middleware_with_cookie _ req w [] others _ Hc
               (fun v (Hin : In _ []) => Hin)).
    unfold IdentityApp.DoLogic. simpl.
    unfold Web.rw_Write, Web.rw_WriteHeader. rewrite Hfresh. reflexivity.
Qed.

Lemma login_cookie_opens_business_route_witness :
  let login := Web.mkRequest Background "/login?user=a%3Bb" [("user", "a;b")] [] [] in
  let req := Web.mkRequest Background "/business?data=tea" [("data", "tea")] []
               [("identity", "ab")] in
  String.length "a;b" <> 0 /\
  exists c,
    Web.rw_sent (Web.rw (IdentityApp.Login (fun s => s) login (Web.mkWorld Web.new_rw [])))
    = [c] /\
    Web.c_Value c = "ab"%string /\
    Web.rw_body
      (Web.rw (IdentityApp.Middleware
                 (IdentityApp.DoLogic IdentityApp.BusinessLogic) req
                 (Web.mkWorld Web.new_rw [])))
    = "Hello ab, thank you for sending me tea"%string.
Proof.
  intros login req.
  assert (Hlen : String.length "a;b" <> 0) by discriminate.
  split; [exact Hlen|].
  destruct (login_cookie_opens_business_route (fun s => s) login req [] Hlen)
    as [c [Hsent [Hn [Hv [_ Hroute]]]]].
  exists c. split; [exact Hsent|]. split; [exact Hv|].
  injection Hsent as <-.
  exact (Hroute (Web.mkWorld Web.new_rw []) eq_refl eq_refl).
Defined.

(** ** The tracker *)

Lemma Header_Get_absent h key :
  (forall v, ~ In (key, v) h) -> Web.Header_Get h key = ""%string.
Proof.
  induction h as [|[k v] h IH]; intros H; simpl; auto.
  destruct (String.eqb k key) eqn:E.
  - apply String.eqb_eq in E. subst k. exfalso. apply (H v). now left.
  - apply IH. intros v' Hin. apply (H v'). now right.
Qed.

Lemma Header_Get_app h1 h2 key :
  Web.Header_Get (h1 ++ h2) key
  = if existsb (fun kv => String.eqb (fst kv) key) h1
    then Web.Header_Get h1 key else Web.Header_Get h2 key.
Proof.
  induction h1 as [|[k v] h1 IH]; simpl; auto.
  destruct (String.eqb k key); simpl; auto.
Qed.

(** X10 -- every request gets a GUID.  The tracker middleware runs the
    wrapped handler on the same world and on the request with only its
    context replaced; in that context [guidFromContext] succeeds, with the
    first [X-GUID] header value when it is not empty and with the freshly
    generated one otherwise; values under other keys are untouched. *)
Theorem tracker_middleware_provides_guid
  (fresh : string) (h : Web.Handler) (req : Web.Request) (w : Web.World) :
  let incoming := Web.Header_Get (Web.q_header req) Web.X_GUID in
  let guid := if String.eqb incoming "" then fresh else incoming in
  let req' := Web.WithContext req (Tracker.contextWithGUID (Web.q_ctx req) guid) in
  TrackerApp.Middleware fresh h req w = h req' w /\
  Tracker.guidFromContext (Web.q_ctx req') = (guid, true) /\
  Web.q_header req' = Web.q_header req /\
  (forall k, GoContext.key_eqb Tracker.key k = false ->
     Value (Web.q_ctx req') k = Value (Web.q_ctx req) k).
Proof.
  unfold TrackerApp.Middleware. simpl.
  destruct (String.eqb (Web.Header_Get (Web.q_header req) Web.X_GUID) "");
    simpl; repeat split; auto; intros k Hk; now rewrite Hk.
Qed.

Lemma tracker_middleware_provides_guid_witness :
  let req := Web.mkRequest (Identity.ContextWithUser Background "ann") "/first" []
               [("Accept", "*/*")] [] in
  GoContext.key_eqb Tracker.key Identity.key = false /\
  Tracker.guidFromContext
    (Web.q_ctx (Web.WithContext req (Tracker.contextWithGUID (Web.q_ctx req) "fresh-1")))
  = ("fresh-1"%string, true) /\
  Value (Web.q_ctx (Web.WithContext req (Tracker.contextWithGUID (Web.q_ctx req) "fresh-1")))
        Identity.key
  = Value (Web.q_ctx req) Identity.key.
Proof.
  intros req. split; [reflexivity|].
  destruct (tracker_middleware_provides_guid "fresh-1" (fun _ w => w) req
              (Web.mkWorld Web.new_rw [])) as [_ [Hg [_ Hk]]].
  split; [exact Hg | exact (Hk Identity.key eq_refl)].
Defined.

(** X11 -- the decorator of outgoing requests.  Without a GUID in its
    context the request is returned as it is.  With one, exactly one header
    field is appended, and [Get] of [X-GUID] afterwards returns the GUID of
    the context when the request had no such field before, and the value of
    the earlier field otherwise. *)
Theorem decorator_adds_guid_header (req : Web.Request) :
  (snd (Tracker.guidFromContext (Web.q_ctx req)) = false ->
     TrackerApp.Request req = req) /\
  (forall g, Tracker.guidFromContext (Web.q_ctx req) = (g, true) ->
     Web.q_header (TrackerApp.Request req) = Web.q_header req ++ [(Web.X_GUID, g)] /\
     Web.q_ctx (TrackerApp.Request req) = Web.q_ctx req /\
     Web.q_url (TrackerApp.Request req) = Web.q_url req /\
     Web.Header_Get (Web.q_header (TrackerApp.Request req)) Web.X_GUID
     = if existsb (fun kv => String.eqb (fst kv) Web.X_GUID) (Web.q_header req)
       then Web.Header_Get (Web.q_header req) Web.X_GUID
       else g).
Proof.
  unfold TrackerApp.Request. split.
  - destruct (Tracker.guidFromContext (Web.q_ctx req)) as [g ok]. simpl.
    now intros ->.
  - intros g ->. simpl. unfold Web.Header_Add. repeat split.
    rewrite Header_Get_app. simpl. reflexivity.
Qed.

Lemma decorator_adds_guid_header_witness :
  let req := Web.mkRequest (Tracker.contextWithGUID Background "g-1")
               "http://localhost:4000/second?query=x" [] [("X-Guid", "old")] [] in
  Tracker.guidFromContext (Web.q_ctx req) = ("g-1"%string, true) /\
  Web.q_header (TrackerApp.Request req) = [("X-Guid", "old")] ++ [(Web.X_GUID, "g-1")]%string /\
  Web.Header_Get (Web.q_header (TrackerApp.Request req)) Web.X_GUID = "old"%string.
Proof.
  intros req. split; [reflexivity|].
  destruct (decorator_adds_guid_header req) as [_ H].
  destruct (H "g-1"%string eq_refl) as [Hh [_ [_ Hg]]].
  split; [exact Hh | exact Hg].
Defined.

Lemma first_route_unfold fresh net req w :
  TrackerApp.first_route fresh net req w
  = let ctx := Tracker.contextWithGUID (Web.q_ctx req) (TrackerApp.guid_of fresh req) in
    let data := Http.Query_Get (Web.q_query req) "data" in
    let w1 := TrackerApp.Log ctx ("starting Process with " ++ data) w in
    match TrackerApp.NewRequest net (TrackerApp.second_url req) with
    | Some err =>
        Web.Write (Error err)
          (Web.WriteHeader 500
             (TrackerApp.Log ctx ("error building remote request:" ++ Error err) w1))
    | None =>
        match TrackerApp.Do net (TrackerApp.outgoing fresh net req) with
        | TrackerApp.DoErr err =>
            Web.Write (Error err)
              (Web.WriteHeader 500
                 (TrackerApp.Log ctx ("error building remote request:" ++ Error err) w1))
        | TrackerApp.DoResp None =>
            Web.Write "" (TrackerApp.Log ctx "empty response from second" w1)
        | TrackerApp.DoResp (Some (out, Some err)) =>
            Web.Write (Error err) (Web.WriteHeader 500 w1)
        | TrackerApp.DoResp (Some (out, None)) => Web.Write out w1
        end
    end.
Proof.
  unfold TrackerApp.first_route, TrackerApp.Middleware, TrackerApp.First,
    TrackerApp.Process, TrackerApp.outgoing, TrackerApp.second_url,
    TrackerApp.guid_of.
  simpl.
  destruct (String.eqb (Web.Header_Get (Web.q_header req) Web.X_GUID) ""); simpl;
    (destruct (TrackerApp.NewRequest net _); [reflexivity|]);
    unfold TrackerApp.Request; simpl; unfold Web.Request_Header_Add; simpl;
    (destruct (TrackerApp.Do net _) as [e|[[out [e|]]|]]; reflexivity).
Qed.

(** X12 -- the GUID travels with the outgoing call.  Serving [/first]
    depends on the remote end only through its answer to one request: the
    one for [/second] with the [data] parameter, whose context holds the
    GUID of the incoming request and whose only header field is [X-GUID]
    with that GUID.  And a service that runs the tracker middleware on a
    request with these header fields hands its handler the same GUID,
    provided it is not empty. *)
Theorem guid_travels_with_outgoing_call
  (fresh : string) (net net' : TrackerApp.Network)
  (req : Web.Request) (w : Web.World) :
  (TrackerApp.NewRequest net (TrackerApp.second_url req)
   = TrackerApp.NewRequest net' (TrackerApp.second_url req) ->
   TrackerApp.ParseQuery net (TrackerApp.second_url req)
   = TrackerApp.ParseQuery net' (TrackerApp.second_url req) ->
   TrackerApp.Do net (TrackerApp.outgoing fresh net req)
   = TrackerApp.Do net' (TrackerApp.outgoing fresh net req) ->
   TrackerApp.first_route fresh net req w = TrackerApp.first_route fresh net' req w) /\
  Web.q_header (TrackerApp.outgoing fresh net req)
  = [(Web.X_GUID, TrackerApp.guid_of fresh req)] /\
  (TrackerApp.guid_of fresh req <> ""%string ->
   forall fresh2 h second w2,
     Web.q_header second = Web.q_header (TrackerApp.outgoing fresh net req) ->
     exists second',
       TrackerApp.Middleware fresh2 h second w2 = h second' w2 /\
       Tracker.guidFromContext (Web.q_ctx second')
       = (TrackerApp.guid_of fresh req, true)).
Proof.
  split; [|split].
  - intros Hn Hp Hd. rewrite !first_route_unfold. cbv zeta.
    assert (Ho : TrackerApp.outgoing fresh net' req = TrackerApp.outgoing fresh net req).
    { unfold TrackerApp.outgoing. now rewrite Hp. }
    rewrite Ho, <- Hn, <- Hd. reflexivity.
  - reflexivity.
  - intros Hne fresh2 h second w2 Hh.
    unfold TrackerApp.Middleware. rewrite Hh.
    change (Web.Header_Get (Web.q_header (TrackerApp.outgoing fresh net req)) Web.X_GUID)
      with (TrackerApp.guid_of fresh req).
    apply String.eqb_neq in Hne. rewrite Hne.
    eexists. split; [reflexivity|]. simpl.
    unfold Tracker.guidFromContext, Tracker.contextWithGUID.
    now rewrite Value_WithValue.
Qed.

Lemma guid_travels_with_outgoing_call_witness :
  let net := TrackerApp.mkNetwork (fun _ => None) (fun _ => [])
               (fun r => TrackerApp.DoResp
                           (Some (Web.Header_Get (Web.q_header r) Web.X_GUID, None))) in
  let req := Web.mkRequest Background "/first?data=x" [("data", "x")]
               [("X-Guid", "g-7")] [] in
  TrackerApp.guid_of "fresh" req <> ""%string /\
  exists second',
    TrackerApp.Middleware "other" (fun r w => w)
      (TrackerApp.outgoing "fresh" net req) (Web.mkWorld Web.new_rw [])
    = (fun (r : Web.Request) (w : Web.World) => w) second' (Web.mkWorld Web.new_rw []) /\
    Tracker.guidFromContext (Web.q_ctx second') = ("g-7"%string, true).
Proof.
  intros net req.
  assert (Hne : TrackerApp.guid_of "fresh" req <> ""%string) by discriminate.
  split; [exact Hne|].
  destruct (guid_travels_with_outgoing_call "fresh" net net req
              (Web.mkWorld Web.new_rw [])) as [_ [_ H]].
  exact (H Hne "other"%string (fun r w => w) (TrackerApp.outgoing "fresh" net req)
           (Web.mkWorld Web.new_rw []) eq_refl).
Defined.

Lemma Log_with_guid ctx g m w :
  Tracker.guidFromContext ctx = (g, true) ->
  TrackerApp.Log ctx m w
  = Web.mkWorld (Web.rw w) (Web.stdout w ++ [("GUID: " ++ g ++ " - " ++ m)%string]).
Proof. intros H. unfold TrackerApp.Log. now rewrite H. Qed.

(** X13 -- every line of the service carries the GUID.  Serving [/first]
    prints one or two lines, each of the form [GUID: g - message] with [g]
    the GUID of the request; the first is [starting Process with] followed
    by the [data] parameter, and a second one is printed exactly when the
    call to the remote end could not be built or made, or came back without
    a body. *)
Theorem first_route_lines_carry_guid
  (fresh : string) (net : TrackerApp.Network) (req : Web.Request) (w : Web.World) :
  let g := TrackerApp.guid_of fresh req in
  let tag := fun m => ("GUID: " ++ g ++ " - " ++ m)%string in
  let data := Http.Query_Get (Web.q_query req) "data" in
  exists more,
    Web.stdout (TrackerApp.first_route fresh net req w)
    = Web.stdout w ++ map tag (("starting Process with " ++ data)%string :: more) /\
    more =
    match TrackerApp.NewRequest net (TrackerApp.second_url req) with
    | Some err => [("error building remote request:" ++ Error err)%string]
    | None =>
        match TrackerApp.Do net (TrackerApp.outgoing fresh net req) with
        | TrackerApp.DoErr err => [("error building remote request:" ++ Error err)%string]
        | TrackerApp.DoResp None => ["empty response from second"%string]
        | TrackerApp.DoResp (Some _) => []
        end
    end.
Proof.
  intros g tag data. eexists. split; [|reflexivity].
  rewrite first_route_unfold. cbv zeta.
  assert (Hg : Tracker.guidFromContext
                 (Tracker.contextWithGUID (Web.q_ctx req) (TrackerApp.guid_of fresh req))
               = (g, true)).
  { unfold Tracker.guidFromContext, Tracker.contextWithGUID.
    now rewrite Value_WithValue. }
  destruct (TrackerApp.NewRequest net (TrackerApp.second_url req)) as [e|].
  - rewrite !(Log_with_guid _ _ _ _ Hg). simpl. now rewrite <- app_assoc.
  - destruct (TrackerApp.Do net (TrackerApp.outgoing fresh net req))
      as [e|[[out [e|]]|]];
      rewrite !(Log_with_guid _ _ _ _ Hg); simpl; rewrite <- ?app_assoc; reflexivity.
Qed.

(** X14 -- what [/first] answers.  On a writer whose header is still
    unwritten: when the outgoing request cannot be built, the call fails or
    reading the body fails, the status is 500 and the error text is appended
    to the body (text already read is discarded); when the response has no
    body the status is 200 and nothing is appended; otherwise the status is
    200 and the text read is appended. *)
Theorem first_route_answer
  (fresh : string) (net : TrackerApp.Network) (req : Web.Request) (w : Web.World)
  (Hfresh : Web.rw_status (Web.rw w) = None) :
  let w' := TrackerApp.first_route fresh net req w in
  (Web.rw_status (Web.rw w'), Web.rw_body (Web.rw w'))
  = match TrackerApp.NewRequest net (TrackerApp.second_url req) with
    | Some err => (Some 500%Z, (Web.rw_body (Web.rw w) ++ Error err)%string)
    | None =>
        match TrackerApp.Do net (TrackerApp.outgoing fresh net req) with
        | TrackerApp.DoErr err
        | TrackerApp.DoResp (Some (_, Some err)) =>
            (Some 500%Z, (Web.rw_body (Web.rw w) ++ Error err)%string)
        | TrackerApp.DoResp None => (Some 200%Z, (Web.rw_body (Web.rw w) ++ "")%string)
        | TrackerApp.DoResp (Some (out, None)) =>
            (Some 200%Z, (Web.rw_body (Web.rw w) ++ out)%string)
        end
    end.
Proof.
  intros w'. subst w'. rewrite first_route_unfold. cbv zeta.
  unfold TrackerApp.Log.
  destruct (Tracker.guidFromContext _) as [g ok].
  destruct (TrackerApp.NewRequest net (TrackerApp.second_url req)) as [e|].
  - simpl. unfold Web.rw_Write, Web.rw_WriteHeader. simpl. rewrite Hfresh. reflexivity.
  - destruct (TrackerApp.Do net (TrackerApp.outgoing fresh net req))
      as [e|[[out [e|]]|]];
      simpl; unfold Web.rw_Write, Web.rw_WriteHeader; simpl; rewrite Hfresh; reflexivity.
Qed.

Lemma first_route_answer_witness :
  let net := TrackerApp.mkNetwork (fun _ => None) (fun _ => [])
               (fun r => TrackerApp.DoResp (Some ("partial", Some (Transport "reset")))) in
  let req := Web.mkRequest Background "/first?data=x" [("data", "x")] [] [] in
  let w := Web.mkWorld Web.new_rw [] in
  Web.rw_status (Web.rw w) = None /\
  (Web.rw_status (Web.rw (TrackerApp.first_route "fresh" net req w)),
   Web.rw_body (Web.rw (TrackerApp.first_route "fresh" net req w)))
  = (Some 500%Z, "reset"%string).
Proof.
  intros net req w. split; [reflexivity|].
  exact (first_route_answer "fresh" net req w eq_refl).
Defined.

(** ** Logging by level *)

Lemma Level_eqb_eq a b : Exercises.Level_eqb a b = true <-> a = b.
Proof.
  destruct a as [x], b as [y]. simpl. rewrite String.eqb_eq.
  split; [now intros -> | now intros [= ->]].
Qed.

Lemma Level_eqb_refl a : Exercises.Level_eqb a a = true.
Proof. now apply Level_eqb_eq. Qed.

Lemma Level_eqb_neq a b : Exercises.Level_eqb a b = false <-> a <> b.
Proof.
  split.
  - intros H E. apply Level_eqb_eq in E. congruence.
  - intros H. destruct (Exercises.Level_eqb a b) eqn:E; auto.
    apply Level_eqb_eq in E. contradiction.
Qed.

Lemma Log_without_level ctx level msg w :
  snd (Exercises.LogLevelFromContext ctx) = false ->
  Http.w_log (Exercises.Log ctx level msg w)
  = Http.w_log w ++ ["no log level available"%string].
Proof.
  unfold Exercises.Log.
  destruct (Exercises.LogLevelFromContext ctx) as [inLevel ok] eqn:Ectx.
  simpl. intros ->.
  assert (HinL : inLevel = MkLevel "").
  { unfold Exercises.LogLevelFromContext in Ectx.
    destruct (Value ctx Exercises.key) as [[l|s|n]|]; congruence. }
  subst inLevel. simpl. rewrite !andb_false_r. reflexivity.
Qed.

(** X15 -- what [Log] lets through.  With a level in the context, [Log]
    adds at most one line, the message itself: a [debug] message exactly
    when the context level is [debug], an [info] message exactly when it is
    [debug] or [info], a message of any other level never.  Without a level
    in the context it adds the warning [no log level available] and nothing
    else, for every level and message. *)
Theorem Log_filters_by_level
  (ctx : Context) (level : Level) (msg : string) (w : Http.World) :
  let w' := Exercises.Log ctx level msg w in
  Http.w_resp w' = Http.w_resp w /\ Http.w_timers w' = Http.w_timers w /\
  (forall inLevel, Exercises.LogLevelFromContext ctx = (inLevel, true) ->
     (Http.w_log w' = Http.w_log w ++ [msg] \/ Http.w_log w' = Http.w_log w) /\
     (level = Exercises.Debug ->
        (Http.w_log w' = Http.w_log w ++ [msg] <-> inLevel = Exercises.Debug)) /\
     (level = Exercises.Info ->
        (Http.w_log w' = Http.w_log w ++ [msg]
         <-> inLevel = Exercises.Debug \/ inLevel = Exercises.Info)) /\
     (level <> Exercises.Debug -> level <> Exercises.Info ->
        Http.w_log w' = Http.w_log w)) /\
  (snd (Exercises.LogLevelFromContext ctx) = false ->
     Http.w_log w' = Http.w_log w ++ ["no log level available"%string]).
Proof.
  intros w'. subst w'. unfold Exercises.Log.
  assert (Hgrow : forall (l : list string) m, l ++ [m] <> l).
  { intros l m E. apply (f_equal (@List.length string)) in E.
    rewrite length_app in E. simpl in E. lia. }
  destruct (Exercises.LogLevelFromContext ctx) as [inLevel ok] eqn:Ectx.
  split; [|split; [|split]].
  - destruct ok; simpl;
      destruct (Exercises.Level_eqb level Exercises.Debug && _);
      destruct (Exercises.Level_eqb level Exercises.Info && _); reflexivity.
  - destruct ok; simpl;
      destruct (Exercises.Level_eqb level Exercises.Debug && _);
      destruct (Exercises.Level_eqb level Exercises.Info && _); reflexivity.
  - intros inL [= <- ->]. simpl.
    destruct (Exercises.Level_eqb level Exercises.Debug) eqn:Ed;
      destruct (Exercises.Level_eqb level Exercises.Info) eqn:Ei;
      destruct (Exercises.Level_eqb inLevel Exercises.Debug) eqn:Ed';
      destruct (Exercises.Level_eqb inLevel Exercises.Info) eqn:Ei';
      simpl;
      rewrite ?Level_eqb_eq, ?Level_eqb_neq in *; subst;
      try discriminate;
      (split; [auto|]);
      (split; [intros E; try discriminate; split; try tauto; intros H; auto;
               try (exfalso; eapply Hgrow; eauto; fail);
               try (symmetry in H; exfalso; eapply Hgrow; eauto; fail)
              |]);
      (split; [intros E; try discriminate; split; try tauto; intros H; auto;
               try (exfalso; eapply Hgrow; eauto; fail);
               try (symmetry in H; exfalso; eapply Hgrow; eauto; fail);
               try (destruct H; congruence)
              |]);
      try (intros H1 H2; congruence); auto.
  - intros Hno. rewrite <- Ectx in Hno.
    rewrite <- (Log_without_level ctx level msg w Hno).
    unfold Exercises.Log. now rewrite Ectx.
Qed.

Lemma Log_filters_by_level_witness :
  let ctx := Exercises.ContextWithLogLevel Background Exercises.Info in
  let w := Http.mkWorld [] [] [] 0 [] in
  Exercises.LogLevelFromContext ctx = (Exercises.Info, true) /\
  Http.w_log (Exercises.Log ctx Exercises.Debug "detail" w) = Http.w_log w.
Proof.
  intros ctx w. split; [reflexivity|].
  destruct (Log_filters_by_level ctx Exercises.Debug "detail" w) as [_ [_ [H _]]].
  destruct (H Exercises.Info eq_refl) as [_ [Hd _]].
  destruct (Hd eq_refl) as [Hto _].
  destruct (H Exercises.Info eq_refl) as [[Hadd|Hsame] _]; [|exact Hsame].
  discriminate (Hto Hadd).
Defined.

(** X16 -- the log-level middleware.  When the first [log_level] query value
    is [debug] or [info], the wrapped handler runs in the incoming world on
    the request with only its context replaced, and in that context the log
    level is the one asked for, whatever level the incoming context held.
    For any other value, or none, the handler runs on the incoming request
    itself, after exactly one warning line. *)
Theorem log_level_middleware_sets_level
  (h : Http.Handler) (r : Http.Request) (w : Http.World) :
  let param := Http.Query_Get (Http.r_query r) "log_level" in
  (forall level, (param = "debug"%string /\ level = Exercises.Debug) \/
                 (param = "info"%string /\ level = Exercises.Info) ->
     exists r',
       Exercises.ExtractLogLevelMiddleware h r w = h r' w /\
       Exercises.LogLevelFromContext (Http.r_ctx r') = (level, true) /\
       Http.r_query r' = Http.r_query r /\
       Deadline (Http.r_ctx r') = Deadline (Http.r_ctx r)) /\
  (param <> "debug"%string -> param <> "info"%string ->
     exists w1 line,
       Exercises.ExtractLogLevelMiddleware h r w = h r w1 /\
       Http.w_log w1 = Http.w_log w ++ [line] /\
       Http.w_resp w1 = Http.w_resp w /\ Http.w_timers w1 = Http.w_timers w).
Proof.
  intros param. subst param. unfold Exercises.ExtractLogLevelMiddleware. split.
  - intros level [[Hp ->]|[Hp ->]]; rewrite Hp; simpl;
      eexists; (split; [reflexivity|]); repeat split.
  - intros Hd Hi. apply String.eqb_neq in Hd, Hi. rewrite Hd, Hi. simpl.
    eexists. eexists. split; [reflexivity|]. repeat split.
Qed.

Lemma log_level_middleware_sets_level_witness :
  let r := Http.mkRequest (Exercises.ContextWithLogLevel Background Exercises.Debug)
             [("log_level", "info"); ("log_level", "debug")] in
  let w := Http.mkWorld [] [] [] 0 [] in
  Http.Query_Get (Http.r_query r) "log_level" = "info"%string /\
  exists r',
    Exercises.ExtractLogLevelMiddleware (fun _ w => w) r w
    = (fun (_ : Http.Request) (w : Http.World) => w) r' w /\
    Exercises.LogLevelFromContext (Http.r_ctx r') = (Exercises.Info, true).
Proof.
  intros r w. split; [reflexivity|].
  destruct (log_level_middleware_sets_level (fun _ w => w) r w) as [H _].
  destruct (H Exercises.Info (or_intror (conj eq_refl eq_refl)))
    as [r' [H1 [H2 _]]].
  exists r'. split; [exact H1 | exact H2].
Defined.

(** X17 -- the [/log] route.  With [log_level=debug] the route logs its
    message and nothing else; with [log_level=info] it logs nothing, the
    message being a debug one; with any other value, on a request whose
    context holds no level, it logs two warnings, the second being
    [no log level available], and not the message. *)
Theorem log_route_logs_only_at_debug (r : Http.Request) (w : Http.World) :
  let param := Http.Query_Get (Http.r_query r) "log_level" in
  let msg := "the log level is set and everything works properly"%string in
  let w' := ExercisesApp.log_route r w in
  (param = "debug"%string -> Http.w_log w' = Http.w_log w ++ [msg]) /\
  (param = "info"%string -> Http.w_log w' = Http.w_log w) /\
  (param <> "debug"%string -> param <> "info"%string ->
   snd (Exercises.LogLevelFromContext (Http.r_ctx r)) = false ->
   exists line,
     Http.w_log w' = Http.w_log w ++ [line; "no log level available"%string] /\
     line <> msg).
Proof.
  intros param msg w'. subst param msg w'.
  unfold ExercisesApp.log_route, ExercisesApp.log_handler.
  split; [|split].
  - intros Hp.
    unfold Exercises.ExtractLogLevelMiddleware. rewrite Hp. simpl. reflexivity.
  - intros Hp.
    unfold Exercises.ExtractLogLevelMiddleware. rewrite Hp. simpl. reflexivity.
  - intros Hd Hi Hno.
    unfold Exercises.ExtractLogLevelMiddleware.
    apply String.eqb_neq in Hd, Hi. rewrite Hd, Hi.
    cbn -[Exercises.Log Exercises.LogLevelFromContext].
    rewrite (Log_without_level _ _ _ _ Hno). simpl.
    eexists. split; [now rewrite <- app_assoc|]. discriminate.
Qed.

Lemma log_route_logs_only_at_debug_witness :
  let r := Http.mkRequest Background [("log_level", "debug")] in
  let w := Http.mkWorld [] [] [] 0 [] in
  Http.Query_Get (Http.r_query r) "log_level" = "debug"%string /\
  Http.w_log (ExercisesApp.log_route r w)
  = [] ++ ["the log level is set and everything works properly"%string].
Proof.
  intros r w. split; [reflexivity|].
  destruct (log_route_logs_only_at_debug r w) as [H _].
  exact (H eq_refl).
Defined.

(** X25 -- the warning of the log-level middleware.  For a [log_level]
    value other than [debug] and [info] (none included) the middleware makes
    one log record before the wrapped handler runs: its message is
    [invalid param value:] and the value itself is not part of the message
    but the record's only attribute, under the key [!BADKEY] that [slog]
    gives an argument without a value.  For [debug] and [info] the wrapped
    handler starts in the incoming world. *)
Theorem invalid_log_level_is_reported
  (h : Http.Handler) (r : Http.Request) (w : Http.World) :
  let param := Http.Query_Get (Http.r_query r) "log_level" in
  (param <> "debug"%string -> param <> "info"%string ->
     exists w1,
       Exercises.ExtractLogLevelMiddleware h r w = h r w1 /\
       Http.w_log w1 = Http.w_log w ++ ["invalid param value:"%string] /\
       Http.w_attrs w1 = Http.w_attrs w ++ [[("!BADKEY"%string, param)]] /\
       Http.w_resp w1 = Http.w_resp w /\ Http.w_now w1 = Http.w_now w /\
       Http.w_timers w1 = Http.w_timers w) /\
  (param = "debug"%string \/ param = "info"%string ->
     exists r', Exercises.ExtractLogLevelMiddleware h r w = h r' w).
Proof.
  intros param. subst param. unfold Exercises.ExtractLogLevelMiddleware. split.
  - intros Hd Hi. apply String.eqb_neq in Hd, Hi. rewrite Hd, Hi. simpl.
    eexists. split; [reflexivity|]. repeat split.
  - intros [Hp|Hp]; rewrite Hp; simpl; eexists; reflexivity.
Qed.

Lemma invalid_log_level_is_reported_witness :
  let r := Http.mkRequest Background [("log_level", "trace")] in
  let w := Http.mkWorld [] [] [] 0 [] in
  Http.Query_Get (Http.r_query r) "log_level" <> "debug"%string /\
  Http.Query_Get (Http.r_query r) "log_level" <> "info"%string /\
  exists w1,
    Exercises.ExtractLogLevelMiddleware (fun _ w => w) r w = w1 /\
    Http.w_log w1 = ["invalid param value:"%string] /\
    Http.w_attrs w1 = [[("!BADKEY"%string, "trace"%string)]].
Proof.
  intros r w.
  assert (Hd : Http.Query_Get (Http.r_query r) "log_level" <> "debug"%string)
    by discriminate.
  assert (Hi : Http.Query_Get (Http.r_query r) "log_level" <> "info"%string)
    by discriminate.
  split; [exact Hd|]. split; [exact Hi|].
  destruct (invalid_log_level_is_reported (fun _ w => w) r w) as [H _].
  destruct (H Hd Hi) as [w1 [H1 [H2 [H3 _]]]].
  exists w1. split; [exact H1|]. split; [exact H2 | exact H3].
Defined.

(** ** The random-sum loop *)

Lemma wrap_add_l a b : RandomSum.wrap (RandomSum.wrap a + b) = RandomSum.wrap (a + b).
Proof.
  unfold RandomSum.wrap. f_equal.
  replace ((a + 2 ^ 63) mod 2 ^ 64 - 2 ^ 63 + b + 2 ^ 63)%Z
    with ((a + 2 ^ 63) mod 2 ^ 64 + b)%Z by lia.
  rewrite Zplus_mod_idemp_l. f_equal. lia.
Qed.

Lemma wrap_small z : (- 2 ^ 63 <= z < 2 ^ 63)%Z -> RandomSum.wrap z = z.
Proof.
  intros H. unfold RandomSum.wrap. rewrite Z.mod_small; lia.
Qed.

Lemma loop_runs (env : list (bool * Z)) : forall (i0 s0 v0 : Z) (k : nat),
  k <= List.length env ->
  (forall j, j < k ->
     nth j (v0 :: map snd env) 0%Z <> 1234%Z /\ fst (nth j env (false, 0%Z)) = false) ->
  RandomSum.wrap i0 = i0 -> RandomSum.wrap s0 = s0 ->
  let vs := v0 :: map snd env in
  (nth k vs 0%Z = 1234%Z ->
     RandomSum.loop env i0 s0 v0
     = Some (RandomSum.mkOutcome "number reached"
               (RandomSum.wrap (i0 + Z.of_nat k))
               (RandomSum.wrap (s0 + RandomSum.total (firstn k vs))))) /\
  (nth k vs 0%Z <> 1234%Z -> fst (nth k env (false, 0%Z)) = true ->
     RandomSum.loop env i0 s0 v0
     = Some (RandomSum.mkOutcome "timeout"
               (RandomSum.wrap (i0 + Z.of_nat k))
               (RandomSum.wrap (s0 + RandomSum.total (firstn (S k) vs))))).
Proof.
  induction env as [|[t next] env IH]; intros i0 s0 v0 k Hk Hbefore Hi Hs vs.
  - assert (k = 0) by (simpl in Hk; lia). subst k. subst vs. simpl. split.
    + intros ->. simpl. rewrite !Z.add_0_r. now rewrite Hi, Hs.
    + intros _ H. discriminate H.
  - destruct k as [|k].
    + subst vs. simpl. split.
      * intros ->. simpl. rewrite !Z.add_0_r. now rewrite Hi, Hs.
      * intros Hv Ht. simpl in Ht. subst t.
        apply Z.eqb_neq in Hv. rewrite Hv.
        rewrite !Z.add_0_r. now rewrite Hi.
    + destruct (Hbefore 0 ltac:(lia)) as [Hv0 Ht0]. simpl in Hv0, Ht0. subst t.
      assert (Hk' : k <= List.length env) by (simpl in Hk; lia).
      assert (Hbefore' : forall j, j < k ->
                nth j (next :: map snd env) 0%Z <> 1234%Z /\
                fst (nth j env (false, 0%Z)) = false).
      { intros j Hj. destruct (Hbefore (S j) ltac:(lia)) as [H1 H2]. auto. }
      destruct (IH (RandomSum.wrap (i0 + 1)) (RandomSum.wrap (s0 + v0)) next k Hk'
                  Hbefore')
        as [IH1 IH2].
      { rewrite <- (Z.add_0_r (RandomSum.wrap (i0 + 1))) at 1.
        rewrite wrap_add_l. now rewrite Z.add_0_r. }
      { rewrite <- (Z.add_0_r (RandomSum.wrap (s0 + v0))) at 1.
        rewrite wrap_add_l. now rewrite Z.add_0_r. }
      subst vs. apply Z.eqb_neq in Hv0.
      split.
      * intros Hv. simpl in Hv. simpl RandomSum.loop. rewrite Hv0.
        rewrite (IH1 Hv). rewrite !wrap_add_l.
        change (firstn (S k) (v0 :: map snd ((false, next) :: env)))
          with (v0 :: firstn k (next :: map snd env)).
        change (RandomSum.total (v0 :: firstn k (next :: map snd env)))
          with (v0 + RandomSum.total (firstn k (next :: map snd env)))%Z.
        replace (i0 + 1 + Z.of_nat k)%Z with (i0 + Z.of_nat (S k))%Z by lia.
        now rewrite Z.add_assoc.
      * intros Hv Ht. simpl in Hv, Ht. simpl RandomSum.loop. rewrite Hv0.
        rewrite (IH2 Hv Ht). rewrite !wrap_add_l.
        change (firstn (S (S k)) (v0 :: map snd ((false, next) :: env)))
          with (v0 :: firstn (S k) (next :: map snd env)).
        change (RandomSum.total (v0 :: firstn (S k) (next :: map snd env)))
          with (v0 + RandomSum.total (firstn (S k) (next :: map snd env)))%Z.
        replace (i0 + 1 + Z.of_nat k)%Z with (i0 + Z.of_nat (S k))%Z by lia.
        now rewrite Z.add_assoc.
Qed.

(** X18 -- the number is reached.  If the first 1234 among the successive
    values of [v] (0, then the random draws) is the value of iteration [k],
    and no timeout is observed in the iterations before, the loop ends with
    reason [number reached], [i = k], and the sum of the [k] values before
    it: the 1234 itself is never added (all in 64-bit arithmetic). *)
Theorem random_sum_number_reached (env : list (bool * Z)) (k : nat)
  (Hk : k <= List.length env)
  (Hbefore : forall j, j < k ->
     nth j (RandomSum.values env) 0%Z <> 1234%Z /\
     fst (nth j env (false, 0%Z)) = false)
  (Hhit : nth k (RandomSum.values env) 0%Z = 1234%Z) :
  RandomSum.exercise2 env
  = Some (RandomSum.mkOutcome "number reached"
            (RandomSum.wrap (Z.of_nat k))
            (RandomSum.wrap (RandomSum.total (firstn k (RandomSum.values env))))).
Proof.
  destruct (loop_runs env 0 0 0 k Hk Hbefore eq_refl eq_refl) as [H _].
  exact (H Hhit).
Qed.

Lemma random_sum_number_reached_witness :
  let env := [(false, 7%Z); (false, 1234%Z); (true, 5%Z)] in
  2 <= List.length env /\
  nth 2 (RandomSum.values env) 0%Z = 1234%Z /\
  RandomSum.exercise2 env = Some (RandomSum.mkOutcome "number reached" 2 7).
Proof.
  intros env. split; [simpl; lia|]. split; [reflexivity|].
  assert (Hb : forall j, j < 2 ->
            nth j (RandomSum.values env) 0%Z <> 1234%Z /\
            fst (nth j env (false, 0%Z)) = false).
  { intros [|[|j]] Hj; [split; [discriminate|reflexivity]
                       |split; [discriminate|reflexivity] | lia]. }
  exact (random_sum_number_reached env 2 ltac:(simpl; lia) Hb eq_refl).
Defined.

(** X19 -- the timeout.  If the timeout is first observed in iteration [k],
    no value up to and including that of iteration [k] being 1234, the loop
    ends with reason [timeout] and [i = k], the interrupted iteration not
    being counted, while the sum does include the value of that iteration:
    it is the sum of [k + 1] values. *)
Theorem random_sum_timeout (env : list (bool * Z)) (k : nat)
  (Hk : k < List.length env)
  (Hbefore : forall j, j < k ->
     nth j (RandomSum.values env) 0%Z <> 1234%Z /\
     fst (nth j env (false, 0%Z)) = false)
  (Hvalue : nth k (RandomSum.values env) 0%Z <> 1234%Z)
  (Htimeout : fst (nth k env (false, 0%Z)) = true) :
  RandomSum.exercise2 env
  = Some (RandomSum.mkOutcome "timeout"
            (RandomSum.wrap (Z.of_nat k))
            (RandomSum.wrap (RandomSum.total (firstn (S k) (RandomSum.values env))))).
Proof.
  destruct (loop_runs env 0 0 0 k (Nat.lt_le_incl _ _ Hk) Hbefore eq_refl eq_refl)
    as [_ H].
  exact (H Hvalue Htimeout).
Qed.

Lemma random_sum_timeout_witness :
  let env := [(false, 7%Z); (true, 1234%Z)] in
  1 < List.length env /\
  fst (nth 1 env (false, 0%Z)) = true /\
  RandomSum.exercise2 env = Some (RandomSum.mkOutcome "timeout" 1 7).
Proof.
  intros env. split; [simpl; lia|]. split; [reflexivity|].
  assert (Hb : forall j, j < 1 ->
            nth j (RandomSum.values env) 0%Z <> 1234%Z /\
            fst (nth j env (false, 0%Z)) = false).
  { intros [|j] Hj; [split; [discriminate|reflexivity] | lia]. }
  exact (random_sum_timeout env 1 ltac:(simpl; lia) Hb ltac:(discriminate) eq_refl).
Defined.

Lemma loop_bounds (env : list (bool * Z)) : forall (i0 s0 v0 : Z) o,
  Forall (fun d => 0 <= snd d < 100000000)%Z env ->
  (0 <= v0 < 100000000)%Z -> (0 <= i0)%Z ->
  (0 <= s0 <= i0 * 99999999)%Z ->
  (i0 + Z.of_nat (List.length env) <= 92233720000)%Z ->
  RandomSum.loop env i0 s0 v0 = Some o ->
  (i0 <= RandomSum.i o <= i0 + Z.of_nat (List.length env))%Z /\
  (0 <= RandomSum.sum o <= (RandomSum.i o + 1) * 99999999)%Z /\
  (RandomSum.reason o = "number reached"%string ->
     (RandomSum.sum o <= RandomSum.i o * 99999999)%Z).
Proof.
  induction env as [|[t next] env IH]; intros i0 s0 v0 o Hall Hv Hi Hs Hlen Hl;
    simpl in Hl.
  - destruct (v0 =? 1234)%Z; try discriminate. injection Hl as <-. simpl. lia.
  - destruct (v0 =? 1234)%Z.
    + injection Hl as <-. simpl. lia.
    + assert (Hw : RandomSum.wrap (s0 + v0) = (s0 + v0)%Z)
        by (apply wrap_small; lia).
      rewrite Hw in Hl. destruct t.
      * injection Hl as <-. simpl. split; [lia|]. split; [lia|]. discriminate.
      * assert (Hwi : RandomSum.wrap (i0 + 1) = (i0 + 1)%Z)
          by (apply wrap_small; lia).
        rewrite Hwi in Hl. inversion Hall as [|d env' Hd Hall']; subst.
        simpl in Hd. simpl List.length in Hlen.
        destruct (IH (i0 + 1)%Z (s0 + v0)%Z next o Hall' Hd ltac:(lia) ltac:(lia)
                    ltac:(lia) Hl) as [H1 [H2 H3]].
        split; [simpl List.length; lia|]. split; [lia|exact H3].
Qed.

(** X20 -- no overflow in any run that fits the time limit.  When every
    draw lies in the range of [rand.IntN(100_000_000)] and the loop ends
    within 92 233 720 000 iterations, the count is between 0 and the number
    of draws, and the sum is non-negative and at most 99 999 999 times the
    count, plus once more for the value of an iteration interrupted by the
    timeout: 64-bit addition never wraps. *)
Theorem random_sum_within_bounds (env : list (bool * Z)) (o : RandomSum.outcome)
  (Hrange : Forall (fun d => 0 <= snd d < 100000000)%Z env)
  (Hlen : (Z.of_nat (List.length env) <= 92233720000)%Z)
  (Hends : RandomSum.exercise2 env = Some o) :
  (0 <= RandomSum.i o <= Z.of_nat (List.length env))%Z /\
  (0 <= RandomSum.sum o <= (RandomSum.i o + 1) * 99999999)%Z /\
  (RandomSum.reason o = "number reached"%string ->
     (RandomSum.sum o <= RandomSum.i o * 99999999)%Z).
Proof.
  apply (loop_bounds env 0 0 0 o Hrange); try lia. exact Hends.
Qed.

Lemma random_sum_within_bounds_witness :
  let env := [(false, 99999999%Z); (true, 3%Z)] in
  Forall (fun d => 0 <= snd d < 100000000)%Z env /\
  RandomSum.exercise2 env = Some (RandomSum.mkOutcome "timeout" 1 99999999) /\
  (0 <= 99999999 <= (1 + 1) * 99999999)%Z.
Proof.
  intros env.
  assert (Hr : Forall (fun d => 0 <= snd d < 100000000)%Z env).
  { repeat constructor; simpl; lia. }
  split; [exact Hr|]. split; [reflexivity|].
  destruct (random_sum_within_bounds env (RandomSum.mkOutcome "timeout" 1 99999999)
              Hr ltac:(simpl; lia) eq_refl) as [_ [H _]].
  exact H.
Defined.

(* ------------------------------------------------------------------------- *)
(** * Further properties of the coordinator *)

Import CoordinatorMore.

Lemma queue_agrees_init : queue_agrees init.
Proof. split; [intros [|]; discriminate | reflexivity]. Qed.

Lemma step_queue_agrees l s s' :
  Inv s -> queue_agrees s -> step l s = Some s' -> queue_agrees s'.
Proof.
  intros HI [Hk Hm] Hs. pose proof (inv_nodup _ HI) as Hnd.
  pose proof (inv_queue _ HI) as Hq. clear HI.
  pose proof (Hk Status) as Hks. pose proof (Hk Delay) as Hkd. clear Hk.
  unfold queue_agrees.
  step_cases Hs; on_result_cases; simpl in *; subst; simpl in *.
  all: try (destruct (is_cancelled t) eqn:?; simpl).
  all: split; [intros [|] Hp; simpl in Hp; try discriminate; auto
              | intros Hmp; try discriminate; auto].
  all: try solve [destruct sp; simpl in *; try discriminate; auto].
  all: try solve [destruct dp; simpl in *; try discriminate; auto].
  all: try solve [destruct mp; simpl in *; try discriminate; auto].
  all: try solve [eexists; apply in_or_app; right; left; reflexivity].
  all: try solve [match goal with
                  | H : ?p = WParked -> exists m, In _ _ |- _ =>
                      destruct (H Hp) as [m0 Hin]; exists m0;
                      apply in_or_app; left; exact Hin
                  end].
  all: try solve [match goal with
                  | H : ?p = WParked -> exists m, _ \/ _ |- _ =>
                      destruct (H Hp) as [m0 [Hin|Hin]];
                      [discriminate Hin | exists m0; exact Hin]
                  end].
  all: try solve [exfalso; destruct sp; simpl in *; discriminate].
  all: try solve [exfalso; destruct dp; simpl in *; discriminate].
  all: try solve [destruct q; [reflexivity | discriminate]].
  all: try match goal with
       | E : is_cancelled _ = _, Hp : context[is_cancelled _] |- _ =>
           rewrite E in Hp; simpl in Hp
       end.
  all: auto.
  all: try solve [exfalso; destruct sp; simpl in *; discriminate].
  all: try solve [exfalso; destruct dp; simpl in *; discriminate].
Qed.

Lemma run_queue_agrees tr : forall s s',
  Inv s -> queue_agrees s -> run tr s = Some s' -> queue_agrees s'.
Proof.
  induction tr as [|l tr IH]; simpl; intros s s' HI HQ Hr.
  - now injection Hr as <-.
  - destruct (step l s) as [s1|] eqn:Es; try discriminate.
    apply (IH s1 s'); auto.
    + eapply step_Inv; eauto.
    + eapply step_queue_agrees; eauto.
Qed.

Lemma reachable_queue_agrees tr s : run tr init = Some s -> queue_agrees s.
Proof.
  intros Hr. eapply run_queue_agrees; [apply Inv_init | apply queue_agrees_init | exact Hr].
Qed.

Lemma worker_can_step w s :
  pc_of w s <> WParked -> pc_of w s <> WStopped ->
  exists l s', is_of w l = true /\ step l s = Some s'.
Proof.
  intros Hp Hs.
  destruct (pc_of w s) as [|d|c| |m| | |] eqn:E; try congruence.
  - exists (LStart w). eexists. simpl. rewrite E.
    split; [destruct w; reflexivity | reflexivity].
  - exists (LFinish w None (Err Canceled)).
    exists (set_pc w (snd (on_result w (Err Canceled)))
              (println (fst (on_result w (Err Canceled))) s)).
    simpl. rewrite E. rewrite andb_false_r.
    split; [destruct w; reflexivity |].
    destruct (on_result w (Err Canceled)); reflexivity.
  - exists (LCancel w). eexists. simpl. rewrite E.
    split; [destruct w; reflexivity | reflexivity].
  - exists (LReturn w). eexists. simpl. rewrite E.
    split; [destruct w; reflexivity | reflexivity].
  - exists (LSelect w false). eexists. simpl. rewrite E.
    split; [destruct w; reflexivity | reflexivity].
  - exists (LWake w). eexists. simpl. rewrite E.
    split; [destruct w; reflexivity | reflexivity].
Qed.

(** X21 -- no deadlock.  In every state an execution can reach, as long as
    [main] has not returned some goroutine can take a step: the two workers
    and the collector never all wait for each other.  Once [main] has
    returned, both workers have returned too and nothing remains to run. *)
Theorem coordinator_never_deadlocks (tr : list label) (s : state)
  (Hreach : run tr init = Some s) :
  (main_pc s <> MExit -> exists l s', step l s = Some s') /\
  (main_pc s = MExit ->
     status_pc s = WStopped /\ delay_pc s = WStopped /\
     forall l, step l s = None).
Proof.
  assert (HI : Inv s) by (apply reachable_Inv; now exists tr).
  destruct (reachable_queue_agrees _ _ Hreach) as [Hk Hm].
  split.
  - intros Hne.
    assert (Hw : forall w, pc_of w s <> WParked -> pc_of w s <> WStopped ->
                 exists l s', step l s = Some s').
    { intros w H1 H2. destruct (worker_can_step w s H1 H2) as (l & s' & _ & H).
      eauto. }
    destruct (main_pc s) eqn:Em; try congruence.
    + (* at the select *)
      exists (LMain false). simpl. unfold main_step. rewrite Em.
      unfold main_select, main_recv.
      destruct (sendq s) as [|[w m] q] eqn:Eq.
      * destruct (is_cancelled (tok s)); eauto.
      * rewrite (inv_queue _ HI w m) by (rewrite Eq; now left).
        destruct (is_cancelled (tok s)); eauto.
    + (* blocked in the select *)
      assert (Hc : is_cancelled (tok s) = false).
      { destruct (is_cancelled (tok s)) eqn:Ec; auto.
        pose proof (inv_park _ HI Ec) as Hp. unfold nobody_parked in Hp.
        rewrite Em in Hp. rewrite andb_false_r in Hp. discriminate. }
      apply (Hw Status).
      * intros Hp. destruct (Hk Status Hp) as [m Hin].
        rewrite (Hm eq_refl) in Hin. destruct Hin.
      * intros Hst. pose proof (inv_ret _ HI Status) as Hr.
        rewrite Hst in Hr. specialize (Hr eq_refl). congruence.
    + exists (LMain false). simpl. unfold main_step. rewrite Em. eauto.
    + exists (LMain false). simpl. unfold main_step. rewrite Em. eauto.
    + (* in wg.Wait() *)
      destruct (wg s =? 0)%Z eqn:Ew.
      * exists (LMain false). simpl. unfold main_step. rewrite Em, Ew. eauto.
      * assert (Hc : is_cancelled (tok s) = true)
          by (apply (inv_loop _ HI); now rewrite Em).
        pose proof (inv_park _ HI Hc) as Hp. unfold nobody_parked in Hp.
        apply andb_true_iff in Hp as [Hp Hpd].
        apply andb_true_iff in Hp as [_ Hps].
        apply Z.eqb_neq in Ew. rewrite (inv_wg _ HI) in Ew.
        unfold live_count in Ew.
        destruct (stopped (status_pc s)) eqn:Es.
        -- apply (Hw Delay).
           ++ intros E. simpl in E. rewrite E in Hpd. discriminate.
           ++ intros E. simpl in E. rewrite E in Ew. simpl in Ew. lia.
        -- apply (Hw Status).
           ++ intros E. simpl in E. rewrite E in Hps. discriminate.
           ++ intros E. simpl in E. rewrite E in Es. discriminate.
    + exists (LMain false). simpl. unfold main_step. rewrite Em. eauto.
    + exists (LMain false). simpl. unfold main_step. rewrite Em. eauto.
  - intros Em.
    assert (Hl : live_count s = 0%Z) by (apply (inv_final _ HI); now rewrite Em).
    unfold live_count in Hl.
    assert (Hs : status_pc s = WStopped).
    { destruct (status_pc s); simpl in Hl; try reflexivity;
        destruct (stopped (delay_pc s)); lia. }
    assert (Hd : delay_pc s = WStopped).
    { destruct (delay_pc s); simpl in Hl; try reflexivity;
        destruct (stopped (status_pc s)); lia. }
    split; [exact Hs|]. split; [exact Hd|].
    intros [w|w nr d|w|w|w b|w|b]; simpl; try (destruct w; simpl; rewrite ?Hs, ?Hd; reflexivity).
    unfold main_step. now rewrite Em.
Qed.

Lemma coordinator_never_deadlocks_witness :
  run (firstn 3 delay_fails_while_status_publishes) init <> None /\
  (exists l s',
     step l (final_of (firstn 3 delay_fails_while_status_publishes)) = Some s') .
Proof.
  split; [discriminate|].
  destruct (coordinator_never_deadlocks
              (firstn 3 delay_fails_while_status_publishes)
              (final_of (firstn 3 delay_fails_while_status_publishes))
              eq_refl) as [H _].
  apply H. discriminate.
Defined.

(** ** What is printed, and what is carried *)

Lemma loop_lines_app a b :
  loop_lines (a ++ b) = loop_lines a && loop_lines b.
Proof. unfold loop_lines. apply forallb_app. Qed.

Lemma error_lines_app a b :
  error_lines (a ++ b) = error_lines a && error_lines b.
Proof. unfold error_lines. apply forallb_app. Qed.

Lemma step_output_shape l s s' :
  Inv s -> output_shape s -> step l s = Some s' -> output_shape s'.
Proof.
  intros HI Hsh Hs.
  pose proof (inv_loop _ HI) as Hloop. pose proof (inv_final _ HI) as Hfin.
  clear HI. unfold output_shape, live_count in *.
  step_cases Hs; on_result_cases; simpl in *; subst; simpl in *;
    rewrite ?app_nil_r; try assumption.
  (* a worker calls cancelFunc, or main runs the deferred call *)
  all: try (destruct (is_cancelled t) eqn:Ec;
            [ rewrite (cancel_cancelled _ _ Ec); simpl; assumption
            | try (destruct mp; simpl in *;
                   try (specialize (Hloop eq_refl); discriminate); assumption) ]).
  (* the delay goroutine prints its error *)
  all: try (destruct mp; simpl in *;
            try (rewrite loop_lines_app, Hsh; reflexivity);
            try (exfalso; specialize (Hfin eq_refl); destruct (stopped sp); lia);
            destruct Hsh as (bf & af & -> & Hb & Ha);
            exists bf, (af ++ [InDelayGoroutine e]);
            rewrite <- app_assoc; simpl;
            (split; [reflexivity|]); split; auto;
            rewrite error_lines_app, Ha; reflexivity).
  all: try solve [destruct mp; try discriminate; exact Hsh].
  all: try solve [rewrite loop_lines_app, Hsh; reflexivity].
  all: try solve [exists o, []; repeat split; auto].
  all: try solve [destruct Hsh as (bf & af & -> & Hb & Ha); exists bf, af;
                  rewrite <- app_assoc; simpl; repeat split; auto].
  all: try solve [specialize (Hloop eq_refl); congruence].
Qed.

Lemma reachable_output_shape tr : forall s s',
  Inv s -> output_shape s -> run tr s = Some s' -> output_shape s'.
Proof.
  induction tr as [|l tr IH]; simpl; intros s s' HI Hsh Hr.
  - now injection Hr as <-.
  - destruct (step l s) as [s1|] eqn:Es; try discriminate.
    apply (IH s1 s'); auto.
    + eapply step_Inv; eauto.
    + eapply step_output_shape; eauto.
Qed.

Lemma cancelled_has_cause s :
  Inv s -> is_cancelled (tok s) = true ->
  exists c, Cause (tok s) = Some c /\ hd_error (calls s) = Some (Some c).
Proof.
  intros HI Hc. pose proof (inv_tok _ HI) as Ht. pose proof (inv_first _ HI) as Hf.
  destruct (calls s) as [|[e|] rest].
  - rewrite Ht in Hc. discriminate.
  - destruct (cancel_first_wins e rest) as [_ Hall].
    exists e. rewrite Ht, Hall. split; reflexivity.
  - congruence.
Qed.

(** X22 -- the output of a finished run.  When [main] has returned, standard
    output is: results and delay-worker errors printed during the loop, then
    the line [in main: cancelled!] with the cause, then possibly errors of
    the delay worker, then the line [context cause:] with the same cause,
    last.  So each of the two cause lines is printed exactly once, no result
    is printed after the first, and the cause shown is never nil. *)
Theorem output_of_a_finished_run (tr : list label) (s : state)
  (Hreach : run tr init = Some s)
  (Hdone : main_pc s = MExit) :
  exists before after c,
    out s = before ++ InMainCancelled (Some c) :: after ++ [ContextCause (Some c)] /\
    loop_lines before = true /\ error_lines after = true /\
    Cause (tok s) = Some c /\
    printed_results (out s) = printed_results before.
Proof.
  assert (HI : Inv s) by (apply reachable_Inv; now exists tr).
  assert (Hsh : output_shape s).
  { eapply reachable_output_shape; [apply Inv_init | reflexivity | exact Hreach]. }
  unfold output_shape in Hsh. rewrite Hdone in Hsh.
  destruct Hsh as (bf & af & Ho & Hb & Ha).
  assert (Hc : is_cancelled (tok s) = true)
    by (apply (inv_loop _ HI); now rewrite Hdone).
  destruct (cancelled_has_cause s HI Hc) as [c [Hcause _]].
  exists bf, af, c. rewrite Ho, Hcause. repeat split; auto.
    rewrite !printed_results_app. simpl. rewrite printed_results_app. simpl.
    assert (He : forall l, error_lines l = true -> printed_results l = []).
    { induction l as [|[m|x|e|x] l IHl]; simpl; intros H; try discriminate; auto. }
    rewrite (He _ Ha). now rewrite app_nil_r.
Qed.

Lemma output_of_a_finished_run_witness :
  run delay_fails_while_status_publishes init = Some after_shutdown /\
  main_pc after_shutdown = MExit /\
  exists before after c,
    out after_shutdown
    = before ++ InMainCancelled (Some c) :: after ++ [ContextCause (Some c)].
Proof.
  split; [reflexivity|]. split; [reflexivity|].
  destruct (output_of_a_finished_run delay_fails_while_status_publishes
              after_shutdown eq_refl eq_refl) as (bf & af & c & Ho & _).
  exists bf, af, c. exact Ho.
Defined.

#[local] Arguments message_of : simpl never.
#[local] Arguments names_worker : simpl never.

Lemma message_of_status : message_of Status "success from status".
Proof. reflexivity. Qed.

Lemma message_of_delay date : message_of Delay ("success from delay: " ++ date)%string.
Proof. now exists date. Qed.

Lemma payloads_init : well_formed_payloads init.
Proof.
  repeat split; simpl; try (intros [|]; discriminate); try discriminate;
    intros; contradiction.
Qed.

Lemma step_payloads l s s' :
  Inv s -> well_formed_payloads s -> step l s = Some s' -> well_formed_payloads s'.
Proof.
  intros HI (Hsel & Hque & Hgot & Hout & Hcan & Hcause) Hs.
  pose proof (inv_loop _ HI) as Hloop. clear HI.
  pose proof (Hsel Status) as Hsel_s. pose proof (Hsel Delay) as Hsel_d. clear Hsel.
  pose proof (Hcan Status) as Hcan_s. pose proof (Hcan Delay) as Hcan_d. clear Hcan.
  unfold well_formed_payloads.
  step_cases Hs; on_result_cases; simpl in *; subst; simpl in *;
    rewrite ?app_nil_r.
  all: try match goal with
       | |- context[cancel _ ?t0] =>
           destruct (is_cancelled t0) eqn:Ec; simpl;
           [ rewrite ?(cancel_cancelled _ _ Ec) | ]
       end.
  all: repeat split.
  all: repeat match goal with
       | |- forall w : worker, _ => intros [|]
       | |- forall _, _ => intro
       end; simpl in *.
  all: try discriminate; eauto using message_of_status, message_of_delay.
  all: repeat match goal with
       | H : WCancel _ = WCancel _ |- _ => injection H as <-
       | H : WSelect _ = WSelect _ |- _ => injection H as <-
       | H : MGot _ = MGot _ |- _ => injection H as <-
       | H : In _ (_ ++ _) |- _ => apply in_app_or in H; destruct H
       | H : In _ [_] |- _ => destruct H as [H|[]]
       | H : InMain _ = InMain _ |- _ => injection H as <-
       | H : _ \/ _ |- _ => destruct H
       | H : (_, _) = (_, _) |- _ => injection H as <- <-
       end; try discriminate; eauto using message_of_status, message_of_delay.
  all: try solve [unfold message_of; eexists; reflexivity].
  all: try solve [destruct dp; simpl in *; try discriminate; eauto].
  all: try solve [destruct sp; simpl in *; try discriminate; eauto].
  all: try solve [destruct mp; simpl in *; try discriminate; eauto].
  all: try solve [unfold Cause, cancel, is_cancelled in *;
                  destruct (err t); simpl in *; try discriminate;
                  match goal with
                  | H : Some _ = Some _ |- _ => injection H as <-
                  end; eauto].
  all: try contradiction.
  all: try solve [match goal with
                  | H : (_, _) = (_, _) |- _ => inversion H; subst; eauto
                  end].
  all: try solve [specialize (Hloop eq_refl); discriminate].
  all: try solve [match goal with
                  | H : context[is_cancelled _] |- _ =>
                      rewrite Ec in H; simpl in H; eauto
                  end].
Qed.

Lemma run_payloads tr : forall s s',
  Inv s -> well_formed_payloads s -> run tr s = Some s' -> well_formed_payloads s'.
Proof.
  induction tr as [|l tr IH]; simpl; intros s s' HI HP Hr.
  - now injection Hr as <-.
  - destruct (step l s) as [s1|] eqn:Es; try discriminate.
    apply (IH s1 s'); auto.
    + eapply step_Inv; eauto.
    + eapply step_payloads; eauto.
Qed.

(** X23 -- nothing is printed that no worker built.  In every execution,
    each result [main] prints or holds is [success from status] or
    [success from delay: ] followed by a date, and the recorded cause, once
    there is one, is [bad status] or an error wrapped under
    [in status goroutine: ] or [in delay goroutine: ]: it is never nil and
    never the bare [context.Canceled], so the final report always names the
    worker that failed. *)
Theorem reports_name_their_worker (tr : list label) (s : state)
  (Hreach : run tr init = Some s) :
  (forall m, In m (received s) ->
     m = "success from status"%string \/
     exists date, m = ("success from delay: " ++ date)%string) /\
  (is_cancelled (tok s) = true ->
     exists c, Cause (tok s) = Some c /\ names_worker c = true /\ c <> Canceled) /\
  (forall c, In (InMainCancelled c) (out s) \/ In (ContextCause c) (out s) ->
     exists e, c = Some e /\ names_worker e = true).
Proof.
  assert (HI : Inv s) by (apply reachable_Inv; now exists tr).
  assert (HP : well_formed_payloads s).
  { eapply run_payloads; [apply Inv_init | apply payloads_init | exact Hreach]. }
  destruct HP as (_ & _ & Hgot & Hout & _ & Hcause).
  assert (Hmsg : forall m, (exists w, message_of w m) ->
            m = "success from status"%string \/
            exists date, m = ("success from delay: " ++ date)%string).
  { intros m [[|] H]; [left | right]; exact H. }
  assert (Hc : is_cancelled (tok s) = true ->
          exists c, Cause (tok s) = Some c /\ names_worker c = true /\ c <> Canceled).
  { intros Hcan. destruct (cancelled_has_cause s HI Hcan) as [c [Hc _]].
    exists c. split; [exact Hc|]. split; [now apply Hcause|].
    intros ->. specialize (Hcause _ Hc). discriminate. }
  split; [|split].
  - intros m Hin. apply Hmsg. unfold received in Hin.
    apply in_app_or in Hin as [Hin|Hin].
    + apply Hout.
      clear - Hin. induction (out s) as [|[m'|c|e|c] o IH]; simpl in *; auto.
      destruct Hin as [->|Hin]; auto.
    + destruct (main_pc s) eqn:Em; try contradiction.
      destruct Hin as [->|[]]. now apply Hgot.
  - exact Hc.
  - intros c [Hin|Hin].
    + destruct (inv_out1 _ HI _ Hin) as [Hcan ->].
      destruct (Hc Hcan) as (e & He & Hn & _). eauto.
    + destruct (inv_out2 _ HI _ Hin) as [Hcan [-> _]].
      destruct (Hc Hcan) as (e & He & Hn & _). eauto.
Qed.

Lemma reports_name_their_worker_witness :
  run delay_fails_while_status_publishes init = Some after_shutdown /\
  is_cancelled (tok after_shutdown) = true /\
  exists c, Cause (tok after_shutdown) = Some c /\ names_worker c = true.
Proof.
  split; [reflexivity|]. split; [reflexivity|].
  destruct (reports_name_their_worker delay_fails_while_status_publishes
              after_shutdown eq_refl) as [_ [H _]].
  destruct (H eq_refl) as (c & Hc & Hn & _).
  exists c. split; [exact Hc | exact Hn].
Defined.


(** ** The program can always shut down *)

(** A worker that is not blocked, publishing or done can, by itself, run
    into a failing call and cancel. *)
Lemma drive_to_cancel w s :
  drivable (pc_of w s) = true ->
  exists tr' s', run tr' s = Some s' /\ is_cancelled (tok s') = true.
Proof.
  intros Hd. destruct s as [t sp dp mp q n o cs].
  destruct w; simpl in Hd.
  - destruct sp as [|d|c| | | | |]; try discriminate.
    + exists [LStart Status; LFinish Status None (Err Canceled); LCancel Status].
      eexists. simpl. rewrite andb_false_r. simpl.
      split; [reflexivity | apply is_cancelled_cancel].
    + exists [LFinish Status None (Err Canceled); LCancel Status].
      eexists. simpl. rewrite andb_false_r. simpl.
      split; [reflexivity | apply is_cancelled_cancel].
    + exists [LCancel Status]. eexists. simpl.
      split; [reflexivity | apply is_cancelled_cancel].
    + exists [LWake Status; LStart Status; LFinish Status None (Err Canceled);
              LCancel Status].
      eexists. simpl. rewrite andb_false_r. simpl.
      split; [reflexivity | apply is_cancelled_cancel].
  - destruct dp as [|d|c| | | | |]; try discriminate.
    + exists [LStart Delay; LFinish Delay None (Err Canceled); LCancel Delay].
      eexists. simpl. rewrite andb_false_r. simpl.
      split; [reflexivity | apply is_cancelled_cancel].
    + exists [LFinish Delay None (Err Canceled); LCancel Delay].
      eexists. simpl. rewrite andb_false_r. simpl.
      split; [reflexivity | apply is_cancelled_cancel].
    + exists [LCancel Delay]. eexists. simpl.
      split; [reflexivity | apply is_cancelled_cancel].
    + exists [LWake Delay; LStart Delay; LFinish Delay None (Err Canceled);
              LCancel Delay].
      eexists. simpl. rewrite andb_false_r. simpl.
      split; [reflexivity | apply is_cancelled_cancel].
Qed.

Lemma step_then l s s1 (P : state -> Prop) :
  step l s = Some s1 ->
  (exists tr' s', run tr' s1 = Some s' /\ P s') ->
  exists tr' s', run tr' s = Some s' /\ P s'.
Proof.
  intros Hs (tr' & s' & Hr & HP). exists (l :: tr'), s'. simpl. rewrite Hs. auto.
Qed.

Lemma after_select_drivable w : drivable (after_select w) = true.
Proof. destruct w; reflexivity. Qed.

(** While the token is active, some schedule gets it cancelled. *)
Lemma can_reach_cancellation s :
  Inv s -> queue_agrees s -> is_cancelled (tok s) = false ->
  exists tr' s', run tr' s = Some s' /\ is_cancelled (tok s') = true.
Proof.
  intros HI [Hk Hm] Hc.
  destruct (drivable (pc_of Status s)) eqn:Ds; [now apply (drive_to_cancel Status)|].
  assert (Hloop : in_loop (main_pc s) = true).
  { destruct (in_loop (main_pc s)) eqn:E; auto.
    pose proof (inv_loop _ HI E). congruence. }
  assert (Hsp : exists m, status_pc s = WSelect m \/ status_pc s = WParked).
  { pose proof (inv_ret _ HI Status) as Hr. simpl in Ds, Hr.
    destruct (status_pc s) as [| | | |m| | |]; simpl in *; try discriminate;
      try (specialize (Hr eq_refl); congruence).
    - exists m. now left.
    - exists ""%string. now right. }
  destruct Hsp as [m Hsp].
  (* first bring main to its select, if it holds a message *)
  assert (Hmain : forall s0, Inv s0 -> queue_agrees s0 ->
            is_cancelled (tok s0) = false -> status_pc s0 = status_pc s ->
            main_pc s0 = MSelect \/ main_pc s0 = MParked ->
            exists tr' s', run tr' s0 = Some s' /\ is_cancelled (tok s') = true).
  { clear Hloop Hk Hm HI Hc. intros s0 HI0 [Hk0 Hm0] Hc0 Hst [Hms|Hmp].
    - (* main at its select *)
      destruct (sendq s0) as [|[w0 m0] q0] eqn:Eq.
      + (* empty queue: main blocks, then the status worker hands over *)
        destruct Hsp as [Hsel|Hpk].
        * assert (S1 : step (LMain false) s0 = Some (set_main MParked s0)).
          { simpl. unfold main_step, main_select. now rewrite Hms, Eq, Hc0. }
          apply (step_then _ _ _ _ S1).
          assert (S2 : step (LSelect Status false) (set_main MParked s0)
                       = Some (set_pc Status WSleep
                                 (set_main (MGot m) (set_main MParked s0)))).
          { simpl. rewrite Hst, Hsel. unfold worker_select. simpl.
            now rewrite Hc0. }
          apply (step_then _ _ _ _ S2).
          apply (drive_to_cancel Status). reflexivity.
        * exfalso. destruct (Hk0 Status) as [m1 Hin].
          { simpl. now rewrite Hst. }
          try rewrite Eq in Hin. destruct Hin.
      + (* a sender is queued: main takes its message and releases it *)
        assert (Hpk0 : pc_of w0 s0 = WParked).
        { apply (inv_queue _ HI0 w0 m0). rewrite Eq. now left. }
        assert (S1 : step (LMain false) s0
                     = Some (set_pc w0 (after_select w0)
                               (set_sendq q0 (set_main (MGot m0) s0)))).
        { simpl. unfold main_step, main_select, main_recv.
          now rewrite Hms, Eq, Hc0, Hpk0. }
        apply (step_then _ _ _ _ S1).
        apply (drive_to_cancel w0). rewrite pc_of_set_pc.
        apply after_select_drivable.
    - (* main blocked: nobody is queued, the status worker is at its select *)
      destruct Hsp as [Hsel|Hpk].
      + assert (S2 : step (LSelect Status false) s0
                     = Some (set_pc Status WSleep (set_main (MGot m) s0))).
        { simpl. rewrite Hst, Hsel. unfold worker_select. now rewrite Hmp, Hc0. }
        apply (step_then _ _ _ _ S2).
        apply (drive_to_cancel Status). reflexivity.
      + exfalso. destruct (Hk0 Status) as [m1 Hin].
        { simpl. now rewrite Hst. }
        rewrite (Hm0 Hmp) in Hin. destruct Hin. }
  assert (Hcases : main_pc s = MSelect \/ main_pc s = MParked \/
                   exists m0, main_pc s = MGot m0).
  { destruct (main_pc s); try discriminate; eauto. }
  destruct Hcases as [Em|[Em|[m0 Em]]].
  - apply (Hmain s); auto. now split.
  - apply (Hmain s); auto. now split.
  - assert (S0 : step (LMain false) s
                 = Some (set_main MSelect (println [InMain m0] s))).
    { simpl. unfold main_step. now rewrite Em. }
    apply (step_then _ _ _ _ S0).
    apply Hmain; auto.
    + eapply step_Inv; eauto.
    + eapply step_queue_agrees; eauto. now split.
Qed.

Lemma step_stopped_stays w l s s' :
  pc_of w s = WStopped -> step l s = Some s' -> pc_of w s' = WStopped.
Proof.
  intros Hp Hs.
  destruct w; step_cases Hs; on_result_cases; simpl in *; subst; simpl in *;
    try discriminate; auto.
  all: destruct (is_cancelled t); reflexivity.
Qed.

Lemma run_stopped_stays w tr : forall s s',
  pc_of w s = WStopped -> run tr s = Some s' -> pc_of w s' = WStopped.
Proof.
  induction tr as [|l tr IH]; simpl; intros s s' Hp Hr.
  - now injection Hr as <-.
  - destruct (step l s) as [s1|] eqn:Es; try discriminate.
    eapply IH; [eapply step_stopped_stays; eauto | exact Hr].
Qed.

(** Once the token is cancelled, each worker can run to its return. *)
Lemma worker_stops_when_cancelled w s :
  Inv s -> is_cancelled (tok s) = true ->
  exists tr' s', run tr' s = Some s' /\ pc_of w s' = WStopped.
Proof.
  intros HI Hc. pose proof (inv_park _ HI Hc) as Hp.
  assert (Hfin : forall s0, is_cancelled (tok s0) = true ->
            winding_down (pc_of w s0) = true ->
            exists tr' s', run tr' s0 = Some s' /\ pc_of w s' = WStopped).
  { intros s0 Hc0 Hw0.
    destruct (winding_down_finishes w s0 Hc0 Hw0) as (tr' & s' & _ & _ & Hr & Hs & _).
    eauto. }
  destruct (winding_down (pc_of w s)) eqn:Ew; [now apply Hfin|].
  destruct (pc_of w s) as [|[|]| | |m| | |] eqn:Epc; try discriminate.
  - (* in flight since before the cancellation *)
    assert (S1 : step (LFinish w None (Err Canceled)) s
                 = Some (set_pc w (snd (on_result w (Err Canceled)))
                           (println (fst (on_result w (Err Canceled))) s))).
    { simpl. rewrite Epc. simpl. destruct (on_result w (Err Canceled)); reflexivity. }
    apply (step_then _ _ _ _ S1). apply Hfin.
    + destruct w; exact Hc.
    + rewrite pc_of_set_pc. destruct w; reflexivity.
  - (* at its select: the Done branch *)
    assert (S1 : step (LSelect w true) s = Some (set_pc w (after_select w) s)).
    { simpl. rewrite Epc. f_equal. unfold worker_select. rewrite Hc.
      destruct (main_pc s); reflexivity. }
    apply (step_then _ _ _ _ S1). apply Hfin.
    + destruct w; exact Hc.
    + rewrite pc_of_set_pc. destruct w; reflexivity.
  - (* blocked: impossible under a cancelled token *)
    unfold nobody_parked in Hp.
    destruct w; simpl in Epc; rewrite Epc in Hp; simpl in Hp;
      rewrite ?andb_false_r in Hp; discriminate.
Qed.

(** With the token cancelled and both workers returned, [main] runs to its
    end. *)
Lemma main_exits s :
  Inv s -> is_cancelled (tok s) = true ->
  status_pc s = WStopped -> delay_pc s = WStopped ->
  exists tr' s', run tr' s = Some s' /\ main_pc s' = MExit.
Proof.
  intros HI Hc Hs Hd.
  pose proof (inv_park _ HI Hc) as Hp. pose proof (inv_wg _ HI) as Hw.
  unfold nobody_parked, live_count in *. rewrite Hs, Hd in *. simpl in Hw.
  destruct s as [t sp dp mp q n o cs]. simpl in *. subst sp dp n.
  destruct q as [|x q]; [|discriminate]. clear HI.
  destruct mp; simpl in Hp; try discriminate.
  - exists [LMain false; LMain false; LMain false; LMain false; LMain false].
    eexists. unfold run, step, main_step, main_select. simpl. rewrite Hc. simpl.
    split; reflexivity.
  - exists [LMain false; LMain false; LMain false; LMain false; LMain false;
            LMain false].
    eexists. unfold run, step, main_step, main_select. simpl. rewrite Hc. simpl.
    split; reflexivity.
  - exists [LMain false; LMain false; LMain false; LMain false].
    eexists. unfold run, step, main_step. simpl. split; reflexivity.
  - exists [LMain false; LMain false; LMain false].
    eexists. unfold run, step, main_step. simpl. split; reflexivity.
  - exists [LMain false; LMain false].
    eexists. unfold run, step, main_step. simpl. split; reflexivity.
  - exists [LMain false].
    eexists. unfold run, step, main_step. simpl. split; reflexivity.
  - exists []. eexists. split; reflexivity.
Qed.

Lemma run_then tr1 s s1 (P : state -> Prop) :
  run tr1 s = Some s1 ->
  (exists tr' s', run tr' s1 = Some s' /\ P s') ->
  exists tr' s', run tr' s = Some s' /\ P s'.
Proof.
  intros Hr (tr' & s' & Hr' & HP). exists (tr1 ++ tr'), s'.
  rewrite run_app, Hr. auto.
Qed.

(** X24 -- the program can always shut down.  From every state an execution
    can reach, some continuation, in which the outbound calls fail, leads to
    the end of [main] with both workers returned and the token cancelled:
    no reachable state traps the program. *)
Theorem shutdown_always_possible (tr : list label) (s : state)
  (Hreach : run tr init = Some s) :
  exists tr' s',
    run (tr ++ tr') init = Some s' /\
    main_pc s' = MExit /\ status_pc s' = WStopped /\ delay_pc s' = WStopped /\
    is_cancelled (tok s') = true.
Proof.
  assert (HI : Inv s) by (apply reachable_Inv; now exists tr).
  pose proof (reachable_queue_agrees _ _ Hreach) as HQ.
  assert (Hgoal : exists tr' s', run tr' s = Some s' /\
            (main_pc s' = MExit /\ status_pc s' = WStopped /\
             delay_pc s' = WStopped /\ is_cancelled (tok s') = true)).
  { assert (Hcancelled : forall s0, Inv s0 -> is_cancelled (tok s0) = true ->
              exists tr' s', run tr' s0 = Some s' /\
                (main_pc s' = MExit /\ status_pc s' = WStopped /\
                 delay_pc s' = WStopped /\ is_cancelled (tok s') = true)).
    { intros s0 HI0 Hc0.
      destruct (worker_stops_when_cancelled Status s0 HI0 Hc0) as (t1 & s1 & R1 & P1).
      apply (run_then _ _ _ _ R1).
      assert (HI1 : Inv s1) by (eapply run_Inv; eauto).
      destruct (run_frozen _ _ _ HI0 Hc0 R1) as [T1 _].
      assert (Hc1 : is_cancelled (tok s1) = true) by now rewrite T1.
      destruct (worker_stops_when_cancelled Delay s1 HI1 Hc1) as (t2 & s2 & R2 & P2).
      apply (run_then _ _ _ _ R2).
      assert (HI2 : Inv s2) by (eapply run_Inv; eauto).
      destruct (run_frozen _ _ _ HI1 Hc1 R2) as [T2 _].
      assert (Hc2 : is_cancelled (tok s2) = true) by now rewrite T2.
      pose proof (run_stopped_stays Status _ _ _ P1 R2) as P1'.
      destruct (main_exits s2 HI2 Hc2 P1' P2) as (t3 & s3 & R3 & P3).
      exists t3, s3. split; [exact R3|].
      destruct (run_frozen _ _ _ HI2 Hc2 R3) as [T3 _].
      repeat split; auto.
      - exact (run_stopped_stays Status _ _ _ P1' R3).
      - exact (run_stopped_stays Delay _ _ _ P2 R3).
      - now rewrite T3. }
    destruct (is_cancelled (tok s)) eqn:Ec; [now apply Hcancelled|].
    destruct (can_reach_cancellation s HI HQ Ec) as (t0 & s0 & R0 & C0).
    apply (run_then _ _ _ _ R0). apply Hcancelled; auto.
    eapply run_Inv; eauto. }
  destruct Hgoal as (tr' & s' & Hr & HP).
  exists tr', s'. split; [|exact HP]. now rewrite run_app, Hreach.
Qed.

Lemma shutdown_always_possible_witness :
  run (firstn 3 delay_fails_while_status_publishes) init <> None /\
  exists tr' s',
    run (firstn 3 delay_fails_while_status_publishes ++ tr') init = Some s' /\
    main_pc s' = MExit.
Proof.
  split; [discriminate|].
  destruct (shutdown_always_possible
              (firstn 3 delay_fails_while_status_publishes)
              (final_of (firstn 3 delay_fails_while_status_publishes))
              eq_refl) as (tr' & s' & Hr & He & _).
  exists tr', s'. split; [exact Hr | exact He].
Defined.
